(** * bell HTTPClient: the response-reading state machine

    A shallow embedding of
    [components/spotify/cspot/bell/src/HTTPClient.cpp]: the URL splitter and
    request serializer of [executeImpl], the header parser [readHeaders], the
    buffer primitive [skip], the body decoder [read] and [readToString],
    together with the C library routines they call.  Bytes are [ascii],
    C strings are [list ascii] read up to their first NUL, [size_t] is a
    32-bit unsigned integer carried in [Z] with its wrap-around written out
    (the target is the ESP32). *)

From Stdlib Require Import ZArith Ascii String List Lia Bool.
From stdpp Require Import base option list strings gmap.

Local Open Scope Z_scope.

(** ** Machine integers *)

Module Mach.

Definition size_bits : Z := 32.
Definition SIZE_MOD : Z := 2 ^ size_bits.
Definition LONG_MAX : Z := 2 ^ 31 - 1.
Definition LONG_MIN : Z := - 2 ^ 31.
Definition ULONG_MAX : Z := 2 ^ 32 - 1.

(** Conversion to [size_t], and the result of [size_t] arithmetic. *)
Definition to_size (z : Z) : Z := z mod SIZE_MOD.

(** Conversion to [uint16_t]. *)
Definition to_u16 (z : Z) : Z := z mod 2 ^ 16.

Definition is_size (z : Z) : Prop := 0 <= z < SIZE_MOD.

End Mach.
Export Mach.

(** ** C strings *)

Module CStr.

Definition NUL : ascii := "000"%char.
Definition CR : ascii := "013"%char.
Definition LF : ascii := "010"%char.

(** A string literal as its bytes. *)
Definition bytes (s : string) : list ascii := list_ascii_of_string s.

(** A [char *] is modelled by the bytes from the pointer to the end of the
    storage it points into; the C string it denotes ends at the first NUL
    (the end of the storage stands for the terminator of a [std::string]). *)
Fixpoint strlen (s : list ascii) : nat :=
  match s with
  | [] => O
  | c :: s' => if Ascii.eqb c NUL then O else S (strlen s')
  end.

(** The [std::string] built from a C string pointer. *)
Definition cstr (s : list ascii) : list ascii := take (strlen s) s.

(** [strchr(s, c)] for [c] other than NUL: offset of the first [c]. *)
Fixpoint strchr (s : list ascii) (c : ascii) : option nat :=
  match s with
  | [] => None
  | x :: s' =>
      if Ascii.eqb x c then Some O
      else if Ascii.eqb x NUL then None
      else S <$> strchr s' c
  end.

Fixpoint is_prefix (p s : list ascii) : bool :=
  match p, s with
  | [], _ => true
  | a :: p', b :: s' => Ascii.eqb a b && is_prefix p' s'
  | _ :: _, [] => false
  end.

(** [strstr(s, needle)] for a non-empty needle without NUL: offset of the
    first occurrence before the terminator. *)
Fixpoint strstr (s needle : list ascii) : option nat :=
  match s with
  | [] => None
  | x :: s' =>
      if is_prefix needle s then Some O
      else if Ascii.eqb x NUL then None
      else S <$> strstr s' needle
  end.

Definition tolower (c : ascii) : ascii :=
  let n := nat_of_ascii c in
  if (65 <=? n)%nat && (n <=? 90)%nat then ascii_of_nat (n + 32) else c.

(** [strncmp(a, b, n) == 0]. *)
Fixpoint strncmp_eq (a b : list ascii) (n : nat) : bool :=
  match n with
  | O => true
  | S n' =>
      let x := hd NUL a in
      let y := hd NUL b in
      if Ascii.eqb x y
      then (if Ascii.eqb x NUL then true else strncmp_eq (tl a) (tl b) n')
      else false
  end.

(** [strncasecmp(a, b, n) == 0]. *)
Fixpoint strncasecmp_eq (a b : list ascii) (n : nat) : bool :=
  match n with
  | O => true
  | S n' =>
      let x := tolower (hd NUL a) in
      let y := tolower (hd NUL b) in
      if Ascii.eqb x y
      then (if Ascii.eqb x NUL then true else strncasecmp_eq (tl a) (tl b) n')
      else false
  end.

Definition isspace (c : ascii) : bool :=
  let n := nat_of_ascii c in
  ((9 <=? n)%nat && (n <=? 13)%nat) || (n =? 32)%nat.

(** Value of a digit in bases up to 36. *)
Definition digit_val (c : ascii) : option Z :=
  let n := nat_of_ascii c in
  if (48 <=? n)%nat && (n <=? 57)%nat then Some (Z.of_nat n - 48)
  else if (97 <=? n)%nat && (n <=? 122)%nat then Some (Z.of_nat n - 87)
  else if (65 <=? n)%nat && (n <=? 90)%nat then Some (Z.of_nat n - 55)
  else None.

Definition digit_in (base : Z) (c : ascii) : option Z :=
  match digit_val c with
  | Some d => if d <? base then Some d else None
  | None => None
  end.

(** The digits at the head of [s]: accumulated value and how many. *)
Fixpoint scan_digits (base : Z) (s : list ascii) (acc : Z) (n : nat) : Z * nat :=
  match s with
  | [] => (acc, n)
  | c :: s' =>
      match digit_in base c with
      | Some d => scan_digits base s' (acc * base + d) (S n)
      | None => (acc, n)
      end
  end.

Fixpoint skip_while (p : ascii -> bool) (s : list ascii) : nat :=
  match s with
  | [] => O
  | c :: s' => if p c then S (skip_while p s') else O
  end.

(** The subject sequence shared by [strtol] and [strtoul]: white space, an
    optional sign, for base 16 an optional [0x] in front of a hex digit,
    then digits.  Returns the sign, the magnitude, the number of digits and
    the offset of the first character after the number. *)
Definition scan_number (s : list ascii) (base : Z) : bool * Z * nat * nat :=
  let ws := skip_while isspace s in
  let s1 := drop ws s in
  let '(neg, sg) :=
    match s1 with
    | c :: _ =>
        if Ascii.eqb c "-" then (true, 1%nat)
        else if Ascii.eqb c "+" then (false, 1%nat) else (false, O)
    | [] => (false, O)
    end in
  let s2 := drop sg s1 in
  let px :=
    match s2 with
    | z :: x :: h :: _ =>
        if (base =? 16) && Ascii.eqb z "0"
           && (Ascii.eqb x "x" || Ascii.eqb x "X")
           && bool_decide (is_Some (digit_in 16 h))
        then 2%nat else O
    | _ => O
    end in
  let '(v, n) := scan_digits base (drop px s2) 0 O in
  (neg, v, n, (ws + sg + px + n)%nat).

(** [strtol(s, &end, base)]: the value, clamped to the range of [long], and
    the offset of [end]; without digits the value is 0 and [end] is [s]. *)
Definition strtol (s : list ascii) (base : Z) : Z * nat :=
  let '(neg, v, n, e) := scan_number s base in
  match n with
  | O => (0, O)
  | _ => (if neg then Z.max (- v) LONG_MIN else Z.min v LONG_MAX, e)
  end.

(** [std::stoul(str, nullptr, base)]: [None] where it throws
    ([invalid_argument] without digits, [out_of_range] beyond
    [unsigned long]). *)
Definition stoul (s : list ascii) (base : Z) : option Z :=
  let '(neg, v, n, _) := scan_number s base in
  match n with
  | O => None
  | _ => if ULONG_MAX <? v then None
         else Some (if neg then to_size (- v) else v)
  end.

(** [stream << n] for an unsigned number: its decimal digits. *)
Fixpoint dec_digits (fuel : nat) (n : Z) (acc : list ascii) : list ascii :=
  match fuel with
  | O => acc
  | S fuel' =>
      let d := ascii_of_nat (Z.to_nat (48 + n mod 10)) in
      if n <? 10 then d :: acc else dec_digits fuel' (n / 10) (d :: acc)
  end.

Definition decimal (n : Z) : list ascii := dec_digits (S (Z.to_nat (Z.log2 n))) n [].

End CStr.
Export CStr.

(** ** Results of calls that can fail *)

Inductive error : Type :=
  | OutOfFuel      (* the loop did not finish within the given number of rounds *)
  | NullSocket     (* a call through a released transport handle *)
  | NullBuffer     (* a write through a released receive buffer *)
  | DstOverflow    (* a write past the end of the caller's destination *)
  | BadNumber      (* std::stoul threw *)
  | BadUrl.        (* no '/' after the host *)

Inductive result (A : Type) : Type :=
  | Ok (a : A)
  | Err (e : error).
Arguments Ok {A} a.
Arguments Err {A} e.

#[global] Instance result_ret : MRet result := fun A a => Ok a.
#[global] Instance result_bind : MBind result := fun A B f m =>
  match m with
  | Ok a => f a
  | Err e => Err e
  end.

(** ** The transport *)

Module Transport.

(** What the peer will deliver, as bursts: a [read] returns the bytes of the
    first burst, at most [max] of them, and leaves the rest of the burst for
    the next call; an empty burst is a [read] that returns 0, and so is every
    [read] once the bursts are used up.  [wr] gives the count that [write]
    reports for a request of the given size. *)
Record Socket : Type := {
  rx : list (list ascii);
  wr : Z -> Z
}.

Definition sock_read (sk : Socket) (max : Z) : list ascii * Socket :=
  match rx sk with
  | [] => ([], sk)
  | burst :: rest =>
      let n := Z.to_nat max in
      (take n burst,
       {| rx := match drop n burst with
                | [] => rest
                | more => more :: rest
                end;
          wr := wr sk |})
  end.

(** [poll]: the bytes available without blocking. *)
Definition sock_poll (sk : Socket) : Z :=
  match rx sk with
  | [] => 0
  | burst :: _ => Z.of_nat (length burst)
  end.

(** The calls made on transports, in order. *)
Inductive event : Type :=
  | EvOpen (tls : bool) (host : list ascii) (port : Z)
  | EvWrite (data : list ascii) (accepted : Z)
  | EvRead (len : Z)
  | EvPoll (avail : Z)
  | EvClose.

End Transport.
Export Transport.

(** ** The response object *)

Record Response : Type := {
  statusCode : Z;
  contentLength : Z;
  contentType : list ascii;
  location : list ascii;
  headers : gmap (list ascii) (list ascii);
  isChunked : bool;
  isGzip : bool;
  isComplete : bool;
  isRedirect : bool;
  isStreaming : bool;
  redirectCount : Z;
  socket : option Socket;
  buf : option (list ascii);      (* the receive buffer, [None] for nullptr *)
  bufPtr : Z;                     (* offset of the read cursor in [buf] *)
  bufRemaining : Z;
  bodyRead : Z;
  chunkRemaining : Z;
  trace : list event              (* transport calls so far, latest last *)
}.

Definition set_statusCode (v : Z) (r : Response) : Response :=
  {| statusCode := v; contentLength := contentLength r;
     contentType := contentType r; location := location r;
     headers := headers r; isChunked := isChunked r; isGzip := isGzip r;
     isComplete := isComplete r; isRedirect := isRedirect r;
     isStreaming := isStreaming r; redirectCount := redirectCount r;
     socket := socket r; buf := buf r; bufPtr := bufPtr r;
     bufRemaining := bufRemaining r; bodyRead := bodyRead r;
     chunkRemaining := chunkRemaining r; trace := trace r |}.

Definition set_contentLength (v : Z) (r : Response) : Response :=
  {| statusCode := statusCode r; contentLength := v;
     contentType := contentType r; location := location r;
     headers := headers r; isChunked := isChunked r; isGzip := isGzip r;
     isComplete := isComplete r; isRedirect := isRedirect r;
     isStreaming := isStreaming r; redirectCount := redirectCount r;
     socket := socket r; buf := buf r; bufPtr := bufPtr r;
     bufRemaining := bufRemaining r; bodyRead := bodyRead r;
     chunkRemaining := chunkRemaining r; trace := trace r |}.

Definition set_contentType (v : list ascii) (r : Response) : Response :=
  {| statusCode := statusCode r; contentLength := contentLength r;
     contentType := v; location := location r; headers := headers r;
     isChunked := isChunked r; isGzip := isGzip r;
     isComplete := isComplete r; isRedirect := isRedirect r;
     isStreaming := isStreaming r; redirectCount := redirectCount r;
     socket := socket r; buf := buf r; bufPtr := bufPtr r;
     bufRemaining := bufRemaining r; bodyRead := bodyRead r;
     chunkRemaining := chunkRemaining r; trace := trace r |}.

Definition set_location (v : list ascii) (r : Response) : Response :=
  {| statusCode := statusCode r; contentLength := contentLength r;
     contentType := contentType r; location := v; headers := headers r;
     isChunked := isChunked r; isGzip := isGzip r;
     isComplete := isComplete r; isRedirect := isRedirect r;
     isStreaming := isStreaming r; redirectCount := redirectCount r;
     socket := socket r; buf := buf r; bufPtr := bufPtr r;
     bufRemaining := bufRemaining r; bodyRead := bodyRead r;
     chunkRemaining := chunkRemaining r; trace := trace r |}.

Definition set_headers (v : gmap (list ascii) (list ascii)) (r : Response) : Response :=
  {| statusCode := statusCode r; contentLength := contentLength r;
     contentType := contentType r; location := location r; headers := v;
     isChunked := isChunked r; isGzip := isGzip r;
     isComplete := isComplete r; isRedirect := isRedirect r;
     isStreaming := isStreaming r; redirectCount := redirectCount r;
     socket := socket r; buf := buf r; bufPtr := bufPtr r;
     bufRemaining := bufRemaining r; bodyRead := bodyRead r;
     chunkRemaining := chunkRemaining r; trace := trace r |}.

Definition set_isChunked (v : bool) (r : Response) : Response :=
  {| statusCode := statusCode r; contentLength := contentLength r;
     contentType := contentType r; location := location r;
     headers := headers r; isChunked := v; isGzip := isGzip r;
     isComplete := isComplete r; isRedirect := isRedirect r;
     isStreaming := isStreaming r; redirectCount := redirectCount r;
     socket := socket r; buf := buf r; bufPtr := bufPtr r;
     bufRemaining := bufRemaining r; bodyRead := bodyRead r;
     chunkRemaining := chunkRemaining r; trace := trace r |}.

Definition set_isGzip (v : bool) (r : Response) : Response :=
  {| statusCode := statusCode r; contentLength := contentLength r;
     contentType := contentType r; location := location r;
     headers := headers r; isChunked := isChunked r; isGzip := v;
     isComplete := isComplete r; isRedirect := isRedirect r;
     isStreaming := isStreaming r; redirectCount := redirectCount r;
     socket := socket r; buf := buf r; bufPtr := bufPtr r;
     bufRemaining := bufRemaining r; bodyRead := bodyRead r;
     chunkRemaining := chunkRemaining r; trace := trace r |}.

Definition set_isComplete (v : bool) (r : Response) : Response :=
  {| statusCode := statusCode r; contentLength := contentLength r;
     contentType := contentType r; location := location r;
     headers := headers r; isChunked := isChunked r; isGzip := isGzip r;
     isComplete := v; isRedirect := isRedirect r;
     isStreaming := isStreaming r; redirectCount := redirectCount r;
     socket := socket r; buf := buf r; bufPtr := bufPtr r;
     bufRemaining := bufRemaining r; bodyRead := bodyRead r;
     chunkRemaining := chunkRemaining r; trace := trace r |}.

Definition set_isRedirect (v : bool) (r : Response) : Response :=
  {| statusCode := statusCode r; contentLength := contentLength r;
     contentType := contentType r; location := location r;
     headers := headers r; isChunked := isChunked r; isGzip := isGzip r;
     isComplete := isComplete r; isRedirect := v;
     isStreaming := isStreaming r; redirectCount := redirectCount r;
     socket := socket r; buf := buf r; bufPtr := bufPtr r;
     bufRemaining := bufRemaining r; bodyRead := bodyRead r;
     chunkRemaining := chunkRemaining r; trace := trace r |}.

Definition set_isStreaming (v : bool) (r : Response) : Response :=
  {| statusCode := statusCode r; contentLength := contentLength r;
     contentType := contentType r; location := location r;
     headers := headers r; isChunked := isChunked r; isGzip := isGzip r;
     isComplete := isComplete r; isRedirect := isRedirect r;
     isStreaming := v; redirectCount := redirectCount r; socket := socket r;
     buf := buf r; bufPtr := bufPtr r; bufRemaining := bufRemaining r;
     bodyRead := bodyRead r; chunkRemaining := chunkRemaining r;
     trace := trace r |}.

Definition set_redirectCount (v : Z) (r : Response) : Response :=
  {| statusCode := statusCode r; contentLength := contentLength r;
     contentType := contentType r; location := location r;
     headers := headers r; isChunked := isChunked r; isGzip := isGzip r;
     isComplete := isComplete r; isRedirect := isRedirect r;
     isStreaming := isStreaming r; redirectCount := v; socket := socket r;
     buf := buf r; bufPtr := bufPtr r; bufRemaining := bufRemaining r;
     bodyRead := bodyRead r; chunkRemaining := chunkRemaining r;
     trace := trace r |}.

Definition set_socket (v : option Socket) (r : Response) : Response :=
  {| statusCode := statusCode r; contentLength := contentLength r;
     contentType := contentType r; location := location r;
     headers := headers r; isChunked := isChunked r; isGzip := isGzip r;
     isComplete := isComplete r; isRedirect := isRedirect r;
     isStreaming := isStreaming r; redirectCount := redirectCount r;
     socket := v; buf := buf r; bufPtr := bufPtr r;
     bufRemaining := bufRemaining r; bodyRead := bodyRead r;
     chunkRemaining := chunkRemaining r; trace := trace r |}.

Definition set_buf (v : option (list ascii)) (r : Response) : Response :=
  {| statusCode := statusCode r; contentLength := contentLength r;
     contentType := contentType r; location := location r;
     headers := headers r; isChunked := isChunked r; isGzip := isGzip r;
     isComplete := isComplete r; isRedirect := isRedirect r;
     isStreaming := isStreaming r; redirectCount := redirectCount r;
     socket := socket r; buf := v; bufPtr := bufPtr r;
     bufRemaining := bufRemaining r; bodyRead := bodyRead r;
     chunkRemaining := chunkRemaining r; trace := trace r |}.

Definition set_bufPtr (v : Z) (r : Response) : Response :=
  {| statusCode := statusCode r; contentLength := contentLength r;
     contentType := contentType r; location := location r;
     headers := headers r; isChunked := isChunked r; isGzip := isGzip r;
     isComplete := isComplete r; isRedirect := isRedirect r;
     isStreaming := isStreaming r; redirectCount := redirectCount r;
     socket := socket r; buf := buf r; bufPtr := v;
     bufRemaining := bufRemaining r; bodyRead := bodyRead r;
     chunkRemaining := chunkRemaining r; trace := trace r |}.

Definition set_bufRemaining (v : Z) (r : Response) : Response :=
  {| statusCode := statusCode r; contentLength := contentLength r;
     contentType := contentType r; location := location r;
     headers := headers r; isChunked := isChunked r; isGzip := isGzip r;
     isComplete := isComplete r; isRedirect := isRedirect r;
     isStreaming := isStreaming r; redirectCount := redirectCount r;
     socket := socket r; buf := buf r; bufPtr := bufPtr r; bufRemaining := v;
     bodyRead := bodyRead r; chunkRemaining := chunkRemaining r;
     trace := trace r |}.

Definition set_bodyRead (v : Z) (r : Response) : Response :=
  {| statusCode := statusCode r; contentLength := contentLength r;
     contentType := contentType r; location := location r;
     headers := headers r; isChunked := isChunked r; isGzip := isGzip r;
     isComplete := isComplete r; isRedirect := isRedirect r;
     isStreaming := isStreaming r; redirectCount := redirectCount r;
     socket := socket r; buf := buf r; bufPtr := bufPtr r;
     bufRemaining := bufRemaining r; bodyRead := v;
     chunkRemaining := chunkRemaining r; trace := trace r |}.

Definition set_chunkRemaining (v : Z) (r : Response) : Response :=
  {| statusCode := statusCode r; contentLength := contentLength r;
     contentType := contentType r; location := location r;
     headers := headers r; isChunked := isChunked r; isGzip := isGzip r;
     isComplete := isComplete r; isRedirect := isRedirect r;
     isStreaming := isStreaming r; redirectCount := redirectCount r;
     socket := socket r; buf := buf r; bufPtr := bufPtr r;
     bufRemaining := bufRemaining r; bodyRead := bodyRead r;
     chunkRemaining := v; trace := trace r |}.

Definition set_trace (v : list event) (r : Response) : Response :=
  {| statusCode := statusCode r; contentLength := contentLength r;
     contentType := contentType r; location := location r;
     headers := headers r; isChunked := isChunked r; isGzip := isGzip r;
     isComplete := isComplete r; isRedirect := isRedirect r;
     isStreaming := isStreaming r; redirectCount := redirectCount r;
     socket := socket r; buf := buf r; bufPtr := bufPtr r;
     bufRemaining := bufRemaining r; bodyRead := bodyRead r;
     chunkRemaining := chunkRemaining r; trace := v |}.

Definition add_event (e : event) (r : Response) : Response :=
  set_trace (trace r ++ [e]) r.

(** The bytes of the receive buffer, and those from the read cursor on. *)
Definition bufData (r : Response) : list ascii := default [] (buf r).
Definition atPtr (r : Response) : list ascii :=
  drop (Z.to_nat (bufPtr r)) (bufData r).

(** Modelled from the spec: the member initialisers of [HTTPResponse] are in
    the header, which is not part of the sources; a new response has status
    0, no length, no flags set, no redirect followed, an empty buffer state
    and neither transport nor buffer. *)
Definition newResponse : Response :=
  {| statusCode := 0; contentLength := 0; contentType := []; location := [];
     headers := ∅; isChunked := false; isGzip := false; isComplete := false;
     isRedirect := false; isStreaming := false; redirectCount := 0;
     socket := None; buf := None; bufPtr := 0; bufRemaining := 0;
     bodyRead := 0; chunkRemaining := 0; trace := [] |}.

(** Modelled from the spec: [HTTPResponse::close] is not part of the
    sources; it releases the transport and the buffer and is idempotent. *)
Definition close (r : Response) : Response :=
  match socket r with
  | Some _ => set_buf None (set_socket None (add_event EvClose r))
  | None => set_buf None r
  end.

(** ** The request *)

Inductive HTTPMethod : Type := GET | POST.

Record HTTPRequest : Type := {
  method : HTTPMethod;
  url : list ascii;
  body : list ascii;
  reqContentType : list ascii;
  reqHeaders : list (list ascii * list ascii);   (* in iteration order *)
  maxRedirects : Z
}.

(** ** Writes into the caller's memory *)

(** [data] stored at offset [off] of the array [dst]; a store that does not
    fit is outside the array. *)
Definition store (dst : list ascii) (off : Z) (data : list ascii)
  : result (list ascii) :=
  if (0 <=? off) && (off + Z.of_nat (length data) <=? Z.of_nat (length dst))
  then Ok (take (Z.to_nat off) dst ++ data
           ++ drop (Z.to_nat off + length data) dst)
  else Err DstOverflow.

(** What [strncpy(dst, src, n)] writes: the string at [src] up to [n] bytes,
    padded with NUL to exactly [n] bytes. *)
Definition strncpy_bytes (src : list ascii) (n : nat) : list ascii :=
  let k := Nat.min (strlen src) n in
  take k src ++ replicate (n - k) NUL.

(** The local variables of [read]. *)
Record Locals : Type := {
  dstArr : list ascii;   (* the caller's array *)
  dst : Z;               (* offset of the cursor [dst] in it *)
  nread : Z;             (* [read] *)
  toRead : Z
}.

Definition set_toRead (v : Z) (l : Locals) : Locals :=
  {| dstArr := dstArr l; dst := dst l; nread := nread l; toRead := v |}.

(** ** The client *)

Section Client.

(** [BUF_SIZE] is a constant of the header, the network is the environment:
    the transport that [open] reaches for a scheme, host and port. *)
Variable BUF_SIZE : Z.
Variable net : bool -> list ascii -> Z -> Socket.

Definition CRLF : list ascii := [CR; LF].
Definition SP : ascii := " "%char.

(** [readHeader(header, name)]: [Some] of the advanced [header] for [true]. *)
Definition readHeader (header name : list ascii) : option (list ascii) :=
  let len := strlen name in
  if strncasecmp_eq header name len
  then let h := drop len header in
       Some (drop (skip_while (Ascii.eqb SP) h) h)
  else None.

Definition readRaw (st : Response) : result (Z * Response) :=
  match socket st, buf st with
  | None, _ => Err NullSocket
  | Some _, None => Err NullBuffer
  | Some sk, Some b =>
      let '(data, sk') := sock_read sk BUF_SIZE in
      let len := Z.of_nat (length data) in
      let b' := <[length data := NUL]> (data ++ drop (length data) b) in
      Ok (len,
          set_buf (Some b')
            (set_bodyRead (to_size (bodyRead st + len))
               (add_event (EvRead len) (set_socket (Some sk') st))))
  end.

(** One non-empty header line of [readHeaders], held in [lineBuf]. *)
Definition headerLine (lineBuf : list ascii) (st : Response) : Response :=
  let header := lineBuf in
  if strncmp_eq header (bytes "HTTP/") 5 then
    set_statusCode (fst (strtol (drop 9 header) 10)) st
  else match readHeader header (bytes "content-type:") with
  | Some h => set_contentType (cstr h) st
  | None =>
  match readHeader header (bytes "content-length:") with
  | Some h =>
      let st := set_contentLength (to_size (fst (strtol h 10))) st in
      if contentLength st =? 0 then set_isComplete true st else st
  | None =>
  match readHeader header (bytes "transfer-encoding:") with
  | Some h => set_isChunked (strncmp_eq h (bytes "chunked") 7) st
  | None =>
  match readHeader header (bytes "location:") with
  | Some h => set_location (cstr h) (set_isRedirect true st)
  | None =>
  match strchr header ":" with
  | Some colon =>
      let v := drop (S colon) header in
      let value := drop (skip_while (Ascii.eqb SP) v) v in
      let name := map tolower (take colon header) in
      set_headers (<[name := cstr value]> (headers st)) st
  | None => st
  end end end end end.

(** The end of the header block at [lineEnd], in a fill of [len] bytes. *)
Definition headersDone (len lineEnd : Z) (st : Response) : result Response :=
  if lineEnd + 2 <? len then
    let st := set_bufPtr (lineEnd + 2) st in
    let st := set_bufRemaining (to_size (len - bufPtr st)) st in
    let st := set_bodyRead (bufRemaining st) st in
    if negb (isComplete st) && (contentLength st =? 0) then
      if len <? BUF_SIZE then Ok (set_isStreaming true st)
      else match socket st with
           | None => Err NullSocket
           | Some sk =>
               let n := sock_poll sk in
               Ok (set_isStreaming (n =? 0) (add_event (EvPoll n) st))
           end
    else Ok (set_isStreaming false st)
  else Ok st.

(** The inner loop of [readHeaders] over the lines of one fill, from offset
    [line]; each round moves [line] forward by two bytes or more. *)
Fixpoint scanLines (fuel : nat) (len : Z) (line : nat) (lineBuf : list ascii)
    (st : Response) : result (bool * list ascii * Response) :=
  match fuel with
  | O => Err OutOfFuel
  | S fuel' =>
      let b := bufData st in
      match strstr (drop line b) CRLF with
      | None =>
          Ok (false, lineBuf ++ take (Z.to_nat len - line) (drop line b), st)
      | Some off =>
          let lineBuf := lineBuf ++ take off (drop line b) in
          match lineBuf with
          | [] =>
              st' ← headersDone len (Z.of_nat (line + off)) st;
              Ok (true, [], st')
          | _ :: _ =>
              scanLines fuel' len (line + off + 2) [] (headerLine lineBuf st)
          end
      end
  end.

(** The outer loop of [readHeaders]: one fill per round. *)
Fixpoint fillLoop (fuel : nat) (lineBuf : list ascii) (st : Response)
  : result Response :=
  match fuel with
  | O => Err OutOfFuel
  | S fuel' =>
      '(len, st) ← readRaw st;
      '(complete, lineBuf, st) ← scanLines (S (Z.to_nat len)) len O lineBuf st;
      if complete : bool then Ok st else fillLoop fuel' lineBuf st
  end.

Definition readHeaders (fuel : nat) (st : Response) : result Response :=
  let st :=
    match buf st with
    | None =>
        set_bufPtr 0 (set_buf (Some (replicate (Z.to_nat (BUF_SIZE + 1)) NUL)) st)
    | Some _ => st
    end in
  let st := set_statusCode 0 st in
  let st := set_contentLength 0 st in
  let st := set_isChunked false st in
  let st := set_isGzip false st in
  let st := set_isComplete false st in
  let st := set_isRedirect false st in
  let st := set_isStreaming false st in
  fillLoop fuel [] st.

Definition skip (len : Z) (dontRead : bool) (st : Response)
  : result (bool * Response) :=
  let over := bufRemaining st <? len in
  let skip := if over then to_size (len - bufRemaining st) else 0 in
  let len := if over then bufRemaining st else len in
  let st := set_bufRemaining (to_size (bufRemaining st - len)) st in
  let st := set_bufPtr (bufPtr st + len) st in
  if (bufRemaining st =? 0) && negb dontRead then
    if isComplete st
       || (negb (contentLength st =? 0) && (contentLength st <=? bodyRead st)
           && (chunkRemaining st =? 0))
    then Ok (false, set_isComplete true st)
    else
      '(n, st) ← readRaw st;
      let st := set_bufRemaining n st in
      if bufRemaining st =? 0 then Ok (false, st)
      else
        let st := set_bufPtr skip st in
        let st := set_bufRemaining (to_size (bufRemaining st - skip)) st in
        if (contentLength st =? 0) && (bufRemaining st <? BUF_SIZE)
        then Ok (true, set_isStreaming true st)
        else Ok (true, st)
  else Ok (true, st).

(** The chunked branch of [read]: the size line of the next chunk.  The
    boolean is [false] where the source leaves the main loop. *)
Definition chunkSize (st : Response) : result (bool * Response) :=
  if Ascii.eqb (hd NUL (atPtr st)) "0" then Ok (false, set_isComplete true st)
  else
    match strchr (atPtr st) CR with
    | None =>
        let size := take (Z.to_nat (bufRemaining st)) (atPtr st) in
        '(more, st) ← skip (bufRemaining st) false st;
        if negb more then Ok (false, st)
        else
          match strchr (atPtr st) CR with
          | None => Ok (false, st)
          | Some e =>
              match stoul (size ++ take e (atPtr st)) 16 with
              | None => Err BadNumber
              | Some v => skip (Z.of_nat e + 2) false (set_chunkRemaining v st)
              end
          end
    | Some _ =>
        let '(v, e) := strtol (atPtr st) 16 in
        skip (Z.of_nat e + 2) false (set_chunkRemaining (to_size v) st)
    end.

(** The copy loop of [read]. *)
Fixpoint copyLoop (fuel : nat) (lv : Locals) (st : Response)
  : result (Locals * Response) :=
  match fuel with
  | O => Err OutOfFuel
  | S fuel' =>
      if (chunkRemaining st =? 0) || (toRead lv =? 0) then Ok (lv, st)
      else
        let count :=
          Z.min (toRead lv) (Z.min (bufRemaining st) (chunkRemaining st)) in
        arr ← store (dstArr lv) (dst lv)
                (strncpy_bytes (atPtr st) (Z.to_nat count));
        let lv := {| dstArr := arr; dst := dst lv + count;
                     nread := to_size (nread lv + count);
                     toRead := to_size (toRead lv - count) |} in
        let st := set_chunkRemaining (to_size (chunkRemaining st - count)) st in
        '(more, st) ← skip count false st;
        if negb more then Ok (set_toRead 0 lv, st)
        else if isChunked st && (chunkRemaining st =? 0) then
          '(more, st) ← skip 2 (isStreaming st) st;
          copyLoop fuel' (if more : bool then lv else set_toRead 0 lv) st
        else copyLoop fuel' lv st
  end.

(** The main loop of [read]. *)
Fixpoint readLoop (fuel : nat) (lv : Locals) (st : Response)
  : result (Locals * Response) :=
  match fuel with
  | O => Err OutOfFuel
  | S fuel' =>
      if toRead lv =? 0 then Ok (lv, st)
      else
        '(_, st) ← skip 0 false st;
        '(go, st) ←
          (if isChunked st && (chunkRemaining st =? 0) then chunkSize st
           else if negb (contentLength st =? 0) && (chunkRemaining st =? 0)
           then Ok (true, set_chunkRemaining (contentLength st) st)
           else Ok (true, st));
        if negb go then Ok (lv, st)
        else
          '(lv, st) ← copyLoop fuel' lv st;
          if isStreaming st && (bufRemaining st =? 0) then Ok (lv, st)
          else readLoop fuel' lv st
  end.

(** [read(dst, toRead)] on a destination array [arr]: the count returned and
    the array afterwards. *)
Definition read (fuel : nat) (arr : list ascii) (n : Z) (st : Response)
  : result (Z * list ascii * Response) :=
  if isComplete st then
    arr ← store arr 0 [NUL];
    Ok (0, arr, st)
  else
    '(lv, st) ← readLoop fuel
                  {| dstArr := arr; dst := 0; nread := 0; toRead := n |} st;
    let st :=
      if negb (isChunked st) && negb (contentLength st =? 0)
         && (chunkRemaining st =? 0)
      then set_isComplete true st else st in
    arr ← store (dstArr lv) (nread lv) [NUL];
    Ok (nread lv, arr, st).

(** The loop of [readToString] over its scratch array [buffer]. *)
Fixpoint readAll (fuel : nat) (res buffer : list ascii) (st : Response)
  : result (list ascii * Response) :=
  match fuel with
  | O => Err OutOfFuel
  | S fuel' =>
      '(len, buffer, st) ← read fuel' buffer BUF_SIZE st;
      let res := res ++ cstr buffer in
      if len =? 0 then Ok (res, st) else readAll fuel' res buffer st
  end.

Definition readToString (fuel : nat) (st : Response)
  : result (list ascii * Response) :=
  if negb (contentLength st =? 0) then
    let n := Z.to_nat (contentLength st) in
    '(_, arr, st) ← read fuel (replicate (S n) NUL) (contentLength st) st;
    Ok (take n arr, close st)
  else
    '(res, st) ← readAll fuel [] (replicate (Z.to_nat BUF_SIZE) NUL) st;
    Ok (res, close st).

(** The first lines of [executeImpl]: scheme, host name, port and path. *)
Definition splitUrl (url : list ascii)
  : result (bool * list ascii * Z * list ascii) :=
  let https := Ascii.eqb (nth 4 url NUL) "s" in
  let port := if https then 443 else 80 in
  let hostname := drop (if https then 8 else 7)%nat url in
  match strchr hostname ":", strchr hostname "/" with
  | _, None => Err BadUrl
  | None, Some p => Ok (https, take p hostname, port, cstr (drop p hostname))
  | Some e, Some p =>
      Ok (https, take e hostname,
          to_u16 (fst (strtol (drop (S e) hostname) 10)),
          cstr (drop p hostname))
  end.

(** The request as [executeImpl] writes it to the stream. *)
Definition serialize (req : HTTPRequest) (path host : list ascii) (port : Z)
  : list ascii :=
  (match method req with GET => bytes "GET " | POST => bytes "POST " end)
  ++ path ++ bytes " HTTP/1.1" ++ CRLF
  ++ bytes "Host: " ++ host ++ bytes ":" ++ decimal port ++ CRLF
  ++ bytes "Accept: */*" ++ CRLF
  ++ (match body req with
      | [] => []
      | _ :: _ =>
          bytes "Content-Type: " ++ reqContentType req ++ CRLF
          ++ bytes "Content-Length: "
          ++ decimal (Z.of_nat (length (body req))) ++ CRLF
      end)
  ++ concat (map (fun h => h.1 ++ bytes ": " ++ h.2 ++ CRLF) (reqHeaders req))
  ++ CRLF ++ body req.

(** [executeImpl]: the response left in [response] ([None] for nullptr) and
    the transport calls made. *)
Fixpoint executeImpl (fuel : nat) (req : HTTPRequest) (url : list ascii)
    (response : Response) : result (option Response * list event) :=
  match fuel with
  | O => Err OutOfFuel
  | S fuel' =>
      '(https, hostnameStr, port, path) ← splitUrl url;
      let sk := net https hostnameStr port in
      let response :=
        add_event (EvOpen https hostnameStr port)
          (set_socket (Some sk) response) in
      let data := serialize req path hostnameStr port in
      let len := wr sk (Z.of_nat (length data)) in
      let response := add_event (EvWrite data len) response in
      if negb (len =? Z.of_nat (length data)) then
        Ok (None, trace (close response))
      else
        response ← readHeaders fuel' response;
        if isRedirect response
           && ((maxRedirects req <? 0)
               || (redirectCount response <? maxRedirects req))
        then
          let response :=
            set_redirectCount (redirectCount response + 1) response in
          executeImpl fuel' req (location response) (close response)
        else Ok (Some response, trace response)
  end.

Definition execute (fuel : nat) (req : HTTPRequest)
  : result (option Response * list event) :=
  executeImpl fuel req (url req) newResponse.

End Client.

(** ** Vocabulary of the statements *)

(** A new response on a transport that will deliver [bursts] and accepts
    every write in full. *)
Definition connect (bursts : list (list ascii)) : Response :=
  set_socket (Some {| rx := bursts; wr := fun n => n |}) newResponse.

(** Header parsing followed by [readToString]. *)
Definition fetch (B : Z) (fuel : nat) (bursts : list (list ascii))
  : result (list ascii * Response) :=
  st ← readHeaders B fuel (connect bursts);
  readToString B fuel st.

(** The string returned and the final [isComplete]. *)
Definition outcome (r : result (list ascii * Response))
  : option (list ascii * bool) :=
  match r with
  | Ok (s, st) => Some (s, isComplete st)
  | Err _ => None
  end.

Definition chunkedHead : list ascii :=
  bytes "HTTP/1.1 200 OK" ++ CRLF
  ++ bytes "Transfer-Encoding: chunked" ++ CRLF ++ CRLF.

Definition wikipedia : list ascii :=
  bytes "4" ++ CRLF ++ bytes "Wiki" ++ CRLF
  ++ bytes "5" ++ CRLF ++ bytes "pedia" ++ CRLF
  ++ bytes "0" ++ CRLF ++ CRLF.

(** The parsed metadata of a response. *)
Definition metadata (st : Response)
  : Z * Z * list ascii * list ascii * bool * gmap (list ascii) (list ascii) :=
  (statusCode st, contentLength st, contentType st, location st,
   isChunked st, headers st).

Definition sampleHead : list ascii :=
  bytes "HTTP/1.1 200 OK" ++ CRLF
  ++ bytes "Content-Type: text/html" ++ CRLF
  ++ bytes "Content-Length: 42" ++ CRLF ++ CRLF.

(** The buffer bound: cursor plus unconsumed count within the capacity. *)
Definition bufferBound (B : Z) (st : Response) : Prop :=
  bufPtr st + bufRemaining st <= B.

(** The counters of a response are sizes. *)
Definition counters_ok (st : Response) : Prop :=
  0 <= bufRemaining st /\ 0 <= chunkRemaining st /\ 0 <= contentLength st.

(** The invariant of the local variables of [read] for a request of [n]
    bytes into the array [arr0]: the cursor is at the count read, what is
    read and what is still wanted stay within [n], and the array is unchanged
    from the cursor on. *)
Definition locals_ok (arr0 : list ascii) (n : Z) (lv : Locals) : Prop :=
  dst lv = nread lv /\ 0 <= nread lv /\ 0 <= toRead lv
  /\ nread lv + toRead lv <= n
  /\ length (dstArr lv) = length arr0
  /\ forall i : nat, nread lv <= Z.of_nat i -> dstArr lv !! i = arr0 !! i.

(** A result as an option. *)
Definition ok {A : Type} (r : result A) : option A :=
  match r with
  | Ok a => Some a
  | Err _ => None
  end.

(** The metadata parsed from the header block delivered as [bursts]. *)
Definition parsed (B : Z) (fuel : nat) (bursts : list (list ascii)) :=
  metadata <$> ok (readHeaders B fuel (connect bursts)).

(** Header parsing, then one [read] of [n] bytes into an array of [cap]
    bytes: the count, the array and the transport calls of both. *)
Definition readBody (B : Z) (fuel : nat) (bursts : list (list ascii))
    (cap : nat) (n : Z) : option (Z * list ascii * list event) :=
  ok (st ← readHeaders B fuel (connect bursts);
      '(k, arr, st) ← read B fuel (replicate cap "x"%char) n st;
      Ok (k, arr, trace st)).

(** [rounds] fills of [readHeaders] that do not reach the blank line. *)
Fixpoint afterFills (B : Z) (rounds : nat) (lineBuf : list ascii)
    (st : Response) : result (list ascii * Response) :=
  match rounds with
  | O => Ok (lineBuf, st)
  | S rounds' =>
      '(len, st) ← readRaw B st;
      '(complete, lineBuf, st) ← scanLines B (S (Z.to_nat len)) len O lineBuf st;
      if complete : bool then Err OutOfFuel
      else afterFills B rounds' lineBuf st
  end.

(** What C1 asks of a capacity [B]: the whole body in the fill of the
    header block, in a fill of its own, and cut in two at every position. *)
Definition wikipedia_decoded (B : Z) : Prop :=
  outcome (fetch B 16 [chunkedHead ++ wikipedia])
    = Some (bytes "Wikipedia", true)
  /\ outcome (fetch B 16 [chunkedHead; wikipedia])
    = Some (bytes "Wikipedia", true)
  /\ Forall (fun k => fst <$> outcome (fetch B 16 [chunkedHead;
                         take k wikipedia; drop k wikipedia])
                       = Some (bytes "Wikipedia")) (seq 0 25).

#[global] Instance wikipedia_decoded_dec B : Decision (wikipedia_decoded B).
Proof. unfold wikipedia_decoded. apply _. Defined.

(** A three-byte body with a NUL in the middle, after its header block. *)
Definition binaryHead : list ascii :=
  bytes "HTTP/1.1 200 OK" ++ CRLF ++ bytes "Content-Length: 3" ++ CRLF ++ CRLF.
Definition binaryBody : list ascii := ["a"; NUL; "b"]%char.

(** A header block without length and without chunked encoding. *)
Definition bareHead : list ascii :=
  bytes "HTTP/1.1 204 No Content" ++ CRLF ++ CRLF.

(** The transport calls of [st'] continue those of [st]. *)
Definition extends (st st' : Response) : Prop :=
  exists evs, trace st' = trace st ++ evs.

(** What header parsing leaves alone: the redirect count and the transport
    handle stay, the transport calls only grow. *)
Definition same_call (st st' : Response) : Prop :=
  redirectCount st' = redirectCount st
  /\ (is_Some (socket st) -> is_Some (socket st'))
  /\ extends st st'.

(** A chunked response in streaming mode with [buffered] in its buffer,
    [c] bytes left of the current chunk and [bursts] still to come; the
    buffer has the capacity 128. *)
Definition streamingState (buffered : list ascii) (c : Z)
    (bursts : list (list ascii)) : Response :=
  set_chunkRemaining c
    (set_bufRemaining (Z.of_nat (length buffered))
       (set_isStreaming true
          (set_isChunked true
             (set_buf (Some (buffered ++ replicate (129 - length buffered) NUL))
                (connect bursts))))).

(** One leg of [executeImpl] up to the redirect decision: the response after
    header parsing, or the transport calls when the write fell short. *)
Definition leg (B : Z) (net : bool -> list ascii -> Z -> Socket) (fuel : nat)
    (req : HTTPRequest) (url : list ascii) (response : Response)
  : result (Response + list event) :=
  '(https, hostnameStr, port, path) ← splitUrl url;
  let sk := net https hostnameStr port in
  let data := serialize req path hostnameStr port in
  let len := wr sk (Z.of_nat (length data)) in
  let response :=
    add_event (EvWrite data len)
      (add_event (EvOpen https hostnameStr port)
         (set_socket (Some sk) response)) in
  if negb (len =? Z.of_nat (length data)) then Ok (inr (trace (close response)))
  else r ← readHeaders B fuel response; Ok (inl r).

(** The response handed to the next leg when a redirect is followed. *)
Definition redirected (r : Response) : Response :=
  close (set_redirectCount (redirectCount r + 1) r).

(** The redirect decision of [executeImpl]. *)
Definition follows (req : HTTPRequest) (r : Response) : bool :=
  isRedirect r
  && ((maxRedirects req <? 0) || (redirectCount r <? maxRedirects req)).

(** A network of two hosts: [a.example] answers with a redirect to
    [b.example], which answers with a body of two bytes. *)
Definition sampleNet : bool -> list ascii -> Z -> Socket :=
  fun _ host _ =>
    if bool_decide (host = bytes "a.example")
    then {| rx := [bytes "HTTP/1.1 302 Found" ++ CRLF
                   ++ bytes "Location: http://b.example/x" ++ CRLF ++ CRLF];
            wr := fun n => n |}
    else {| rx := [bytes "HTTP/1.1 200 OK" ++ CRLF
                   ++ bytes "Content-Length: 2" ++ CRLF ++ CRLF ++ bytes "ok"];
            wr := fun n => n |}.

Definition sampleReq (limit : Z) : HTTPRequest :=
  {| method := GET; url := bytes "http://a.example/"; body := [];
     reqContentType := []; reqHeaders := []; maxRedirects := limit |}.

(** The response of a leg that got one. *)
Definition legResponse (r : result (Response + list event)) : Response :=
  match r with
  | Ok (inl r) => r
  | _ => newResponse
  end.

(** A header line as the parser expects it: not empty, without CR and
    without NUL. *)
Definition plain (l : list ascii) : Prop := l <> [] /\ (CR ∉ l) /\ (NUL ∉ l).

(** The bytes of a buffer behind a fill: nothing, or the terminator that
    [readRaw] writes. *)
Definition ended (tail : list ascii) : Prop :=
  tail = [] \/ exists t, tail = NUL :: t.

(** Header lines on the wire, and the header block they make with the
    blank line. *)
Definition wireLines (lines : list (list ascii)) : list ascii :=
  concat (map (fun l => l ++ CRLF) lines).
Definition wire (lines : list (list ascii)) : list ascii :=
  wireLines lines ++ CRLF.

(** A fill that does not end in a CR: it does not separate a CR from its
    LF. *)
Definition whole (f : list ascii) : Prop := last f <> Some CR.

(** The fields that header lines set. *)
Definition parsedFields (st : Response) :=
  (statusCode st, contentLength st, contentType st, location st,
   isChunked st, headers st, isComplete st, isRedirect st).

(** The lines on which [headerLine] marks the response complete: those that
    reach its content length branch with a value that reads as 0. *)
Definition declaresNoBody (l : list ascii) : bool :=
  negb (strncmp_eq l (bytes "HTTP/") 5)
  && match readHeader l (bytes "content-type:") with
     | Some _ => false
     | None =>
         match readHeader l (bytes "content-length:") with
         | Some h => to_size (fst (strtol h 10)) =? 0
         | None => false
         end
     end.

(** The header lines parsed one after the other. *)
Definition parseLines (lines : list (list ascii)) (st : Response) : Response :=
  foldl (fun s l => headerLine l s) st lines.

(** The fields that [readHeaders] resets before it reads. *)
Definition cleared (st : Response) : Response :=
  set_isStreaming false
    (set_isRedirect false
       (set_isComplete false
          (set_isGzip false
             (set_isChunked false
                (set_contentLength 0 (set_statusCode 0 st)))))).

(** A header block of plain lines, followed by [body], delivered in fills
    of at most [B] bytes none of which ends in a CR. *)
Definition delivery (B : Z) (lines : list (list ascii)) (body : list ascii)
    (fills : list (list ascii)) : Prop :=
  Forall plain lines
  /\ Forall (fun f => Z.of_nat (length f) <= B /\ whole f) fills
  /\ concat fills = wire lines ++ body.

Definition noContent : list (list ascii) :=
  [bytes "HTTP/1.1 204 No Content"; bytes "Content-Length: 0"].

(** The scheme prefix of a URL. *)
Definition scheme (tls : bool) : list ascii :=
  if tls then bytes "https://" else bytes "http://".

(** A decimal digit. *)
Definition isdigit (c : ascii) : Prop := is_Some (digit_in 10 c).

Definition COLON : ascii := ":"%char.

Definition lower (s : list ascii) : list ascii := map tolower s.

(** A header line [name: value] with [k] spaces in front of the value. *)
Definition field (name : list ascii) (k : nat) (value : list ascii)
  : list ascii :=
  name ++ COLON :: replicate k SP ++ value.

(** A header name as the parser can tell it from the rest of the line:
    without colon, without NUL, and not the start of a status line. *)
Definition fieldName (name : list ascii) : Prop :=
  (COLON ∉ name) /\ (NUL ∉ name) /\ take 5 name <> bytes "HTTP/".

(** The line [l] begins with [name] and a colon, in any casing. *)
Definition named (name l : list ascii) : Prop :=
  lower (take (length name + 1) l) = lower name ++ [COLON].

(** What a header line [name: value] does to the response, told by the
    lower-cased name. *)
Definition setField (name value : list ascii) (st : Response) : Response :=
  if bool_decide (lower name = bytes "content-type") then
    set_contentType (cstr value) st
  else if bool_decide (lower name = bytes "content-length") then
    let n := to_size (fst (strtol value 10)) in
    if n =? 0 then set_isComplete true (set_contentLength n st)
    else set_contentLength n st
  else if bool_decide (lower name = bytes "transfer-encoding") then
    set_isChunked (bool_decide (take 7 value = bytes "chunked")) st
  else if bool_decide (lower name = bytes "location") then
    set_location (cstr value) (set_isRedirect true st)
  else set_headers (<[lower name := cstr value]> (headers st)) st.

(** A status line: [HTTP/], four bytes for the version and the space, the
    code in decimal, and a reason that does not continue the number. *)
Definition statusLine (ver : list ascii) (code : Z) (reason : list ascii)
  : list ascii :=
  bytes "HTTP/" ++ ver ++ decimal code ++ reason.

(** The transport calls that receive, and the reads among them. *)
Definition receives (e : event) : Prop :=
  match e with
  | EvRead _ | EvPoll _ => True
  | _ => False
  end.

Definition isRead (e : event) : Prop :=
  match e with
  | EvRead _ => True
  | _ => False
  end.

(** The event of the read that delivers the fill [f]. *)
Definition readOf (f : list ascii) : event := EvRead (Z.of_nat (length f)).

(** What header parsing keeps of a response: the gzip flag, the headers
    already stored (a value may be replaced), and the transport calls, to
    which it adds receiving ones only. *)
Definition keeps (st st' : Response) : Prop :=
  isGzip st' = isGzip st
  /\ (forall key, is_Some (headers st !! key) -> is_Some (headers st' !! key))
  /\ exists evs, trace st' = trace st ++ evs /\ Forall receives evs.

(** The cursor into the receive buffer and the count of body bytes. *)
Definition cursor (st : Response) : Z * Z * Z :=
  (bufPtr st, bufRemaining st, bodyRead st).

(** What the header parser has set, as a caller sees it while the body is
    read. *)
Definition headerView (st : Response) :=
  (statusCode st, contentLength st, contentType st, location st, isChunked st,
   headers st, isRedirect st, isGzip st, redirectCount st).

(** What the body reader keeps of a response. *)
Definition reading (st st' : Response) : Prop :=
  headerView st' = headerView st
  /\ (is_Some (socket st) -> is_Some (socket st'))
  /\ exists evs, trace st' = trace st ++ evs /\ Forall isRead evs.

(** The response that a call returned, for the examples. *)
Definition returned (r : result Response) : Response :=
  match r with
  | Ok st => st
  | Err _ => newResponse
  end.

(** The lines of a response head [200 OK] with a content length. *)
Definition lengthHead (n : Z) : list (list ascii) :=
  [statusLine (bytes "1.1 ") 200 (bytes " OK");
   field (bytes "Content-Length") 1 (decimal n)].

(** A hexadecimal digit. *)
Definition isxdigit (c : ascii) : Prop := is_Some (digit_in 16 c).

(** The size line [sz] of a chunk reads as [n]: hexadecimal digits, the
    first of them not 0. *)
Definition hexSize (sz : list ascii) (n : Z) : Prop :=
  sz <> [] /\ hd NUL sz <> "0"%char /\ Forall isxdigit sz
  /\ fst (scan_digits 16 sz 0 0) = n.

(** A chunk as sent, given as size line and payload; the chunks of a body
    one after the other, and their payloads. *)
Definition wireChunk (c : list ascii * list ascii) : list ascii :=
  c.1 ++ CRLF ++ c.2 ++ CRLF.
Definition wireChunks (cs : list (list ascii * list ascii)) : list ascii :=
  concat (map wireChunk cs).
Definition payloads (cs : list (list ascii * list ascii)) : list ascii :=
  concat (map snd cs).

(** A chunk whose size line gives the length of its payload, the payload
    of one byte or more and without NUL. *)
Definition chunkOk (c : list ascii * list ascii) : Prop :=
  hexSize c.1 (Z.of_nat (length c.2)) /\ c.2 <> [] /\ (NUL ∉ c.2)
  /\ Z.of_nat (length c.2) <= LONG_MAX.

(** The read cursor moved [k] bytes forward within the buffer, with no
    other change that the body reader looks at. *)
Definition advanced (k : Z) (st st' : Response) : Prop :=
  buf st' = buf st /\ bufPtr st' = bufPtr st + k
  /\ bufRemaining st' = bufRemaining st - k
  /\ isChunked st' = isChunked st /\ isComplete st' = isComplete st
  /\ trace st' = trace st /\ socket st' = socket st
  /\ headerView st' = headerView st.

(** The locals of [read] after [p] was copied out. *)
Definition copied (p : list ascii) (lv : Locals) : Locals :=
  let k := Z.of_nat (length p) in
  {| dstArr := take (Z.to_nat (dst lv)) (dstArr lv) ++ p
               ++ drop (Z.to_nat (dst lv) + length p) (dstArr lv);
     dst := dst lv + k; nread := nread lv + k; toRead := toRead lv - k |}.

(** * Properties *)

(** ** Machine integers and C strings *)

Lemma to_size_small z : is_size z -> to_size z = z.
Proof. intros H. unfold to_size. apply Z.mod_small. exact H. Qed.

Lemma to_size_nonneg z : 0 <= to_size z.
Proof. unfold to_size. apply Z.mod_pos_bound. reflexivity. Qed.

Example strtol_hex : strtol (bytes "1aG") 16 = (26, 2%nat).
Proof. reflexivity. Qed.

Example strtol_skips_space : strtol (CR :: LF :: bytes "A") 16 = (10, 3%nat).
Proof. reflexivity. Qed.

Example decimal_443 : decimal 443 = bytes "443" /\ decimal 0 = bytes "0".
Proof. split; reflexivity. Qed.

Example strstr_finds_crlf :
  strstr (bytes "ab" ++ CRLF ++ bytes "c") CRLF = Some 2%nat.
Proof. reflexivity. Qed.

Lemma strlen_le_length s : (strlen s <= length s)%nat.
Proof.
  induction s as [|c s IH]; simpl; [lia|].
  destruct (Ascii.eqb c NUL); lia.
Qed.

(** Up to the terminator [strncpy] copies; from it on it pads. *)
Lemma strncpy_bytes_length src n : length (strncpy_bytes src n) = n.
Proof.
  unfold strncpy_bytes. pose proof (strlen_le_length src).
  rewrite length_app, length_take, length_replicate. lia.
Qed.

Lemma strncpy_bytes_exact src n :
  (n <= strlen src)%nat -> strncpy_bytes src n = take n src.
Proof.
  intros H. unfold strncpy_bytes.
  replace (Nat.min (strlen src) n) with n by lia.
  rewrite Nat.sub_diag. simpl. apply app_nil_r.
Qed.

(** ** The model at work *)

Example serialize_post :
  serialize {| method := POST; url := bytes "http://h/p"; body := bytes "a=1";
               reqContentType := bytes "text/plain";
               reqHeaders := [(bytes "X-Id", bytes "7")]; maxRedirects := 0 |}
    (bytes "/p") (bytes "h") 80
  = bytes "POST /p HTTP/1.1" ++ CRLF ++ bytes "Host: h:80" ++ CRLF
    ++ bytes "Accept: */*" ++ CRLF ++ bytes "Content-Type: text/plain" ++ CRLF
    ++ bytes "Content-Length: 3" ++ CRLF ++ bytes "X-Id: 7" ++ CRLF ++ CRLF
    ++ bytes "a=1".
Proof. vm_compute. reflexivity. Qed.

Example splitUrl_with_port :
  splitUrl (bytes "https://example.com:8443/index.html")
  = Ok (true, bytes "example.com", 8443, bytes "/index.html").
Proof. vm_compute. reflexivity. Qed.

Example content_length_body :
  outcome (fetch 128 4 [bytes "HTTP/1.1 200 OK" ++ CRLF
                        ++ bytes "Content-Length: 5" ++ CRLF ++ CRLF
                        ++ bytes "hello"])
  = Some (bytes "hello", true).
Proof. vm_compute. reflexivity. Qed.

Example header_names_are_lowered :
  (fun st => headers st !! bytes "x-foo")
    <$> ok (readHeaders 128 4 (connect [bytes "HTTP/1.1 200 OK" ++ CRLF
                                        ++ bytes "X-Foo:  Bar" ++ CRLF ++ CRLF]))
  = Some (Some (bytes "Bar")).
Proof. vm_compute. reflexivity. Qed.


(** ** Chunked decoding *)



(** When the cut falls between the CR and the LF that follow the last
    payload, the string is still complete but the decoder does not see the
    terminal chunk. *)
Remark wikipedia_cut_in_crlf :
  outcome (fetch 128 16 [chunkedHead; take 18 wikipedia; drop 18 wikipedia])
  = Some (bytes "Wikipedia", false).
Proof. vm_compute. reflexivity. Qed.

(** ** The copy loop *)

(** C3. The copy loop takes [count = min(toRead, bufRemaining,
    chunkRemaining)] and advances the cursor, the read counter and the
    remaining counter by it, but it copies with [strncpy]: for the buffered
    body [a NUL b] and a request of 3 bytes, one round advances all counters
    by 3 and leaves [a NUL NUL] in the destination, not the buffered bytes. *)
Theorem copy_stops_at_NUL :
  exists st0 lv st1,
    readHeaders 128 4 (connect [binaryHead ++ binaryBody]) = Ok st0
    /\ take 3 (atPtr st0) = binaryBody
    /\ bufRemaining st0 = 3
    /\ copyLoop 128 2
         {| dstArr := replicate 4 "x"%char; dst := 0; nread := 0; toRead := 3 |}
         (set_chunkRemaining 3 st0) = Ok (lv, st1)
    /\ (dst lv, nread lv, toRead lv, chunkRemaining st1) = (3, 3, 0, 0)
    /\ dstArr lv = ["a"; NUL; NUL; "x"]%char
    /\ take 3 (dstArr lv) <> binaryBody.
Proof.
  eexists. eexists. eexists.
  split; [vm_compute; reflexivity|].
  split; [vm_compute; reflexivity|].
  split; [vm_compute; reflexivity|].
  split; [vm_compute; reflexivity|].
  split; [vm_compute; reflexivity|].
  split; [vm_compute; reflexivity|].
  vm_compute. discriminate.
Qed.

(** The same body through [read]: three bytes reported, the third lost. *)
Remark read_loses_bytes_after_NUL :
  readBody 128 4 [binaryHead ++ binaryBody] 4 3
  = Some (3, ["a"; NUL; NUL; NUL]%char, [EvRead 41]).
Proof. vm_compute. reflexivity. Qed.

(** ** The URL splitter *)

(** Without a colon after the scheme the port is the default of the scheme
    and the host name ends at the first slash. *)
Lemma splitUrl_default_port (url : list ascii) (p : nat) :
  let https := Ascii.eqb (nth 4 url NUL) "s" in
  let hostname := drop (if https then 8 else 7)%nat url in
  strchr hostname ":" = None ->
  strchr hostname "/" = Some p ->
  splitUrl url
  = Ok (https, take p hostname, if https then 443 else 80,
        cstr (drop p hostname)).
Proof.
  intros https hostname Hc Hp. unfold splitUrl.
  fold https. fold hostname. rewrite Hc, Hp. reflexivity.
Qed.

(** C6. The search for the port separator runs over the whole rest of the
    URL: for [http://example.com/a:b], whose only colon after the scheme is
    in the path, the splitter takes [example.com/a] as the host name and 0,
    the number read after that colon, as the port, not [example.com] and
    80. *)
Theorem splitUrl_colon_in_path :
  splitUrl (bytes "http://example.com/a:b")
  = Ok (false, bytes "example.com/a", 0, bytes "/a:b").
Proof. vm_compute. reflexivity. Qed.

(** ** Stores, counters and transport calls *)

Ltac break_if :=
  match goal with
  | |- context [if ?c then _ else _] => destruct c eqn:?
  end.

(** A store that fits changes exactly the bytes it covers. *)
Lemma store_ok arr off data arr' :
  store arr off data = Ok arr' ->
  0 <= off /\ off + Z.of_nat (length data) <= Z.of_nat (length arr)
  /\ length arr' = length arr
  /\ (forall i : nat, off + Z.of_nat (length data) <= Z.of_nat i ->
        arr' !! i = arr !! i)
  /\ (forall j : nat, (j < length data)%nat ->
        arr' !! (Z.to_nat off + j)%nat = data !! j).
Proof.
  unfold store.
  destruct (Z.leb_spec 0 off) as [H0|]; [|discriminate].
  destruct (Z.leb_spec (off + Z.of_nat (length data)) (Z.of_nat (length arr)))
    as [H1|]; [|discriminate].
  simpl. intros [= <-].
  assert (Hlen : length (take (Z.to_nat off) arr) = Z.to_nat off)
    by (rewrite length_take; lia).
  repeat split; try assumption.
  - rewrite !length_app, Hlen, length_drop. lia.
  - intros i Hi.
    rewrite lookup_app_r by (rewrite Hlen; lia).
    rewrite lookup_app_r by (rewrite Hlen; lia).
    rewrite lookup_drop, Hlen. f_equal. lia.
  - intros j Hj.
    rewrite lookup_app_r by (rewrite Hlen; lia).
    rewrite lookup_app_l by (rewrite Hlen; lia).
    f_equal. rewrite Hlen. lia.
Qed.

Lemma store_fits arr off data :
  0 <= off -> off + Z.of_nat (length data) <= Z.of_nat (length arr) ->
  store arr off data
  = Ok (take (Z.to_nat off) arr ++ data ++ drop (Z.to_nat off + length data) arr).
Proof.
  intros H0 H1. unfold store.
  destruct (Z.leb_spec 0 off); [|lia].
  destruct (Z.leb_spec (off + Z.of_nat (length data)) (Z.of_nat (length arr)));
    [reflexivity|lia].
Qed.

(** A store fails only by running past the array. *)
Lemma store_err arr off data e :
  store arr off data = Err e ->
  e = DstOverflow
  /\ ~ (0 <= off /\ off + Z.of_nat (length data) <= Z.of_nat (length arr)).
Proof.
  unfold store.
  destruct (Z.leb_spec 0 off); destruct (Z.leb_spec (off + Z.of_nat (length data))
    (Z.of_nat (length arr))); simpl; try discriminate;
    intros [= <-]; split; try reflexivity; lia.
Qed.

Lemma digit_in_nonneg base c d : digit_in base c = Some d -> 0 <= d.
Proof.
  unfold digit_in, digit_val.
  repeat match goal with
         | |- context [(?a <=? ?b)%nat] => destruct (Nat.leb_spec a b)
         end; simpl; try discriminate;
    match goal with |- context [?x <? base] => destruct (x <? base) end;
    try discriminate; intros [= <-]; lia.
Qed.

Lemma scan_digits_nonneg base s acc n :
  0 <= base -> 0 <= acc -> 0 <= fst (scan_digits base s acc n).
Proof.
  intros Hb. revert acc n. induction s as [|c s IH]; intros acc n Hacc; simpl.
  - exact Hacc.
  - destruct (digit_in base c) as [d|] eqn:Hd; simpl; [|exact Hacc].
    apply IH. pose proof (digit_in_nonneg _ _ _ Hd). nia.
Qed.

Lemma stoul_nonneg s v : stoul s 16 = Some v -> 0 <= v.
Proof.
  unfold stoul, scan_number.
  destruct (match drop (skip_while isspace s) s with
            | [] => _ | _ => _ end) as [neg sg].
  match goal with
  | |- context [scan_digits 16 ?t 0 0] =>
      pose proof (scan_digits_nonneg 16 t 0 0 ltac:(lia) ltac:(lia)) as Hv;
      destruct (scan_digits 16 t 0 0) as [x n]
  end.
  simpl in Hv. destruct n; [discriminate|].
  destruct (ULONG_MAX <? x); [discriminate|].
  intros [= <-]. destruct neg; [apply to_size_nonneg | exact Hv].
Qed.

(** What [skip] leaves alone, and how it can fail. *)
Lemma skip_frame B len dontRead st :
  match skip B len dontRead st with
  | Ok (_, st') =>
      chunkRemaining st' = chunkRemaining st
      /\ contentLength st' = contentLength st
      /\ isChunked st' = isChunked st
      /\ 0 <= bufRemaining st'
  | Err e => e = NullSocket \/ e = NullBuffer
  end.
Proof.
  unfold skip, readRaw, mbind, result_bind.
  destruct st as [sc cl ct loc hs ich igz icp ird ist rc so bf bp br bd cr tr].
  cbn [bufRemaining bufPtr isComplete contentLength bodyRead chunkRemaining
       set_bufRemaining set_bufPtr socket buf].
  set (len' := if br <? len then br else len).
  set (over := if br <? len then to_size (len - br) else 0).
  pose proof (to_size_nonneg (br - len')) as Hr.
  destruct ((to_size (br - len') =? 0) && negb dontRead).
  - destruct (icp || _).
    + cbn. auto.
    + destruct so as [sk|]; [|auto]. destruct bf as [b|]; [|auto].
      destruct (sock_read sk B) as [data sk'].
      cbn. pose proof (to_size_nonneg (Z.of_nat (length data) - over)).
      repeat break_if; cbn; repeat split; try reflexivity; lia.
  - cbn. auto.
Qed.

Lemma skip_counters B len dontRead st ok st' :
  counters_ok st -> skip B len dontRead st = Ok (ok, st') -> counters_ok st'.
Proof.
  intros (Hr & Hc & Hl) Hs. pose proof (skip_frame B len dontRead st) as H.
  rewrite Hs in H. destruct H as (Hc' & Hl' & _ & Hr').
  unfold counters_ok. rewrite Hc', Hl'. repeat split; assumption.
Qed.

Lemma skip_no_overflow B len dontRead st :
  skip B len dontRead st <> Err DstOverflow.
Proof.
  intros Hs. pose proof (skip_frame B len dontRead st) as H.
  rewrite Hs in H. destruct H; discriminate.
Qed.

(** The same for the chunk size line. *)
Lemma chunkSize_frame B st :
  counters_ok st ->
  match chunkSize B st with
  | Ok (_, st') => counters_ok st'
  | Err e => e <> DstOverflow
  end.
Proof.
  intros Hst. unfold chunkSize, mbind, result_bind.
  destruct (Ascii.eqb _ _).
  { destruct Hst as (? & ? & ?). repeat split; assumption. }
  destruct (strchr (atPtr st) CR) as [e|].
  - destruct (strtol (atPtr st) 16) as [v e'].
    match goal with |- context [skip B ?l ?d ?s] =>
      pose proof (skip_frame B l d s) as H; destruct (skip B l d s) as [[ok s']|err]
    end.
    + destruct H as (Hc & Hl & _ & Hr). cbn in Hc, Hl.
      destruct Hst as (? & ? & ?). unfold counters_ok. rewrite Hc, Hl.
      repeat split; try assumption. apply to_size_nonneg.
    + destruct H; subst; discriminate.
  - match goal with |- context [skip B ?l ?d ?s] =>
      pose proof (skip_frame B l d s) as H;
      pose proof (skip_counters B l d s) as Hk;
      destruct (skip B l d s) as [[ok s']|err]
    end; [|destruct H; subst; discriminate].
    specialize (Hk ok s' Hst eq_refl).
    destruct ok; cbn; [|exact Hk].
    destruct (strchr (atPtr s') CR) as [e|]; [|exact Hk].
    destruct (stoul _ 16) as [v|] eqn:Hv; [|discriminate].
    apply stoul_nonneg in Hv.
    match goal with |- context [skip B ?l ?d ?s] =>
      pose proof (skip_frame B l d s) as H2; destruct (skip B l d s) as [[ok2 s2]|err]
    end.
    + destruct H2 as (Hc & Hl & _ & Hr). cbn in Hc, Hl.
      destruct Hk as (? & ? & ?). unfold counters_ok. rewrite Hc, Hl.
      repeat split; assumption.
    + destruct H2; subst; discriminate.
Qed.

Lemma extends_refl st : extends st st.
Proof. exists []. symmetry. apply app_nil_r. Qed.

Lemma extends_trans st1 st2 st3 :
  extends st1 st2 -> extends st2 st3 -> extends st1 st3.
Proof.
  intros [e1 H1] [e2 H2]. exists (e1 ++ e2). rewrite H2, H1. symmetry. apply app_assoc.
Qed.





(** A skip within the buffered bytes only moves the cursor: when bytes are
    left behind it, or when the caller asked not to refill. *)
Lemma skip_buffered B len dontRead st :
  0 <= len <= bufRemaining st -> bufRemaining st < SIZE_MOD ->
  len < bufRemaining st \/ dontRead = true ->
  skip B len dontRead st
  = Ok (true, set_bufPtr (bufPtr st + len)
                (set_bufRemaining (bufRemaining st - len) st)).
Proof.
  intros Hlen Hsz Hstay. unfold skip.
  destruct (Z.ltb_spec (bufRemaining st) len) as [|_]; [lia|].
  rewrite (to_size_small (bufRemaining st - len)) by (unfold is_size; lia).
  cbn [bufRemaining set_bufPtr set_bufRemaining].
  destruct Hstay as [Hlt| ->].
  - destruct (Z.eqb_spec (bufRemaining st - len) 0) as [|_]; [lia|]. reflexivity.
  - rewrite andb_false_r. reflexivity.
Qed.


(** One round of the copy loop and of the main loop. *)
Lemma copyLoop_unfold B fuel lv st :
  copyLoop B (S fuel) lv st
  = if (chunkRemaining st =? 0) || (toRead lv =? 0) then Ok (lv, st)
    else
      let count :=
        Z.min (toRead lv) (Z.min (bufRemaining st) (chunkRemaining st)) in
      match store (dstArr lv) (dst lv)
              (strncpy_bytes (atPtr st) (Z.to_nat count)) with
      | Err e => Err e
      | Ok arr =>
          let lv := {| dstArr := arr; dst := dst lv + count;
                       nread := to_size (nread lv + count);
                       toRead := to_size (toRead lv - count) |} in
          match skip B count false
                  (set_chunkRemaining (to_size (chunkRemaining st - count)) st)
          with
          | Err e => Err e
          | Ok (more, st) =>
              if negb more then Ok (set_toRead 0 lv, st)
              else if isChunked st && (chunkRemaining st =? 0) then
                match skip B 2 (isStreaming st) st with
                | Err e => Err e
                | Ok (more, st) =>
                    copyLoop B fuel (if more then lv else set_toRead 0 lv) st
                end
              else copyLoop B fuel lv st
          end
      end.
Proof.
  cbn [copyLoop]. unfold mbind, result_bind.
  destruct ((chunkRemaining st =? 0) || (toRead lv =? 0)); [reflexivity|].
  cbv zeta. destruct (store _ _ _); [|reflexivity].
  destruct (skip B _ false _) as [[more st1]|]; [|reflexivity].
  destruct (negb more); [reflexivity|].
  destruct (isChunked st1 && _); [|reflexivity].
  destruct (skip B 2 _ st1) as [[more2 st2]|]; reflexivity.
Qed.

Lemma readLoop_unfold B fuel lv st :
  readLoop B (S fuel) lv st
  = if toRead lv =? 0 then Ok (lv, st)
    else
      match skip B 0 false st with
      | Err e => Err e
      | Ok (_, st) =>
          match (if isChunked st && (chunkRemaining st =? 0) then chunkSize B st
                 else if negb (contentLength st =? 0) && (chunkRemaining st =? 0)
                 then Ok (true, set_chunkRemaining (contentLength st) st)
                 else Ok (true, st)) with
          | Err e => Err e
          | Ok (go, st) =>
              if negb go then Ok (lv, st)
              else
                match copyLoop B fuel lv st with
                | Err e => Err e
                | Ok (lv, st) =>
                    if isStreaming st && (bufRemaining st =? 0) then Ok (lv, st)
                    else readLoop B fuel lv st
                end
          end
      end.
Proof.
  cbn [readLoop]. unfold mbind, result_bind.
  destruct (toRead lv =? 0); [reflexivity|].
  destruct (skip B 0 false st) as [[more st1]|]; [|reflexivity].
  destruct (if isChunked st1 && _ then _ else _) as [[go st2]|]; [|reflexivity].
  destruct (negb go); [reflexivity|].
  destruct (copyLoop B fuel lv st2) as [[lv' st3]|]; reflexivity.
Qed.

(** ** The buffer bound *)

(** A fill never exceeds the size asked for. *)
Lemma sock_read_length sk B : 0 <= B -> Z.of_nat (length (fst (sock_read sk B))) <= B.
Proof.
  intros HB. unfold sock_read. destruct (rx sk) as [|burst rest]; simpl; [lia|].
  rewrite length_take. lia.
Qed.

(** X1. Where the bound does hold: a skip keeps cursor plus unconsumed count
    within the capacity, and both non-negative, whenever the bytes it
    carries over to the next fill are within that fill. *)
Lemma skip_keeps_buffer_bound B len dontRead st ok st' :
  0 <= B < SIZE_MOD -> 0 <= len ->
  0 <= bufPtr st -> 0 <= bufRemaining st ->
  (forall sk, socket st = Some sk ->
     len - bufRemaining st <= Z.of_nat (length (fst (sock_read sk B)))) ->
  bufferBound B st ->
  skip B len dontRead st = Ok (ok, st') ->
  bufferBound B st' /\ 0 <= bufPtr st' /\ 0 <= bufRemaining st'.
Proof.
  unfold bufferBound, skip, readRaw, SIZE_MOD, size_bits, mbind, result_bind.
  intros HB Hlen Hp Hr Hcarry Hb.
  destruct st as [sc cl ct loc hs ich igz icp ird ist rc so bf bp br bd cr tr].
  simpl in *.
  destruct (Z.ltb_spec br len) as [Hover|Hin].
  - (* the skip runs past the buffered bytes *)
    rewrite Z.sub_diag. change (to_size 0) with 0. simpl.
    destruct dontRead; simpl.
    + intros [= <- <-]. simpl. lia.
    + destruct (icp || _); simpl.
      * intros [= <- <-]. simpl. lia.
      * destruct so as [sk|]; [|discriminate].
        destruct bf as [b|]; [|discriminate].
        specialize (Hcarry sk eq_refl).
        pose proof (sock_read_length sk B ltac:(lia)) as Hn.
        destruct (sock_read sk B) as [data sk']. simpl in *.
        destruct (Z.eqb_spec (Z.of_nat (length data)) 0) as [Hz|Hnz].
        -- intros [= <- <-]. simpl. lia.
        -- assert (Hs : to_size (len - br) = len - br)
             by (apply Z.mod_small; unfold SIZE_MOD, size_bits; lia).
           assert (Hs' : to_size (Z.of_nat (length data) - (len - br))
                         = Z.of_nat (length data) - (len - br))
             by (apply Z.mod_small; unfold SIZE_MOD, size_bits; lia).
           rewrite Hs, Hs'.
           destruct (_ && _); intros [= <- <-]; simpl; lia.
  - (* the skip stays within the buffered bytes *)
    assert (Hs : to_size (br - len) = br - len)
      by (apply Z.mod_small; unfold SIZE_MOD, size_bits; lia).
    rewrite Hs.
    destruct ((br - len =? 0) && negb dontRead) eqn:Hrefill; simpl.
    + apply andb_prop in Hrefill as [Hz _]. apply Z.eqb_eq in Hz.
      destruct (icp || _); simpl.
      * intros [= <- <-]. simpl. lia.
      * destruct so as [sk|]; [|discriminate].
        destruct bf as [b|]; [|discriminate].
        pose proof (sock_read_length sk B ltac:(lia)) as Hn.
        destruct (sock_read sk B) as [data sk']. simpl in *.
        destruct (Z.eqb_spec (Z.of_nat (length data)) 0) as [Hz'|Hnz].
        -- intros [= <- <-]. simpl. lia.
        -- rewrite Z.sub_0_r.
           assert (Hs' : to_size (Z.of_nat (length data))
                         = Z.of_nat (length data))
             by (apply Z.mod_small; unfold SIZE_MOD, size_bits; lia).
           rewrite Hs'.
           destruct (_ && _); intros [= <- <-]; simpl; lia.
    + intros [= <- <-]. simpl. lia.
Qed.

Lemma skip_keeps_buffer_bound_witness :
  exists st',
    skip 128 5 false (streamingState (bytes "abc") 0 [bytes "defgh"])
      = Ok (true, st')
    /\ (bufPtr st', bufRemaining st') = (2, 3)
    /\ bufferBound 128 st'.
Proof.
  eexists. split; [vm_compute; reflexivity|]. split; [reflexivity|].
  eapply (skip_keeps_buffer_bound 128 5 false
            (streamingState (bytes "abc") 0 [bytes "defgh"])).
  - unfold SIZE_MOD, size_bits. lia.
  - lia.
  - cbn. lia.
  - cbn. lia.
  - intros sk [= <-]. vm_compute. discriminate.
  - unfold bufferBound. cbn. lia.
  - vm_compute. reflexivity.
Defined.

(** C8. A skip past the buffered bytes carries the excess over to the next
    fill without comparing it with the size of that fill.  For a chunked
    body that starts [CRLF A] and continues with a fill of one byte, [read]
    parses the size line with [strtol], which skips the CRLF as white space,
    skips five bytes where three are buffered, and leaves the cursor at 2
    behind a fill of one byte with a wrapped-around count; at the end of the
    call cursor plus count is far beyond the capacity.  The same happens on
    a direct [skip(10)] over 8 buffered bytes followed by a one-byte fill. *)
Theorem skip_breaks_buffer_bound :
  (exists st0 st1 arr,
     readHeaders 128 4 (connect [chunkedHead ++ CRLF ++ bytes "A"; bytes "x"])
       = Ok st0
     /\ bufPtr st0 + bufRemaining st0 = 50
     /\ read 128 8 (replicate 101 "x"%char) 100 st0 = Ok (100, arr, st1)
     /\ bufPtr st1 = 116 /\ bufRemaining st1 = 4294967181
     /\ ~ bufferBound 128 st1)
  /\ (exists st0 st1,
        readHeaders 128 4 (connect [chunkedHead ++ bytes "12345678"; bytes "x"])
          = Ok st0
        /\ bufPtr st0 + bufRemaining st0 = 55
        /\ skip 128 10 false st0 = Ok (true, st1)
        /\ bufPtr st1 = 2 /\ bufRemaining st1 = 4294967295
        /\ ~ bufferBound 128 st1).
Proof.
  split.
  - eexists. eexists. eexists.
    split; [vm_compute; reflexivity|].
    split; [vm_compute; reflexivity|].
    split; [vm_compute; reflexivity|].
    split; [vm_compute; reflexivity|].
    split; [vm_compute; reflexivity|].
    unfold bufferBound. vm_compute. intros H. apply H. reflexivity.
  - eexists. eexists.
    split; [vm_compute; reflexivity|].
    split; [vm_compute; reflexivity|].
    split; [vm_compute; reflexivity|].
    split; [vm_compute; reflexivity|].
    split; [vm_compute; reflexivity|].
    unfold bufferBound. vm_compute. intros H. apply H. reflexivity.
Qed.

(** ** Write failure *)

(** C9. When the transport accepts another count than the length of the
    serialized request, [executeImpl] closes the transport and leaves a null
    response: the only transport calls of the leg are the open, the write
    and the close, so no header is parsed and no body read. *)
Theorem write_failure_is_fatal (B : Z) (net : bool -> list ascii -> Z -> Socket)
    (fuel : nat) (req : HTTPRequest) (url : list ascii) (response : Response)
    (https : bool) (host : list ascii) (port : Z) (path : list ascii) :
  let data := serialize req path host port in
  let len := wr (net https host port) (Z.of_nat (length data)) in
  splitUrl url = Ok (https, host, port, path) ->
  len <> Z.of_nat (length data) ->
  executeImpl B net (S fuel) req url response
  = Ok (None, trace response
              ++ [EvOpen https host port; EvWrite data len; EvClose]).
Proof.
  intros data len Hurl Hlen. simpl. unfold mbind, result_bind.
  rewrite Hurl. fold data. fold len.
  destruct (Z.eqb_spec len (Z.of_nat (length data))) as [Heq|_];
    [contradiction|].
  simpl. unfold close, add_event. simpl.
  rewrite <- !app_assoc. reflexivity.
Qed.

Lemma write_failure_is_fatal_witness :
  let net := fun (_ : bool) (_ : list ascii) (_ : Z) =>
               {| rx := []; wr := fun n => n - 1 |} in
  let req := {| method := GET; url := bytes "http://example.com/";
                body := []; reqContentType := []; reqHeaders := [];
                maxRedirects := 0 |} in
  execute 128 net 1 req
  = Ok (None,
        [EvOpen false (bytes "example.com") 80;
         EvWrite (serialize req (bytes "/") (bytes "example.com") 80) 52;
         EvClose]).
Proof.
  intros net req.
  exact (write_failure_is_fatal 128 net 0 req (url req) newResponse
           false (bytes "example.com") 80 (bytes "/")
           eq_refl ltac:(vm_compute; discriminate)).
Defined.

(** ** Header parsing *)

(** One round of the outer loop of [readHeaders]. *)
Lemma fillLoop_step B fuel lineBuf st :
  fillLoop B (S fuel) lineBuf st
  = match readRaw B st with
    | Ok (len, st1) =>
        match scanLines B (S (Z.to_nat len)) len O lineBuf st1 with
        | Ok (complete, lineBuf', st2) =>
            if complete then Ok st2 else fillLoop B fuel lineBuf' st2
        | Err e => Err e
        end
    | Err e => Err e
    end.
Proof.
  simpl. unfold mbind, result_bind.
  destruct (readRaw B st) as [[len st1]|e]; [|reflexivity].
  destruct (scanLines B (S (Z.to_nat len)) len O lineBuf st1)
    as [[[complete lineBuf'] st2]|e]; reflexivity.
Qed.

(** Rounds that do not reach the blank line only use up fuel. *)
Lemma fillLoop_afterFills B rounds fuel lineBuf st lineBuf' st' :
  afterFills B rounds lineBuf st = Ok (lineBuf', st') ->
  fillLoop B (rounds + fuel) lineBuf st = fillLoop B fuel lineBuf' st'.
Proof.
  revert lineBuf st. induction rounds as [|rounds IH]; intros lineBuf st.
  - simpl. intros [= <- <-]. reflexivity.
  - cbn [afterFills Nat.add]. rewrite fillLoop_step. unfold mbind, result_bind.
    destruct (readRaw B st) as [[len st1]|e]; [|discriminate].
    destruct (scanLines B (S (Z.to_nat len)) len O lineBuf st1)
      as [[[complete lb] st2]|e]; [|discriminate].
    destruct complete; [discriminate|]. apply IH.
Qed.

(** Once the transport has nothing more to deliver the loop never ends:
    every further [read] returns 0 and leaves the line buffer as it is. *)
Lemma fillLoop_starved B fuel lineBuf st sk c b :
  socket st = Some sk -> rx sk = [] -> buf st = Some (c :: b) ->
  fillLoop B fuel lineBuf st = Err OutOfFuel.
Proof.
  revert lineBuf st c. induction fuel as [|fuel IH]; intros lineBuf st c Hsk Hrx Hbuf.
  - reflexivity.
  - rewrite fillLoop_step. unfold readRaw, sock_read. rewrite Hsk, Hbuf, Hrx.
    cbn [length Z.of_nat Z.to_nat].
    cbn [scanLines].
    unfold bufData. cbn [buf set_buf default]. 
    change (strstr (drop 0 (<[0%nat:=NUL]> ([] ++ drop 0 (c :: b)))) CRLF) with (@None nat).
    cbv iota beta.
    eapply IH; [ | exact Hrx | ]; cbn; reflexivity.
Qed.


Lemma eqb_neq_false (a b : ascii) : a <> b -> Ascii.eqb a b = false.
Proof. intros H. apply Ascii.eqb_neq. exact H. Qed.

(** [strstr] finds the CRLF that ends a plain line, and none where there
    is no CR before the terminator. *)
Lemma strstr_cons x s needle :
  strstr (x :: s) needle
  = if is_prefix needle (x :: s) then Some O
    else if Ascii.eqb x NUL then None else S <$> strstr s needle.
Proof. reflexivity. Qed.

Lemma strstr_line m rest :
  CR ∉ m -> NUL ∉ m -> strstr (m ++ CR :: LF :: rest) CRLF = Some (length m).
Proof.
  induction m as [|c m IH]; intros Hcr Hnul.
  - reflexivity.
  - apply not_elem_of_cons in Hcr as [Hc Hcr].
    apply not_elem_of_cons in Hnul as [Hn Hnul].
    cbn [app]. rewrite strstr_cons. unfold CRLF at 1. cbn [is_prefix].
    rewrite (eqb_neq_false CR c) by exact Hc.
    rewrite (eqb_neq_false c NUL) by (intros ->; apply Hn; reflexivity).
    cbn [andb]. rewrite IH by assumption. reflexivity.
Qed.

Lemma strstr_none q tail :
  CR ∉ q -> ended tail -> strstr (q ++ tail) CRLF = None.
Proof.
  intros Hcr Hend. induction q as [|c q IH].
  - destruct Hend as [->|[t ->]]; reflexivity.
  - apply not_elem_of_cons in Hcr as [Hc Hcr].
    cbn [app]. rewrite strstr_cons. unfold CRLF at 1. cbn [is_prefix].
    rewrite (eqb_neq_false CR c) by exact Hc. cbn [andb].
    destruct (Ascii.eqb c NUL); [reflexivity|].
    rewrite IH by assumption. reflexivity.
Qed.

(** A prefix without [c] of a list whose first [c] is behind [l] lies
    within [l]. *)
Lemma app_split_at (c : ascii) p chunk l rest :
  c ∉ p -> c ∉ l -> p ++ chunk = l ++ c :: rest ->
  exists m, l = p ++ m /\ chunk = m ++ c :: rest.
Proof.
  revert l. induction p as [|x p IH]; intros l Hp Hl Heq.
  - exists l. split; [reflexivity|exact Heq].
  - apply not_elem_of_cons in Hp as [Hx Hp].
    destruct l as [|y l].
    + cbn in Heq. injection Heq as -> _. contradiction Hx. reflexivity.
    + apply not_elem_of_cons in Hl as [Hy Hl].
      cbn in Heq. injection Heq as -> Heq.
      destruct (IH l Hp Hl Heq) as (m & -> & ->).
      exists m. split; reflexivity.
Qed.

Ltac break_header :=
  repeat match goal with
         | |- context [if ?c then _ else _] => destruct c
         | |- context [match ?o with Some _ => _ | None => _ end] => destruct o
         end.

(** A header line touches neither buffer nor transport, sets its fields
    from the line alone, and marks the response complete exactly on a line
    that declares no body. *)
Lemma headerLine_frame l st :
  buf (headerLine l st) = buf st /\ socket (headerLine l st) = socket st
  /\ trace (headerLine l st) = trace st.
Proof. unfold headerLine. break_header; cbn; auto. Qed.

Lemma headerLine_fields l st1 st2 :
  parsedFields st1 = parsedFields st2 ->
  parsedFields (headerLine l st1) = parsedFields (headerLine l st2).
Proof.
  unfold parsedFields. intros [= H1 H2 H3 H4 H5 H6 H7 H8].
  unfold headerLine.
  destruct (strncmp_eq l _ 5); [cbn; congruence|].
  destruct (readHeader l (bytes "content-type:")); [cbn; congruence|].
  destruct (readHeader l (bytes "content-length:")).
  { cbn [contentLength set_contentLength].
    destruct (_ =? 0); cbn; congruence. }
  destruct (readHeader l (bytes "transfer-encoding:")); [cbn; congruence|].
  destruct (readHeader l (bytes "location:")); [cbn; congruence|].
  destruct (strchr l ":"); cbn; congruence.
Qed.

Lemma headerLine_isComplete l st :
  isComplete (headerLine l st) = isComplete st || declaresNoBody l.
Proof.
  unfold headerLine, declaresNoBody.
  destruct (strncmp_eq l _ 5); [cbn; rewrite orb_false_r; reflexivity|].
  destruct (readHeader l (bytes "content-type:"));
    [cbn; rewrite orb_false_r; reflexivity|].
  destruct (readHeader l (bytes "content-length:")).
  { cbn [contentLength set_contentLength negb andb].
    destruct (_ =? 0); cbn; [rewrite orb_true_r|rewrite orb_false_r]; reflexivity. }
  destruct (readHeader l (bytes "transfer-encoding:"));
    [cbn; rewrite orb_false_r; reflexivity|].
  destruct (readHeader l (bytes "location:"));
    [cbn; rewrite orb_false_r; reflexivity|].
  destruct (strchr l ":"); cbn; rewrite orb_false_r; reflexivity.
Qed.

Lemma parseLines_frame ls st :
  buf (parseLines ls st) = buf st /\ socket (parseLines ls st) = socket st
  /\ trace (parseLines ls st) = trace st.
Proof.
  revert st. induction ls as [|l ls IH]; intros st; [cbn; auto|].
  change (parseLines (l :: ls) st) with (parseLines ls (headerLine l st)).
  destruct (IH (headerLine l st)) as (-> & -> & ->). apply headerLine_frame.
Qed.

Lemma parseLines_fields ls st1 st2 :
  parsedFields st1 = parsedFields st2 ->
  parsedFields (parseLines ls st1) = parsedFields (parseLines ls st2).
Proof.
  revert st1 st2. induction ls as [|l ls IH]; intros st1 st2 H; [exact H|].
  change (parsedFields (parseLines ls (headerLine l st1))
          = parsedFields (parseLines ls (headerLine l st2))).
  apply IH, headerLine_fields, H.
Qed.

Lemma parseLines_isComplete ls st :
  isComplete (parseLines ls st) = isComplete st || existsb declaresNoBody ls.
Proof.
  revert st. induction ls as [|l ls IH]; intros st.
  - cbn. rewrite orb_false_r. reflexivity.
  - change (parseLines (l :: ls) st) with (parseLines ls (headerLine l st)).
    rewrite IH, headerLine_isComplete. cbn [existsb].
    rewrite orb_assoc. reflexivity.
Qed.

Lemma parseLines_app ls1 ls2 st :
  parseLines (ls1 ++ ls2) st = parseLines ls2 (parseLines ls1 st).
Proof. unfold parseLines. apply foldl_app. Qed.

Lemma wireLines_cons l ls :
  wireLines (l :: ls) = l ++ CR :: LF :: wireLines ls.
Proof. unfold wireLines. cbn. rewrite <- app_assoc. reflexivity. Qed.

Lemma bufData_headerLine l st : bufData (headerLine l st) = bufData st.
Proof. unfold bufData. destruct (headerLine_frame l st) as (-> & _). reflexivity. Qed.

(** One round of the inner loop of [readHeaders]. *)
Lemma scanLines_unfold B fuel len line lineBuf st :
  scanLines B (S fuel) len line lineBuf st
  = match strstr (drop line (bufData st)) CRLF with
    | None =>
        Ok (false,
            lineBuf ++ take (Z.to_nat len - line) (drop line (bufData st)), st)
    | Some off =>
        match lineBuf ++ take off (drop line (bufData st)) with
        | [] =>
            match headersDone B len (Z.of_nat (line + off)) st with
            | Ok st' => Ok (true, [], st')
            | Err e => Err e
            end
        | _ :: _ =>
            scanLines B fuel len (line + off + 2) []
              (headerLine (lineBuf ++ take off (drop line (bufData st))) st)
        end
    end.
Proof. reflexivity. Qed.

(** The inner loop on a fill that continues the line in [lineBuf] with
    whole lines: it parses the lines, and then keeps the partial line [q]
    or, at the blank line, ends the header block. *)
Lemma scanLines_lines B len ls :
  forall fuel line p st chunk tail q,
    Forall plain ls -> CR ∉ p ->
    drop line (bufData st) = chunk ++ tail -> ended tail ->
    len = Z.of_nat (line + length chunk) ->
    p ++ chunk = wireLines ls ++ q ->
    (length ls < fuel)%nat ->
    (CR ∉ q ->
     scanLines B fuel len line p st = Ok (false, q, parseLines ls st))
    /\ (forall body, q = CR :: LF :: body ->
        scanLines B fuel len line p st
        = match headersDone B len
                  (Z.of_nat (line + length chunk - length q))
                  (parseLines ls st) with
          | Ok st' => Ok (true, [], st')
          | Err e => Err e
          end).
Proof.
  induction ls as [|l ls IH];
    intros fuel line p st chunk tail q Hls Hp Hdrop Hend Hlen Heq Hfuel;
    (destruct fuel as [|fuel]; [cbn in Hfuel; lia|]);
    rewrite scanLines_unfold, Hdrop.
  - cbn in Heq. split.
    + intros Hq. rewrite <- Heq in Hq. apply not_elem_of_app in Hq as [_ Hc].
      rewrite strstr_none by assumption.
      replace (Z.to_nat len - line)%nat with (length chunk) by lia.
      rewrite take_app_length, Heq. reflexivity.
    + intros body ->. destruct p as [|x p].
      * cbn in Heq. subst chunk.
        change ((CR :: LF :: body) ++ tail) with ([] ++ CR :: LF :: body ++ tail).
        rewrite strstr_line by apply not_elem_of_nil.
        cbn [length app take].
        replace (line + S (S (length body)) - S (S (length body)))%nat
          with (line + 0)%nat by lia.
        reflexivity.
      * cbn in Heq. injection Heq as -> _.
        contradiction Hp. apply list_elem_of_here.
  - apply Forall_cons in Hls as [(Hne & Hlcr & Hlnul) Hls].
    rewrite wireLines_cons, <- app_assoc in Heq. cbn [app] in Heq.
    destruct (app_split_at CR p chunk l _ Hp Hlcr Heq) as (m & -> & ->).
    apply not_elem_of_app in Hlcr as [_ Hmcr].
    apply not_elem_of_app in Hlnul as [_ Hmnul].
    rewrite <- app_assoc. cbn [app].
    rewrite strstr_line by assumption.
    rewrite take_app_length.
    destruct (p ++ m) as [|c lb] eqn:Hl; [contradiction Hne; reflexivity|].
    rewrite <- Hl.
    assert (Hdrop' : drop (line + length m + 2) (bufData (headerLine (p ++ m) st))
                     = (wireLines ls ++ q) ++ tail).
    { rewrite bufData_headerLine, <- Nat.add_assoc, <- drop_drop, Hdrop.
      rewrite <- app_assoc, <- drop_drop, drop_app_length. reflexivity. }
    rewrite !length_app in Hlen. cbn [length] in Hlen.
    destruct (IH fuel (line + length m + 2)%nat [] (headerLine (p ++ m) st)
                (wireLines ls ++ q) tail q Hls (not_elem_of_nil _) Hdrop' Hend
                ltac:(lia) eq_refl ltac:(cbn in Hfuel; lia))
      as [HA HB].
    split.
    + intros Hq. rewrite (HA Hq). reflexivity.
    + intros body Hb. rewrite (HB body Hb).
      replace (line + length m + 2 + length (wireLines ls ++ q) - length q)%nat
        with (line + length (m ++ CR :: LF :: wireLines ls ++ q) - length q)%nat
        by (rewrite !length_app; cbn [length]; rewrite !length_app; lia).
      reflexivity.
Qed.

Lemma wire_cons l ls : wire (l :: ls) = l ++ CR :: LF :: wire ls.
Proof. unfold wire. rewrite wireLines_cons, <- app_assoc. reflexivity. Qed.

(** The first [c] of a list is where it is. *)
Lemma first_occurrence (c : ascii) l1 r1 l2 r2 :
  c ∉ l1 -> c ∉ l2 -> l1 ++ c :: r1 = l2 ++ c :: r2 -> l1 = l2 /\ r1 = r2.
Proof.
  intros H1 H2 Heq.
  destruct (app_split_at c l1 (c :: r1) l2 r2 H1 H2 Heq) as (k & -> & Hk).
  destruct k as [|x k].
  - cbn in Hk. injection Hk as ->. rewrite app_nil_r. auto.
  - cbn in Hk. injection Hk as <- _.
    contradiction H2. apply elem_of_app. right. apply list_elem_of_here.
Qed.

(** Where a fill that does not end in CR leaves the header block: in the
    middle of a line, or behind the blank line. *)
Lemma split_fill ls :
  forall p f rest body,
    Forall plain ls -> CR ∉ p -> whole f ->
    p ++ f ++ rest = wire ls ++ body ->
    (exists ls1 ls2 q,
        ls = ls1 ++ ls2 /\ p ++ f = wireLines ls1 ++ q /\ (CR ∉ q)
        /\ q ++ rest = wire ls2 ++ body)
    \/ (exists body1, p ++ f = wireLines ls ++ CR :: LF :: body1).
Proof.
  induction ls as [|l ls IH]; intros p f rest body Hls Hp Hf Heq.
  - change (wire [] ++ body) with (CR :: LF :: body) in Heq.
    destruct p as [|x p];
      [|injection Heq as -> _; contradiction Hp; apply list_elem_of_here].
    cbn [app] in Heq |- *.
    destruct f as [|x [|y f]].
    + left. exists [], [], []. repeat split; [apply not_elem_of_nil|exact Heq].
    + injection Heq as -> _. contradiction Hf. reflexivity.
    + injection Heq as -> -> _. right. exists f. reflexivity.
  - pose proof Hls as Hls0.
    apply Forall_cons in Hls as [(Hne & Hlcr & Hlnul) Hls].
    rewrite wire_cons, <- app_assoc in Heq. cbn [app] in Heq.
    destruct (app_split_at CR p (f ++ rest) l _ Hp Hlcr Heq) as (m & -> & Hm).
    apply not_elem_of_app in Hlcr as [_ Hmcr].
    destruct (decide (CR ∈ f)) as [Hin|Hout].
    + apply list_elem_of_split_l in Hin as (f1 & f2 & -> & Hf1).
      rewrite <- app_assoc in Hm. cbn [app] in Hm.
      apply first_occurrence in Hm as [-> Hm]; [|assumption..].
      destruct f2 as [|y f2].
      * contradiction Hf. apply last_snoc.
      * cbn [app] in Hm. injection Hm as -> Hm.
        assert (Hf2 : whole f2).
        { unfold whole in *. intros Hl. apply Hf.
          change (CR :: LF :: f2) with ([CR; LF] ++ f2).
          rewrite last_app, (last_app [CR; LF] f2), Hl. reflexivity. }
        destruct (IH [] f2 rest body Hls (not_elem_of_nil _) Hf2 Hm)
          as [(ls1 & ls2 & q & -> & Hq & Hqcr & Hrest)|[body1 Hb]].
        -- left. exists ((p ++ m) :: ls1), ls2, q.
           repeat split; try assumption.
           rewrite wireLines_cons. cbn [app] in Hq.
           rewrite <- !app_assoc. cbn [app]. rewrite Hq. reflexivity.
        -- right. exists body1. rewrite wireLines_cons. cbn [app] in Hb.
           rewrite <- !app_assoc. cbn [app]. rewrite Hb. reflexivity.
    + left. exists [], ((p ++ m) :: ls), (p ++ f).
      destruct (app_split_at CR f rest m _ Hout Hmcr Hm) as (k & -> & ->).
      repeat split.
      * apply not_elem_of_app. split; assumption.
      * rewrite wire_cons, <- !app_assoc. reflexivity.
Qed.

Lemma lines_within ls :
  forall p f q,
    Forall plain ls -> CR ∉ p -> p ++ f = wireLines ls ++ q ->
    (length ls <= length f)%nat.
Proof.
  induction ls as [|l ls IH]; intros p f q Hls Hp Heq; [cbn; lia|].
  apply Forall_cons in Hls as [(_ & Hlcr & _) Hls].
  rewrite wireLines_cons, <- app_assoc in Heq. cbn [app] in Heq.
  destruct (app_split_at CR p f l _ Hp Hlcr Heq) as (m & -> & ->).
  pose proof (IH [] (wireLines ls ++ q) q Hls (not_elem_of_nil _) eq_refl).
  rewrite length_app. cbn [length]. lia.
Qed.

(** A fill within the capacity is read in one piece. *)
Lemma readRaw_fill B st sk f rest b :
  socket st = Some sk -> rx sk = f :: rest -> Z.of_nat (length f) <= B ->
  buf st = Some b ->
  exists st1 tail,
    readRaw B st = Ok (Z.of_nat (length f), st1)
    /\ bufData st1 = f ++ tail /\ ended tail
    /\ socket st1 = Some {| rx := rest; wr := wr sk |}
    /\ is_Some (buf st1)
    /\ parsedFields st1 = parsedFields st.
Proof.
  intros Hsk Hrx Hlen Hbuf. unfold readRaw, sock_read. rewrite Hsk, Hbuf, Hrx.
  cbv zeta. rewrite (take_ge f), (drop_ge f) by lia.
  eexists. exists (<[0%nat := NUL]> (drop (length f) b)).
  split; [reflexivity|]. cbn. repeat split.
  - rewrite insert_app_r_alt by lia. rewrite Nat.sub_diag. reflexivity.
  - destruct (drop (length f) b) as [|x t]; [left; reflexivity|].
    right. exists t. reflexivity.
  - eauto.
Qed.

Lemma headersDone_ok B len lineEnd st :
  is_Some (socket st) ->
  exists st', headersDone B len lineEnd st = Ok st'
              /\ parsedFields st' = parsedFields st.
Proof.
  intros [sk Hsk]. unfold headersDone.
  destruct (_ <? len); [|eauto].
  cbn [isComplete contentLength set_bodyRead set_bufRemaining set_bufPtr socket].
  destruct (negb _ && _); [|eauto].
  destruct (len <? B); [eauto|].
  rewrite Hsk. eauto.
Qed.

Lemma wire_has_CR ls body : CR ∈ wire ls ++ body.
Proof.
  unfold wire. rewrite <- app_assoc. apply elem_of_app. right.
  apply list_elem_of_here.
Qed.

(** The outer loop over fills that deliver a header block: as many rounds
    as fills are enough, and the fields are those of the lines parsed in
    order. *)
Lemma fillLoop_fills B fills :
  forall ls p st sk b post body,
    Forall plain ls -> CR ∉ p ->
    Forall (fun f => Z.of_nat (length f) <= B /\ whole f) fills ->
    p ++ concat fills = wire ls ++ body ->
    socket st = Some sk -> rx sk = fills ++ post -> buf st = Some b ->
    exists st',
      (forall fuel, (length fills <= fuel)%nat -> fillLoop B fuel p st = Ok st')
      /\ parsedFields st' = parsedFields (parseLines ls st).
Proof.
  induction fills as [|f fs IH];
    intros ls p st sk b post body Hls Hp Hfs Heq Hsk Hrx Hbuf.
  - cbn in Heq. rewrite app_nil_r in Heq. contradiction Hp.
    rewrite Heq. apply wire_has_CR.
  - apply Forall_cons in Hfs as [[Hlen Hf] Hfs]. cbn [concat] in Heq.
    destruct (readRaw_fill B st sk f (fs ++ post) b Hsk Hrx Hlen Hbuf)
      as (st1 & tail & Hraw & Hdata & Hend & Hsk1 & [b1 Hbuf1] & Hfields1).
    destruct (split_fill ls p f (concat fs) body Hls Hp Hf Heq)
      as [(ls1 & ls2 & q & -> & Hq & Hqcr & Hrest)|[body1 Hb]].
    + apply Forall_app in Hls as [Hls1 Hls2].
      pose proof (lines_within ls1 p f q Hls1 Hp Hq) as Hfuel.
      destruct (scanLines_lines B (Z.of_nat (length f)) ls1
                  (S (Z.to_nat (Z.of_nat (length f)))) O p st1 f tail q
                  Hls1 Hp Hdata Hend eq_refl Hq ltac:(lia)) as [Hscan _].
      specialize (Hscan Hqcr).
      destruct (parseLines_frame ls1 st1) as (Hb2 & Hs2 & _).
      destruct (IH ls2 q (parseLines ls1 st1) _ b1 post body Hls2 Hqcr Hfs Hrest
                  ltac:(rewrite Hs2; exact Hsk1) eq_refl
                  ltac:(rewrite Hb2; exact Hbuf1)) as (st' & Hloop & Hfields).
      exists st'. split.
      * intros [|fuel] Hle; [cbn in Hle; lia|].
        rewrite fillLoop_step, Hraw, Hscan. apply Hloop. cbn in Hle. lia.
      * rewrite Hfields, parseLines_app.
        apply parseLines_fields, parseLines_fields, Hfields1.
    + pose proof (lines_within ls p f _ Hls Hp Hb) as Hfuel.
      destruct (scanLines_lines B (Z.of_nat (length f)) ls
                  (S (Z.to_nat (Z.of_nat (length f)))) O p st1 f tail _
                  Hls Hp Hdata Hend eq_refl Hb ltac:(lia)) as [_ Hscan].
      specialize (Hscan body1 eq_refl).
      destruct (parseLines_frame ls st1) as (_ & Hs2 & _).
      destruct (headersDone_ok B (Z.of_nat (length f))
                  (Z.of_nat (0 + length f - length (CR :: LF :: body1)))
                  (parseLines ls st1) ltac:(rewrite Hs2, Hsk1; eauto))
        as (st' & Hdone & Hfields).
      rewrite Hdone in Hscan.
      exists st'. split.
      * intros [|fuel] Hle; [cbn in Hle; lia|].
        rewrite fillLoop_step, Hraw, Hscan. reflexivity.
      * rewrite Hfields. apply parseLines_fields, Hfields1.
Qed.

(** Header parsing of a delivered header block returns, with the fields of
    its lines parsed in order. *)
Lemma readHeaders_lines B st sk lines body fills post :
  delivery B lines body fills ->
  socket st = Some sk -> rx sk = fills ++ post ->
  exists st',
    (forall fuel, (length fills <= fuel)%nat -> readHeaders B fuel st = Ok st')
    /\ parsedFields st' = parsedFields (parseLines lines (cleared st)).
Proof.
  intros (Hlines & Hfills & Hcat) Hsk Hrx. unfold readHeaders.
  set (st0 := match buf st with
              | Some _ => st
              | None => set_bufPtr 0 (set_buf (Some _) st)
              end).
  assert (H0 : socket st0 = Some sk /\ is_Some (buf st0)
               /\ parsedFields (cleared st0) = parsedFields (cleared st)).
  { unfold st0. destruct (buf st) eqn:Hb; cbn; rewrite ?Hb; eauto. }
  destruct H0 as (Hsk0 & [b Hb0] & Hf0).
  destruct (fillLoop_fills B fills lines [] (cleared st0) sk b post body
              Hlines (not_elem_of_nil _) Hfills Hcat Hsk0 Hrx Hb0)
    as (st' & Hloop & Hfields).
  exists st'. split; [exact Hloop|].
  rewrite Hfields. apply parseLines_fields, Hf0.
Qed.

(** X2. Two deliveries of one header block are parsed alike, wherever their
    fills are cut, as long as no cut separates a CR from its LF: header
    parsing returns on both, with the same status code, content length,
    content type, location, chunked flag and headers. *)
Lemma readHeaders_cut_invariant B lines body fills1 fills2 :
  delivery B lines body fills1 -> delivery B lines body fills2 ->
  exists m,
    (forall fuel, (length fills1 <= fuel)%nat -> parsed B fuel fills1 = Some m)
    /\ (forall fuel, (length fills2 <= fuel)%nat -> parsed B fuel fills2 = Some m).
Proof.
  intros H1 H2.
  destruct (readHeaders_lines B (connect fills1) _ lines body fills1 []
              H1 eq_refl ltac:(cbn; rewrite app_nil_r; reflexivity))
    as (st1 & Hrun1 & Hf1).
  destruct (readHeaders_lines B (connect fills2) _ lines body fills2 []
              H2 eq_refl ltac:(cbn; rewrite app_nil_r; reflexivity))
    as (st2 & Hrun2 & Hf2).
  assert (Hm : metadata st1 = metadata st2).
  { assert (Hf : parsedFields st1 = parsedFields st2).
    { rewrite Hf1, Hf2. apply parseLines_fields. reflexivity. }
    unfold metadata. injection Hf as -> -> -> -> -> -> _ _. reflexivity. }
  exists (metadata st1). split; intros fuel Hfuel; unfold parsed.
  - rewrite (Hrun1 fuel Hfuel). reflexivity.
  - rewrite (Hrun2 fuel Hfuel), Hm. reflexivity.
Qed.

Lemma readHeaders_cut_invariant_witness :
  parsed 128 2 [take 30 sampleHead; drop 30 sampleHead]
  = parsed 128 1 [sampleHead].
Proof.
  destruct (readHeaders_cut_invariant 128
              [bytes "HTTP/1.1 200 OK"; bytes "Content-Type: text/html";
               bytes "Content-Length: 42"] []
              [sampleHead] [take 30 sampleHead; drop 30 sampleHead])
    as (m & H1 & H2).
  - split; [|split].
    + repeat constructor; compute_done.
    + repeat constructor; compute_done.
    + vm_compute. reflexivity.
  - split; [|split].
    + repeat constructor; compute_done.
    + repeat constructor; compute_done.
    + vm_compute. reflexivity.
  - rewrite (H1 1%nat), (H2 2%nat) by (cbn; lia). reflexivity.
Defined.

(** C4. A header block cut in two between the CR and the LF of a line is
    not parsed as in one fill: the line and the next are taken together.
    For [sampleHead] the cut after [Content-Type: text/html CR] yields a
    content type that runs on through the next line and no content length;
    the cut in the final CRLF loses the blank line, and with nothing more to
    come the parser never returns.  At every other position the cut block
    parses as the whole one. *)
Theorem readHeaders_cut_in_crlf :
  parsed 128 8 [sampleHead]
    = Some (200, 42, bytes "text/html", [], false, ∅)
  /\ parsed 128 8 [take 41 sampleHead; drop 41 sampleHead]
    = Some (200, 0, bytes "text/html" ++ CRLF ++ bytes "Content-Length: 42",
            [], false, ∅)
  /\ (forall fuel,
        readHeaders 128 fuel (connect [take 63 sampleHead; drop 63 sampleHead])
        = Err OutOfFuel)
  /\ Forall (fun k => k ∈ [16; 41; 61; 63]%nat
                      \/ parsed 128 8 [take k sampleHead; drop k sampleHead]
                         = parsed 128 8 [sampleHead]) (seq 0 65).
Proof.
  split; [vm_compute; reflexivity|].
  split; [vm_compute; reflexivity|].
  split; [|compute_done].
  intros fuel. unfold readHeaders.
  destruct fuel as [|[|fuel]]; [reflexivity | vm_compute; reflexivity |].
  change (S (S fuel)) with (2 + fuel)%nat.
  erewrite fillLoop_afterFills; [|vm_compute; reflexivity].
  eapply fillLoop_starved; vm_compute; reflexivity.
Qed.

(** C5, as stated, fails: a header block without content length and without
    chunked encoding leaves the response incomplete. *)
Lemma absent_length_not_complete :
  exists st,
    readHeaders 128 4 (connect [bareHead]) = Ok st
    /\ contentLength st = 0 /\ isChunked st = false
    /\ isComplete st = false.
Proof.
  eexists. split; [vm_compute; reflexivity|].
  repeat split; vm_compute; reflexivity.
Qed.

(** [strncasecmp] compares what [tolower] makes of both strings. *)
Lemma strncasecmp_lower a b n :
  strncasecmp_eq a b n = strncmp_eq (map tolower a) (map tolower b) n.
Proof.
  revert a b. induction n as [|n IH]; intros a b; [reflexivity|].
  cbn [strncasecmp_eq strncmp_eq].
  assert (Hhd : forall s, hd NUL (map tolower s) = tolower (hd NUL s))
    by (intros [|x s]; reflexivity).
  assert (Htl : forall s, tl (map tolower s) = map tolower (tl s))
    by (intros [|x s]; reflexivity).
  rewrite !Hhd, !Htl, IH. reflexivity.
Qed.

Lemma skip_spaces k rest :
  hd NUL rest <> SP ->
  skip_while (Ascii.eqb SP) (replicate k SP ++ rest) = k.
Proof.
  intros Hrest. induction k as [|k IH]; cbn [replicate app skip_while].
  - destruct rest as [|x rest]; [reflexivity|]. cbn [hd] in Hrest.
    cbn [skip_while]. rewrite (eqb_neq_false SP x) by congruence. reflexivity.
  - rewrite Ascii.eqb_refl, IH. reflexivity.
Qed.

(** A content length line of any casing with the value 0 declares that
    there is no body. *)
Lemma declaresNoBody_zero name k :
  map tolower name = bytes "content-length:" ->
  declaresNoBody (name ++ replicate k SP ++ bytes "0") = true.
Proof.
  intros Hname.
  assert (Hlen : length name = 15%nat)
    by (rewrite <- (length_map tolower), Hname; reflexivity).
  unfold declaresNoBody, readHeader.
  rewrite !strncasecmp_lower, !map_app, Hname.
  assert (Hhttp : strncmp_eq (name ++ replicate k SP ++ bytes "0")
                    (bytes "HTTP/") 5 = false).
  { destruct name as [|c name]; [discriminate|].
    injection Hname as Hc _. cbn.
    destruct (Ascii.eqb_spec c "H") as [->|_]; [discriminate|reflexivity]. }
  rewrite Hhttp.
  change (strncmp_eq (bytes "content-length:" ++ _) _ (strlen (bytes "content-type:")))
    with false.
  change (strncmp_eq (bytes "content-length:" ++ _) _ (strlen (bytes "content-length:")))
    with true.
  cbv iota. change (strlen (bytes "content-length:")) with 15%nat.
  rewrite <- Hlen, drop_app_length.
  rewrite skip_spaces by discriminate. rewrite drop_app_length'
    by (rewrite length_replicate; reflexivity).
  reflexivity.
Qed.

(** On a complete response [read] returns 0 at once: it writes the
    terminator and leaves the response, its transport included, as it is. *)
Lemma read_complete B fuel arr n st :
  isComplete st = true -> arr <> [] ->
  exists arr', read B fuel arr n st = Ok (0, arr', st)
               /\ arr' !! 0%nat = Some NUL.
Proof.
  intros Hc Harr. unfold read, mbind, result_bind. rewrite Hc.
  destruct arr as [|x arr]; [contradiction|].
  rewrite store_fits by (cbn [length]; lia).
  eexists. split; reflexivity.
Qed.

(** C5, amended.  After header parsing of a header block delivered in fills
    that do not separate a CR from its LF, the response is complete exactly
    when one of the lines is a content length header whose value reads as 0:
    so it is with a line [content-length: 0] of any casing, and it is not
    when no line is a content length header.  On a complete response a
    subsequent [read] returns 0 without touching the transport. *)
Theorem zero_length_completes B st sk lines body fills post :
  delivery B lines body fills ->
  socket st = Some sk -> rx sk = fills ++ post ->
  exists st',
    (forall fuel, (length fills <= fuel)%nat -> readHeaders B fuel st = Ok st')
    /\ isComplete st' = existsb declaresNoBody lines
    /\ ((exists name k,
           name ++ replicate k SP ++ bytes "0" ∈ lines
           /\ map tolower name = bytes "content-length:") ->
        isComplete st' = true)
    /\ (Forall (fun l => readHeader l (bytes "content-length:") = None) lines ->
        isComplete st' = false)
    /\ (isComplete st' = true ->
        forall fuel arr n, arr <> [] ->
          exists arr', read B fuel arr n st' = Ok (0, arr', st')
                       /\ arr' !! 0%nat = Some NUL).
Proof.
  intros Hdel Hsk Hrx.
  destruct (readHeaders_lines B st sk lines body fills post Hdel Hsk Hrx)
    as (st' & Hrun & Hfields).
  assert (Hc : isComplete st' = existsb declaresNoBody lines).
  { injection Hfields as _ _ _ _ _ _ Hc _.
    rewrite Hc, parseLines_isComplete. reflexivity. }
  exists st'. split; [exact Hrun|]. split; [exact Hc|]. split; [|split].
  - intros (name & k & Hin & Hname). rewrite Hc. apply existsb_exists.
    exists (name ++ replicate k SP ++ bytes "0"). split.
    + apply list_elem_of_In. exact Hin.
    + apply declaresNoBody_zero, Hname.
  - intros Hnone. rewrite Hc. apply not_true_is_false. intros Hex.
    apply existsb_exists in Hex as (l & Hin & Hl).
    apply list_elem_of_In in Hin.
    rewrite Forall_forall in Hnone. specialize (Hnone l Hin).
    unfold declaresNoBody in Hl. rewrite Hnone in Hl.
    destruct (negb _); destruct (readHeader l (bytes "content-type:"));
      discriminate.
  - intros Hcomplete fuel arr n Harr. apply read_complete; assumption.
Qed.

Lemma zero_length_completes_witness :
  exists st',
    readHeaders 128 2 (connect [take 30 (wire noContent); drop 30 (wire noContent)])
      = Ok st'
    /\ isComplete st' = true.
Proof.
  destruct (zero_length_completes 128
              (connect [take 30 (wire noContent); drop 30 (wire noContent)])
              {| rx := [take 30 (wire noContent); drop 30 (wire noContent)];
                 wr := fun n => n |}
              noContent [] [take 30 (wire noContent); drop 30 (wire noContent)] [])
    as (st' & Hrun & _ & Hzero & _).
  - unfold delivery. split; [|split].
    + repeat constructor; compute_done.
    + repeat constructor; compute_done.
    + vm_compute. reflexivity.
  - reflexivity.
  - reflexivity.
  - exists st'. split; [apply Hrun; cbn; lia|].
    apply Hzero. exists (bytes "Content-Length:"), 1%nat. split.
    + compute_done.
    + vm_compute. reflexivity.
Defined.

(** ** Redirects *)

Lemma same_call_refl st : same_call st st.
Proof. repeat split; [auto | apply extends_refl]. Qed.

Lemma same_call_trans st1 st2 st3 :
  same_call st1 st2 -> same_call st2 st3 -> same_call st1 st3.
Proof.
  intros (Hr1 & Hs1 & He1) (Hr2 & Hs2 & He2). repeat split.
  - congruence.
  - auto.
  - eapply extends_trans; eassumption.
Qed.

Ltac same_fields :=
  unfold same_call, extends; cbn;
  repeat split; [auto | exists []; symmetry; apply app_nil_r].

Lemma headerLine_same_call lineBuf st : same_call st (headerLine lineBuf st).
Proof.
  unfold headerLine.
  repeat match goal with
         | |- context [if ?c then _ else _] => destruct c
         | |- context [match ?o with Some _ => _ | None => _ end] => destruct o
         end; same_fields.
Qed.

Lemma headersDone_same_call B len lineEnd st st' :
  headersDone B len lineEnd st = Ok st' -> same_call st st'.
Proof.
  unfold headersDone.
  destruct (_ <? len); [|intros [= <-]; apply same_call_refl].
  cbn [isComplete contentLength set_bodyRead set_bufRemaining set_bufPtr socket].
  destruct (negb _ && _); [|intros [= <-]; same_fields].
  destruct (len <? B); [intros [= <-]; same_fields|].
  destruct (socket st) as [sk|] eqn:Hsk; [|discriminate].
  intros [= <-]. repeat split; cbn.
  - rewrite Hsk. auto.
  - eexists. reflexivity.
Qed.

Lemma readRaw_same_call B st len st' :
  readRaw B st = Ok (len, st') -> same_call st st' /\ is_Some (socket st').
Proof.
  unfold readRaw.
  destruct (socket st) as [sk|]; [|discriminate].
  destruct (buf st) as [b|]; [|discriminate].
  destruct (sock_read sk B) as [data sk'].
  intros [= <- <-]. cbn. repeat split; cbn; eauto. eexists; reflexivity.
Qed.

Lemma scanLines_same_call B fuel len line lineBuf st complete lineBuf' st' :
  scanLines B fuel len line lineBuf st = Ok (complete, lineBuf', st') ->
  same_call st st'.
Proof.
  revert line lineBuf st. induction fuel as [|fuel IH]; intros line lineBuf st;
    [discriminate|].
  cbn [scanLines]. unfold mbind, result_bind.
  destruct (strstr _ CRLF) as [off|]; [|intros [= <- <- <-]; apply same_call_refl].
  destruct (lineBuf ++ _) as [|c lb].
  - destruct (headersDone B len _ st) as [st1|] eqn:Hd; [|discriminate].
    intros [= <- <- <-]. eapply headersDone_same_call. exact Hd.
  - intros H. apply IH in H.
    eapply same_call_trans; [apply headerLine_same_call|exact H].
Qed.

Lemma fillLoop_same_call B fuel lineBuf st st' :
  fillLoop B fuel lineBuf st = Ok st' ->
  same_call st st' /\ is_Some (socket st').
Proof.
  revert lineBuf st. induction fuel as [|fuel IH]; intros lineBuf st;
    [discriminate|].
  cbn [fillLoop]. unfold mbind, result_bind.
  destruct (readRaw B st) as [[len st1]|] eqn:Hraw; [|discriminate].
  apply readRaw_same_call in Hraw as [H1 Hs1].
  destruct (scanLines B _ len 0 lineBuf st1) as [[[complete lb] st2]|] eqn:Hscan;
    [|discriminate].
  apply scanLines_same_call in Hscan.
  assert (H2 : same_call st st2) by (eapply same_call_trans; eassumption).
  destruct complete.
  - intros [= <-]. split; [exact H2|]. apply Hscan, Hs1.
  - intros H. apply IH in H as [H3 Hs3]. split; [|exact Hs3].
    eapply same_call_trans; eassumption.
Qed.

Lemma readHeaders_same_call B fuel st st' :
  readHeaders B fuel st = Ok st' ->
  same_call st st' /\ is_Some (socket st').
Proof.
  unfold readHeaders. intros H. apply fillLoop_same_call in H as [H Hs].
  split; [|exact Hs]. revert H. destruct (buf st); exact (fun H => H).
Qed.

(** [executeImpl] is a leg followed by the redirect decision. *)
Lemma executeImpl_leg B net fuel req url response :
  executeImpl B net (S fuel) req url response
  = match leg B net fuel req url response with
    | Ok (inl r) =>
        if follows req r
        then executeImpl B net fuel req (location r) (redirected r)
        else Ok (Some r, trace r)
    | Ok (inr t) => Ok (None, t)
    | Err e => Err e
    end.
Proof.
  cbn [executeImpl]. unfold leg, follows, redirected, mbind, result_bind.
  destruct (splitUrl url) as [[[[https host] port] path]|]; [|reflexivity].
  destruct (negb _); [reflexivity|].
  destruct (readHeaders B fuel _) as [r|]; reflexivity.
Qed.

Lemma leg_same_call B net fuel req url response r :
  leg B net fuel req url response = Ok (inl r) ->
  redirectCount r = redirectCount response
  /\ is_Some (socket r)
  /\ exists https host port evs,
       trace r = trace response ++ EvOpen https host port :: evs.
Proof.
  unfold leg, mbind, result_bind.
  destruct (splitUrl url) as [[[[https host] port] path]|]; [|discriminate].
  destruct (negb _); [discriminate|].
  destruct (readHeaders B fuel _) as [r'|] eqn:Hh; [|discriminate].
  intros [= <-]. apply readHeaders_same_call in Hh as [(Hr & _ & [evs He]) Hs].
  cbn in Hr, He. repeat split; try assumption.
  exists https, host, port. eexists. rewrite He, <- !app_assoc. reflexivity.
Qed.

Lemma redirected_spec r :
  is_Some (socket r) ->
  redirectCount (redirected r) = redirectCount r + 1
  /\ socket (redirected r) = None
  /\ trace (redirected r) = trace r ++ [EvClose].
Proof.
  intros [sk Hsk]. unfold redirected, close. cbn [socket set_redirectCount].
  rewrite Hsk. cbn. auto.
Qed.

(** C2. Let the first leg of a call end in a response [r1] with a Location
    header.  With [maxRedirects = 0] on a new response the call returns [r1]
    unfollowed; with [maxRedirects = 1] it runs one more leg against the
    location and returns the response [r2] of that leg, whatever it is; with
    a negative [maxRedirects] it always goes on to the next leg.  The
    response handed to the next leg has its count increased by one and its
    transport released, and the close precedes the open of the next leg in
    the transport calls. *)
Theorem redirects_follow_the_limit (B : Z)
    (net : bool -> list ascii -> Z -> Socket) (fuel : nat) (req : HTTPRequest)
    (url : list ascii) (response r1 : Response) :
  leg B net (S fuel) req url response = Ok (inl r1) ->
  isRedirect r1 = true ->
  (redirectCount response = 0 -> maxRedirects req = 0 ->
     executeImpl B net (S (S fuel)) req url response = Ok (Some r1, trace r1))
  /\ (redirectCount response = 0 -> maxRedirects req = 1 ->
      forall r2,
        leg B net fuel req (location r1) (redirected r1) = Ok (inl r2) ->
        executeImpl B net (S (S fuel)) req url response = Ok (Some r2, trace r2)
        /\ redirectCount r2 = 1)
  /\ (maxRedirects req < 0 ->
      executeImpl B net (S (S fuel)) req url response
      = executeImpl B net (S fuel) req (location r1) (redirected r1))
  /\ redirectCount (redirected r1) = redirectCount r1 + 1
  /\ socket (redirected r1) = None
  /\ trace (redirected r1) = trace r1 ++ [EvClose]
  /\ (forall r2,
        leg B net fuel req (location r1) (redirected r1) = Ok (inl r2) ->
        exists https host port evs,
          trace r2 = trace r1 ++ EvClose :: EvOpen https host port :: evs).
Proof.
  intros Hleg Hred.
  pose proof (leg_same_call _ _ _ _ _ _ _ Hleg) as (Hcount & Hsock & _).
  pose proof (redirected_spec r1 Hsock) as (Hc' & Hs' & Ht').
  rewrite executeImpl_leg, Hleg. unfold follows. rewrite Hred, Hcount. cbn [andb].
  rewrite Hcount in Hc'.
  refine (conj _ (conj _ (conj _ (conj Hc' (conj Hs' (conj Ht' _)))))).
  - intros -> ->. reflexivity.
  - intros H0 H1 r2 H2. rewrite H0, H1.
    change ((1 <? 0) || (0 <? 1)) with true. cbv iota.
    rewrite executeImpl_leg, H2. unfold follows.
    pose proof (leg_same_call _ _ _ _ _ _ _ H2) as (Hcount2 & _).
    rewrite Hcount2, Hc', H0, H1. cbn. rewrite andb_false_r.
    split; reflexivity.
  - intros Hneg. destruct (Z.ltb_spec (maxRedirects req) 0); [reflexivity|lia].
  - intros r2 H2.
    pose proof (leg_same_call _ _ _ _ _ _ _ H2)
      as (_ & _ & https & host & port & evs & He).
    exists https, host, port, evs. rewrite He, Ht', <- app_assoc. reflexivity.
Qed.

Lemma redirects_follow_the_limit_witness :
  (statusCode <$> (ok (execute 128 sampleNet 4 (sampleReq 0)) ≫= fst) = Some 302)
  /\ (statusCode <$> (ok (execute 128 sampleNet 4 (sampleReq 1)) ≫= fst) = Some 200)
  /\ snd <$> ok (execute 128 sampleNet 4 (sampleReq 1))
     = Some [EvOpen false (bytes "a.example") 80;
             EvWrite (serialize (sampleReq 1) (bytes "/") (bytes "a.example") 80) 51;
             EvRead 52; EvClose;
             EvOpen false (bytes "b.example") 80;
             EvWrite (serialize (sampleReq 1) (bytes "/x") (bytes "b.example") 80) 52;
             EvRead 40].
Proof.
  pose (r0 := legResponse (leg 128 sampleNet 3 (sampleReq 0)
                             (bytes "http://a.example/") newResponse)).
  pose (r1 := legResponse (leg 128 sampleNet 3 (sampleReq 1)
                             (bytes "http://a.example/") newResponse)).
  pose (r2 := legResponse (leg 128 sampleNet 2 (sampleReq 1)
                             (location r1) (redirected r1))).
  destruct (redirects_follow_the_limit 128 sampleNet 2 (sampleReq 0)
              (bytes "http://a.example/") newResponse r0
              ltac:(vm_compute; reflexivity) ltac:(vm_compute; reflexivity))
    as (H0 & _).
  destruct (redirects_follow_the_limit 128 sampleNet 2 (sampleReq 1)
              (bytes "http://a.example/") newResponse r1
              ltac:(vm_compute; reflexivity) ltac:(vm_compute; reflexivity))
    as (_ & H1 & _).
  specialize (H0 eq_refl eq_refl).
  destruct (H1 eq_refl eq_refl r2 ltac:(vm_compute; reflexivity)) as [H1' _].
  unfold execute. change (url (sampleReq 0)) with (bytes "http://a.example/").
  change (url (sampleReq 1)) with (bytes "http://a.example/").
  change 4%nat with (S (S 2)).
  rewrite H0, H1'. repeat split; vm_compute; reflexivity.
Defined.
(** ** Streaming *)







(** Without chunked encoding and without content length nothing is ever
    copied: with bytes in the buffer the main loop of [read] goes round
    without end, whatever the mode. *)
Lemma readLoop_spins B fuel lv st :
  isChunked st = false -> contentLength st = 0 -> chunkRemaining st = 0 ->
  0 < bufRemaining st < SIZE_MOD -> toRead lv <> 0 ->
  readLoop B fuel lv st = Err OutOfFuel.
Proof.
  intros Hk Hl Hc Hb Hn. revert st Hk Hl Hc Hb.
  induction fuel as [|fuel IH]; intros st Hk Hl Hc Hb; [reflexivity|].
  rewrite readLoop_unfold.
  destruct (Z.eqb_spec (toRead lv) 0) as [|_]; [contradiction|].
  rewrite (skip_buffered B 0 false st) by lia.
  rewrite Z.add_0_r, Z.sub_0_r.
  set (st1 := set_bufPtr (bufPtr st) (set_bufRemaining (bufRemaining st) st)).
  assert (H1 : isChunked st1 = false /\ contentLength st1 = 0
               /\ chunkRemaining st1 = 0 /\ bufRemaining st1 = bufRemaining st)
    by (unfold st1; cbn; auto).
  clearbody st1. destruct H1 as (Hk1 & Hl1 & Hc1 & Hb1).
  rewrite Hk1, Hl1. cbn [andb negb Z.eqb].
  destruct fuel as [|fuel]; [reflexivity|].
  rewrite copyLoop_unfold, Hc1. cbn [Z.eqb orb].
  destruct (Z.eqb_spec (bufRemaining st1) 0) as [|_]; [lia|].
  rewrite andb_false_r. apply IH; try assumption. lia.
Qed.

(** So a body without length framing, marked streaming by the header
    parser, is never delivered: no [read] of it returns. *)
Remark read_spins_without_length :
  exists st,
    readHeaders 128 4
      (connect [bytes "HTTP/1.1 200 OK" ++ CRLF ++ CRLF ++ bytes "body"]) = Ok st
    /\ isStreaming st = true /\ isComplete st = false
    /\ forall fuel arr, read 128 fuel arr 4 st = Err OutOfFuel.
Proof.
  eexists. split; [vm_compute; reflexivity|].
  split; [reflexivity|]. split; [reflexivity|].
  intros fuel arr. unfold read, mbind, result_bind. cbn [isComplete].
  rewrite readLoop_spins; [reflexivity..| |discriminate].
  cbn. unfold SIZE_MOD, size_bits. lia.
Qed.

(** ** The destination of [read] *)

Lemma locals_ok_stop arr0 n lv : locals_ok arr0 n lv -> locals_ok arr0 n (set_toRead 0 lv).
Proof.
  unfold locals_ok. cbn. intros (? & ? & ? & ? & ? & ?).
  repeat split; try assumption; lia.
Qed.

(** The copy loop keeps the invariant of the local variables; it can only
    run past the destination when that is shorter than the request. *)
Lemma copyLoop_inv B arr0 n fuel lv st :
  n < SIZE_MOD -> locals_ok arr0 n lv -> counters_ok st ->
  match copyLoop B fuel lv st with
  | Ok (lv', st') => locals_ok arr0 n lv' /\ counters_ok st'
  | Err e => e = DstOverflow -> Z.of_nat (length arr0) < n
  end.
Proof.
  intros Hn. revert lv st. induction fuel as [|fuel IH]; intros lv st Hlv Hst.
  - cbn. discriminate.
  - cbn [copyLoop]. unfold mbind, result_bind.
    destruct ((chunkRemaining st =? 0) || (toRead lv =? 0)) eqn:Hdone;
      [split; assumption|].
    apply orb_false_elim in Hdone as [Hc Ht].
    apply Z.eqb_neq in Hc, Ht.
    set (count := Z.min (toRead lv) (Z.min (bufRemaining st) (chunkRemaining st))).
    destruct Hlv as (Hd & Hr0 & Ht0 & Hsum & Hlen & Hframe).
    destruct Hst as (Hbr & Hcr & Hcl).
    assert (Hcount : 0 <= count <= toRead lv) by (unfold count; lia).
    assert (Hcount' : count <= chunkRemaining st) by (unfold count; lia).
    pose proof (strncpy_bytes_length (atPtr st) (Z.to_nat count)) as Hdata.
    destruct (store (dstArr lv) (dst lv) _) as [arr|e] eqn:Hstore.
    + apply store_ok in Hstore as (_ & _ & Hlen' & Hkeep & _).
      rewrite Hdata in Hkeep.
      set (lv' := {| dstArr := arr; dst := dst lv + count;
                     nread := to_size (nread lv + count);
                     toRead := to_size (toRead lv - count) |}).
      assert (Hlv' : locals_ok arr0 n lv').
      { unfold locals_ok, lv'. cbn.
        rewrite (to_size_small (nread lv + count)) by (unfold is_size; lia).
        rewrite (to_size_small (toRead lv - count)) by (unfold is_size; lia).
        repeat split; try lia.
        intros i Hi. rewrite Hkeep by lia. apply Hframe. lia. }
      set (st1 := set_chunkRemaining (to_size (chunkRemaining st - count)) st).
      assert (Hst1 : counters_ok st1).
      { unfold counters_ok, st1. cbn. repeat split; try assumption.
        apply to_size_nonneg. }
      pose proof (skip_counters B count false st1) as Hk.
      pose proof (skip_no_overflow B count false st1) as Hno.
      destruct (skip B count false st1) as [[more st2]|e];
        [|intros ->; contradiction].
      specialize (Hk more st2 Hst1 eq_refl).
      destruct more; cbn [negb]; [|split; [apply locals_ok_stop|]; assumption].
      destruct (isChunked st2 && (chunkRemaining st2 =? 0)); [|apply IH; assumption].
      pose proof (skip_counters B 2 (isStreaming st2) st2) as Hk2.
      pose proof (skip_no_overflow B 2 (isStreaming st2) st2) as Hno2.
      destruct (skip B 2 (isStreaming st2) st2) as [[more2 st3]|e];
        [|intros ->; contradiction].
      specialize (Hk2 more2 st3 Hk eq_refl).
      destruct more2; apply IH; try assumption. apply locals_ok_stop, Hlv'.
    + apply store_err in Hstore as (_ & Hbad). rewrite Hdata in Hbad.
      intros _. lia.
Qed.

(** The main loop keeps it too. *)
Lemma readLoop_inv B arr0 n fuel lv st :
  n < SIZE_MOD -> locals_ok arr0 n lv -> counters_ok st ->
  match readLoop B fuel lv st with
  | Ok (lv', st') => locals_ok arr0 n lv' /\ counters_ok st'
  | Err e => e = DstOverflow -> Z.of_nat (length arr0) < n
  end.
Proof.
  intros Hn. revert lv st. induction fuel as [|fuel IH]; intros lv st Hlv Hst.
  - cbn. discriminate.
  - cbn [readLoop]. unfold mbind, result_bind.
    destruct (toRead lv =? 0); [split; assumption|].
    pose proof (skip_counters B 0 false st) as Hk.
    pose proof (skip_no_overflow B 0 false st) as Hno.
    destruct (skip B 0 false st) as [[more st1]|e]; [|intros ->; contradiction].
    specialize (Hk more st1 Hst eq_refl).
    assert (Hgo : match (if isChunked st1 && (chunkRemaining st1 =? 0)
                         then chunkSize B st1
                         else if negb (contentLength st1 =? 0)
                                 && (chunkRemaining st1 =? 0)
                              then Ok (true, set_chunkRemaining (contentLength st1) st1)
                              else Ok (true, st1)) with
                  | Ok (_, st') => counters_ok st'
                  | Err e => e <> DstOverflow
                  end).
    { destruct (isChunked st1 && (chunkRemaining st1 =? 0));
        [apply chunkSize_frame, Hk|].
      destruct (negb (contentLength st1 =? 0) && (chunkRemaining st1 =? 0));
        [|exact Hk].
      destruct Hk as (? & ? & ?). repeat split; assumption. }
    destruct (if isChunked st1 && (chunkRemaining st1 =? 0) then _ else _)
      as [[go st2]|e]; [|intros ->; contradiction].
    destruct go; cbn [negb]; [|split; assumption].
    pose proof (copyLoop_inv B arr0 n fuel lv st2 Hn Hlv Hgo) as Hcopy.
    destruct (copyLoop B fuel lv st2) as [[lv' st3]|e]; [|exact Hcopy].
    destruct Hcopy as [Hlv' Hst3].
    destruct (isStreaming st3 && (bufRemaining st3 =? 0)); [split; assumption|].
    apply IH; assumption.
Qed.



(** That call returns the nine bytes and the terminator behind them. *)
Example read_terminator_run :
  (fun r => (r.1.1, take 10 r.1.2))
    <$> ok (read 128 8 (replicate 101 "x"%char) 100
              (streamingState wikipedia 0 []))
  = Some (9, bytes "Wikipedia" ++ [NUL]).
Proof. vm_compute. reflexivity. Qed.

(** [n + 1] bytes are needed: a [read] that fills a destination of [n] bytes
    writes the terminator behind it.  [readToString] itself reads
    [BUF_SIZE] bytes into an array of [BUF_SIZE] bytes. *)
Remark read_needs_room_for_terminator :
  read 128 8 (replicate 5 "x"%char) 5
    (streamingState (bytes "Hello" ++ CRLF) 5 [])
  = Err DstOverflow.
Proof. vm_compute. reflexivity. Qed.

(** * Further properties *)

(** ** More on C strings *)

Lemma strlen_no_NUL l : NUL ∉ l -> strlen l = length l.
Proof.
  induction l as [|c l IH]; intros H; [reflexivity|].
  apply not_elem_of_cons in H as [Hc H]. cbn [strlen length].
  rewrite (eqb_neq_false c NUL) by congruence. rewrite IH by exact H. reflexivity.
Qed.

Lemma cstr_no_NUL l : NUL ∉ l -> cstr l = l.
Proof.
  intros H. unfold cstr. rewrite strlen_no_NUL by exact H. apply firstn_all.
Qed.

Lemma strchr_absent l c : c ∉ l -> strchr l c = None.
Proof.
  induction l as [|x l IH]; intros H; [reflexivity|].
  apply not_elem_of_cons in H as [Hx H]. cbn [strchr].
  rewrite (eqb_neq_false x c) by congruence.
  destruct (Ascii.eqb x NUL); [reflexivity|]. rewrite IH by exact H. reflexivity.
Qed.

Lemma strchr_app l r c :
  c ∉ l -> NUL ∉ l ->
  strchr (l ++ r) c = (fun n => (length l + n)%nat) <$> strchr r c.
Proof.
  induction l as [|x l IH]; intros Hc Hn.
  - cbn. destruct (strchr r c); reflexivity.
  - apply not_elem_of_cons in Hc as [Hx Hc].
    apply not_elem_of_cons in Hn as [Hxn Hn].
    cbn [app strchr].
    rewrite (eqb_neq_false x c), (eqb_neq_false x NUL) by congruence.
    rewrite IH by assumption. destruct (strchr r c); reflexivity.
Qed.

Lemma strchr_found l r c :
  c ∉ l -> NUL ∉ l -> strchr (l ++ c :: r) c = Some (length l).
Proof.
  intros Hc Hn. rewrite strchr_app by assumption. cbn [strchr].
  rewrite Ascii.eqb_refl. cbn. rewrite Nat.add_0_r. reflexivity.
Qed.

Lemma strchr_Some l c n :
  strchr l c = Some n -> l = take n l ++ c :: drop (S n) l /\ c ∉ take n l.
Proof.
  revert n. induction l as [|x l IH]; intros n; [discriminate|].
  cbn [strchr]. destruct (Ascii.eqb_spec x c) as [->|Hx].
  - intros [= <-]. split; [reflexivity|apply not_elem_of_nil].
  - destruct (Ascii.eqb x NUL); [discriminate|].
    destruct (strchr l c) as [m|]; [|discriminate].
    intros [= <-]. destruct (IH m eq_refl) as [Heq Hnot].
    cbn [take drop app]. split; [f_equal; exact Heq|].
    apply not_elem_of_cons. split; [congruence|exact Hnot].
Qed.

Lemma strlen_app_NUL held t : NUL ∉ held -> strlen (held ++ NUL :: t) = length held.
Proof.
  induction held as [|c held IH]; intros H; [reflexivity|].
  apply not_elem_of_cons in H as [Hc H]. cbn [app strlen length].
  rewrite (eqb_neq_false c NUL) by congruence. rewrite IH by exact H. reflexivity.
Qed.

(** [strncpy] of bytes without NUL copies them as they are. *)
Lemma strncpy_bytes_held held t :
  NUL ∉ held -> strncpy_bytes (held ++ NUL :: t) (length held) = held.
Proof.
  intros H. rewrite strncpy_bytes_exact by (rewrite strlen_app_NUL by exact H; lia).
  apply take_app_length.
Qed.

(** Decimal digits are none of the bytes that end or structure a number. *)

Lemma isdigit_class c :
  isdigit c ->
  c <> NUL /\ c <> ":"%char /\ c <> "/"%char /\ c <> "-"%char /\ c <> "+"%char
  /\ isspace c = false.
Proof.
  intros [d Hd]. revert Hd.
  destruct c as [[] [] [] [] [] [] [] []]; vm_compute; intros Hd;
    try discriminate Hd; repeat split; discriminate.
Qed.

Lemma digit_char d :
  0 <= d < 10 -> digit_in 10 (ascii_of_nat (Z.to_nat (48 + d))) = Some d.
Proof.
  intros H.
  assert (Hd : d = 0 \/ d = 1 \/ d = 2 \/ d = 3 \/ d = 4 \/ d = 5 \/ d = 6
               \/ d = 7 \/ d = 8 \/ d = 9) by lia.
  repeat (destruct Hd as [->|Hd]; [reflexivity|]). subst d. reflexivity.
Qed.

Lemma dec_digits_spec fuel :
  forall n acc,
    (0 < fuel)%nat -> 0 <= n < 2 ^ Z.of_nat fuel ->
    exists ds,
      dec_digits fuel n acc = ds ++ acc /\ ds <> [] /\ Forall isdigit ds
      /\ forall rest,
           scan_digits 10 (ds ++ rest) 0 0 = scan_digits 10 rest n (length ds).
Proof.
  induction fuel as [|fuel IH]; intros n acc Hfuel Hn; [lia|].
  cbn [dec_digits].
  assert (Hmod : 0 <= n mod 10 < 10) by (apply Z.mod_pos_bound; lia).
  pose proof (digit_char (n mod 10) Hmod) as Hd.
  destruct (n <? 10) eqn:Hlt.
  - apply Z.ltb_lt in Hlt.
    exists [ascii_of_nat (Z.to_nat (48 + n mod 10))].
    split; [reflexivity|]. split; [discriminate|].
    split; [constructor; [unfold isdigit; rewrite Hd; eauto|constructor]|].
    intros rest. cbn [app scan_digits length]. rewrite Hd.
    rewrite Z.mod_small by lia. reflexivity.
  - apply Z.ltb_ge in Hlt.
    assert (Hdiv : 1 <= n / 10) by (apply Z.div_le_lower_bound; lia).
    assert (Hpow : 2 ^ Z.of_nat (S fuel) = 2 * 2 ^ Z.of_nat fuel)
      by (rewrite Nat2Z.inj_succ, Z.pow_succ_r by lia; reflexivity).
    assert (Hdn : n / 10 < 2 ^ Z.of_nat fuel)
      by (apply Z.div_lt_upper_bound; lia).
    assert (Hf : (0 < fuel)%nat).
    { destruct fuel; [cbn in Hdn; lia|lia]. }
    destruct (IH (n / 10) (ascii_of_nat (Z.to_nat (48 + n mod 10)) :: acc) Hf
                ltac:(lia)) as (ds & Heq & Hne & Hall & Hscan).
    exists (ds ++ [ascii_of_nat (Z.to_nat (48 + n mod 10))]).
    split; [rewrite Heq, <- app_assoc; reflexivity|].
    split; [destruct ds; discriminate|].
    split; [apply Forall_app; split; [exact Hall|];
            constructor; [unfold isdigit; rewrite Hd; eauto|constructor]|].
    intros rest. rewrite <- app_assoc, Hscan. cbn [app scan_digits].
    rewrite Hd, length_app. cbn [length].
    replace (n / 10 * 10 + n mod 10) with n by (pose proof (Z.div_mod n 10); lia).
    rewrite Nat.add_1_r. reflexivity.
Qed.

Lemma decimal_spec n :
  0 <= n ->
  decimal n <> [] /\ Forall isdigit (decimal n)
  /\ forall rest,
       scan_digits 10 (decimal n ++ rest) 0 0
       = scan_digits 10 rest n (length (decimal n)).
Proof.
  intros Hn. unfold decimal.
  assert (Hb : 0 <= n < 2 ^ Z.of_nat (S (Z.to_nat (Z.log2 n)))).
  { rewrite Nat2Z.inj_succ, Z2Nat.id by apply Z.log2_nonneg.
    destruct (Z.eq_dec n 0) as [->|Hz]; [vm_compute; split; [discriminate|reflexivity]|].
    pose proof (Z.log2_spec n ltac:(lia)). lia. }
  destruct (dec_digits_spec (S (Z.to_nat (Z.log2 n))) n [] ltac:(lia) Hb) as (ds & Heq & Hne & Hall & Hscan).
  rewrite app_nil_r in Heq. rewrite Heq. auto.
Qed.

(** [strtol] reads back what the stream wrote. *)
Lemma strtol_decimal n rest :
  0 <= n <= LONG_MAX -> digit_in 10 (hd NUL rest) = None ->
  strtol (decimal n ++ rest) 10 = (n, length (decimal n)).
Proof.
  intros Hn Hrest.
  destruct (decimal_spec n ltac:(lia)) as (Hne & Hall & Hscan).
  specialize (Hscan rest).
  destruct (decimal n) as [|c ds] eqn:Hd; [contradiction|].
  apply Forall_cons in Hall as [Hc _].
  destruct (isdigit_class c Hc) as (_ & _ & _ & Hm & Hp & Hsp).
  unfold strtol, scan_number.
  cbn [app skip_while]. rewrite Hsp. cbn [drop].
  rewrite (eqb_neq_false c "-"), (eqb_neq_false c "+") by assumption.
  cbn [drop].
  assert (Hpx : match c :: ds ++ rest with
                | z :: x :: h :: _ =>
                    if (10 =? 16) && Ascii.eqb z "0"
                       && (Ascii.eqb x "x" || Ascii.eqb x "X")
                       && bool_decide (is_Some (digit_in 16 h))
                    then 2%nat else O
                | _ => O
                end = O).
  { destruct (ds ++ rest) as [|x [|h t]]; reflexivity. }
  rewrite Hpx. cbn [drop]. cbn [app] in Hscan. rewrite Hscan.
  assert (Hstop : scan_digits 10 rest n (length (c :: ds)) = (n, length (c :: ds))).
  { destruct rest as [|r rest]; [reflexivity|]. cbn [hd] in Hrest.
    cbn [scan_digits]. rewrite Hrest. reflexivity. }
  rewrite Hstop. cbn [length]. rewrite Z.min_l by lia. reflexivity.
Qed.

Lemma decimal_head n rest : 0 <= n -> hd NUL (decimal n ++ rest) <> SP.
Proof.
  intros Hn. destruct (decimal_spec n Hn) as (Hne & Hall & _).
  destruct (decimal n) as [|c ds]; [contradiction|].
  apply Forall_cons in Hall as [Hc _]. cbn [app hd].
  destruct (isdigit_class c Hc) as (_ & _ & _ & _ & _ & Hsp).
  intros ->. discriminate Hsp.
Qed.

(** [tolower] makes neither a NUL nor a colon, and changes no byte twice. *)

Lemma tolower_NUL c : tolower c = NUL -> c = NUL.
Proof.
  destruct c as [[] [] [] [] [] [] [] []]; vm_compute; intros H;
    try discriminate H; reflexivity.
Qed.

Lemma tolower_colon c : tolower c = ":"%char -> c = ":"%char.
Proof.
  destruct c as [[] [] [] [] [] [] [] []]; vm_compute; intros H;
    try discriminate H; reflexivity.
Qed.

Lemma tolower_idemp c : tolower (tolower c) = tolower c.
Proof. destruct c as [[] [] [] [] [] [] [] []]; reflexivity. Qed.

Lemma lower_idemp s : lower (lower s) = lower s.
Proof.
  unfold lower. rewrite map_map. apply map_ext. intros c. apply tolower_idemp.
Qed.

(** [strncmp] and [strncasecmp] over the whole of a name without NUL: the
    string begins with the name, to the byte or up to case. *)

Lemma strncmp_prefix name :
  forall header,
    NUL ∉ name ->
    strncmp_eq header name (length name) = true <-> exists rest, header = name ++ rest.
Proof.
  induction name as [|a name IH]; intros header Hn.
  - split; [intros _; exists header; reflexivity|reflexivity].
  - apply not_elem_of_cons in Hn as [Ha Hn].
    cbn [length strncmp_eq hd tl]. split.
    + destruct header as [|h header]; cbn [hd tl].
      * rewrite (eqb_neq_false NUL a) by congruence. discriminate.
      * destruct (Ascii.eqb_spec h a) as [->|]; [|discriminate].
        rewrite (eqb_neq_false a NUL) by congruence.
        intros H. apply IH in H as (rest & ->); [|exact Hn].
        exists rest. reflexivity.
    + intros (rest & ->). cbn [app hd tl]. rewrite Ascii.eqb_refl.
      rewrite (eqb_neq_false a NUL) by congruence.
      apply IH; [exact Hn|]. eauto.
Qed.

Lemma strncmp_take value key :
  NUL ∉ key ->
  strncmp_eq value key (length key) = bool_decide (take (length key) value = key).
Proof.
  intros Hn. destruct (strncmp_eq value key (length key)) eqn:H.
  - apply strncmp_prefix in H as (rest & ->); [|exact Hn].
    rewrite take_app_length. symmetry. apply bool_decide_eq_true_2. reflexivity.
  - symmetry. apply bool_decide_eq_false_2. intros Ht.
    apply not_true_iff_false in H. apply H. apply strncmp_prefix; [exact Hn|].
    exists (drop (length key) value). rewrite <- Ht at 1. symmetry. apply take_drop.
Qed.

Lemma strncasecmp_prefix name :
  forall header,
    NUL ∉ name ->
    strncasecmp_eq header name (length name) = true
    <-> exists pre rest,
          header = pre ++ rest /\ map tolower pre = map tolower name.
Proof.
  induction name as [|a name IH]; intros header Hn.
  - split; [intros _; exists [], header; auto|reflexivity].
  - apply not_elem_of_cons in Hn as [Ha Hn].
    cbn [length strncasecmp_eq hd tl].
    assert (Hla : tolower a <> NUL) by (intros H; apply tolower_NUL in H; congruence).
    split.
    + destruct header as [|h header]; cbn [hd tl].
      * change (tolower NUL) with NUL.
        rewrite (eqb_neq_false NUL (tolower a)) by congruence. discriminate.
      * destruct (Ascii.eqb_spec (tolower h) (tolower a)) as [Heq|]; [|discriminate].
        rewrite (eqb_neq_false (tolower h) NUL) by congruence.
        intros H. apply IH in H as (pre & rest & -> & Hpre); [|exact Hn].
        exists (h :: pre), rest. split; [reflexivity|].
        cbn [map]. rewrite Heq, Hpre. reflexivity.
    + intros (pre & rest & -> & Hpre).
      destruct pre as [|h pre]; [discriminate|].
      cbn [map] in Hpre. injection Hpre as Hh Hpre.
      cbn [app hd tl]. rewrite Hh, Ascii.eqb_refl.
      rewrite (eqb_neq_false (tolower a) NUL) by exact Hla.
      apply IH; [exact Hn|]. exists pre, rest. auto.
Qed.

(** The spaces that [readHeader] steps over. *)

Lemma skip_while_spaces l :
  exists rest,
    l = replicate (skip_while (Ascii.eqb SP) l) SP ++ rest
    /\ hd NUL rest <> SP.
Proof.
  induction l as [|c l (rest & Heq & Hhd)].
  - exists []. split; [reflexivity|discriminate].
  - cbn [skip_while]. destruct (Ascii.eqb_spec SP c) as [<-|Hc].
    + exists rest. split; [cbn [replicate app]; rewrite <- Heq; reflexivity|exact Hhd].
    + exists (c :: l). split; [reflexivity|]. cbn [hd]. congruence.
Qed.

(** ** The URL splitter, for well-formed URLs *)

(** The scheme is told by the fifth byte, and the rest of the URL starts
    behind the two slashes. *)

Lemma splitUrl_scheme tls rest :
  splitUrl (scheme tls ++ rest)
  = match strchr rest ":", strchr rest "/" with
    | _, None => Err BadUrl
    | None, Some p => Ok (tls, take p rest, if tls then 443 else 80, cstr (drop p rest))
    | Some e, Some p =>
        Ok (tls, take e rest, to_u16 (fst (strtol (drop (S e) rest) 10)),
            cstr (drop p rest))
    end.
Proof. destruct tls; reflexivity. Qed.

(** X3. For a URL [scheme://host/path] without NUL whose host has neither
    colon nor slash and whose path has no colon, the splitter yields the
    host, the path from its slash on, and the port of the scheme: 443 for
    https, 80 for http. *)
Theorem splitUrl_without_colon (tls : bool) (host path : list ascii) :
  ":"%char ∉ host ++ path -> "/"%char ∉ host -> NUL ∉ host ++ path ->
  splitUrl (scheme tls ++ host ++ "/"%char :: path)
  = Ok (tls, host, if tls then 443 else 80, "/"%char :: path).
Proof.
  intros Hcolon Hslash Hnul.
  apply not_elem_of_app in Hcolon as [Hc1 Hc2].
  apply not_elem_of_app in Hnul as [Hn1 Hn2].
  rewrite splitUrl_scheme.
  rewrite strchr_absent.
  2:{ apply not_elem_of_app. split; [exact Hc1|].
      apply not_elem_of_cons. split; [discriminate|exact Hc2]. }
  rewrite strchr_found by assumption.
  rewrite take_app_length, drop_app_length.
  rewrite cstr_no_NUL; [reflexivity|].
  apply not_elem_of_cons. split; [discriminate|exact Hn2].
Qed.

Lemma splitUrl_without_colon_witness :
  splitUrl (bytes "https://example.com/index.html")
  = Ok (true, bytes "example.com", 443, bytes "/index.html").
Proof.
  apply (splitUrl_without_colon true (bytes "example.com") (bytes "index.html"));
    compute_done.
Defined.



(** ** Header lines *)

(** What [readHeader] accepts, and what it hands back. *)
Lemma readHeader_Some header name h :
  NUL ∉ name -> readHeader header name = Some h ->
  exists pre k,
    header = pre ++ replicate k SP ++ h
    /\ map tolower pre = map tolower name
    /\ hd NUL h <> SP.
Proof.
  intros Hn. unfold readHeader. rewrite (strlen_no_NUL name Hn).
  destruct (strncasecmp_eq header name (length name)) eqn:Hcmp; [|discriminate].
  apply strncasecmp_prefix in Hcmp as (pre & rest & -> & Hpre); [|exact Hn].
  assert (Hlen : length name = length pre).
  { rewrite <- (length_map tolower pre), Hpre, length_map. reflexivity. }
  rewrite Hlen, drop_app_length.
  destruct (skip_while_spaces rest) as (r & Heq & Hhd).
  intros [= <-].
  exists pre, (skip_while (Ascii.eqb SP) rest). split; [|split; [exact Hpre|]].
  - rewrite Heq at 1. f_equal. f_equal. rewrite Heq at 2.
    rewrite drop_app_length' by (rewrite length_replicate; reflexivity).
    reflexivity.
  - rewrite Heq at 2.
    rewrite drop_app_length' by (rewrite length_replicate; reflexivity).
    exact Hhd.
Qed.

Lemma readHeader_match pre k h name :
  NUL ∉ name -> map tolower pre = map tolower name -> hd NUL h <> SP ->
  readHeader (pre ++ replicate k SP ++ h) name = Some h.
Proof.
  intros Hn Hpre Hhd. unfold readHeader. rewrite (strlen_no_NUL name Hn).
  assert (Hlen : length name = length pre).
  { rewrite <- (length_map tolower pre), Hpre, length_map. reflexivity. }
  assert (Hcmp : strncasecmp_eq (pre ++ replicate k SP ++ h) name (length name)
                 = true).
  { apply strncasecmp_prefix; [exact Hn|]. eauto. }
  rewrite Hcmp, Hlen, drop_app_length, skip_spaces by exact Hhd.
  rewrite drop_app_length' by (rewrite length_replicate; reflexivity).
  reflexivity.
Qed.

(** X5. [readHeader] accepts exactly the lines that begin with the name in
    any casing, and hands back what follows the name and the spaces behind
    it. *)
Theorem readHeader_accepts (header name h : list ascii) :
  NUL ∉ name ->
  readHeader header name = Some h
  <-> exists pre k,
        header = pre ++ replicate k SP ++ h
        /\ map tolower pre = map tolower name
        /\ hd NUL h <> SP.
Proof.
  intros Hn. split.
  - apply readHeader_Some, Hn.
  - intros (pre & k & -> & Hpre & Hhd). apply readHeader_match; assumption.
Qed.

Lemma readHeader_accepts_witness :
  readHeader (bytes "Content-TYPE:  text/html") (bytes "content-type:")
  = Some (bytes "text/html").
Proof.
  apply readHeader_accepts; [compute_done|].
  exists (bytes "Content-TYPE:"), 2%nat.
  split; [reflexivity|]. split; [reflexivity|discriminate].
Defined.

(** A header line [name: value] is no status line, is accepted under its
    own name and under no other. *)

Lemma field_not_status name k value :
  fieldName name -> strncmp_eq (field name k value) (bytes "HTTP/") 5 = false.
Proof.
  intros (Hc & Hn & Hh). apply not_true_is_false. intros H.
  apply (strncmp_prefix (bytes "HTTP/")) in H as (rest & Heq);
    [|compute_done].
  unfold field in Heq. symmetry in Heq.
  apply app_split_at in Heq as (m & Hm & _); [| compute_done|exact Hc].
  apply Hh. rewrite Hm. reflexivity.
Qed.

Lemma readHeader_same name k value key :
  lower name = key -> NUL ∉ key -> hd NUL value <> SP ->
  readHeader (field name k value) (key ++ [COLON]) = Some value.
Proof.
  intros Hname Hn Hv.
  replace (field name k value)
    with ((name ++ [COLON]) ++ replicate k SP ++ value)
    by (unfold field; rewrite <- app_assoc; reflexivity).
  apply readHeader_match; [|rewrite !map_app|exact Hv].
  - apply not_elem_of_app. split; [exact Hn|]. compute_done.
  - subst key. fold (lower name). fold (lower (lower name)).
    rewrite lower_idemp. reflexivity.
Qed.

Lemma readHeader_other name k value key :
  COLON ∉ name -> COLON ∉ key -> NUL ∉ key -> lower key = key ->
  lower name <> key ->
  readHeader (field name k value) (key ++ [COLON]) = None.
Proof.
  intros Hc Hkc Hkn Hkl Hne.
  destruct (readHeader (field name k value) (key ++ [COLON])) as [h|] eqn:Hr;
    [|reflexivity].
  exfalso. apply readHeader_Some in Hr as (pre & j & Heq & Hpre & _).
  2:{ apply not_elem_of_app. split; [exact Hkn|]. compute_done. }
  rewrite map_app in Hpre. fold (lower key) in Hpre. rewrite Hkl in Hpre.
  apply map_eq_app in Hpre as (pre1 & pre2 & -> & Hp1 & Hp2).
  destruct pre2 as [|c [|? ?]]; try discriminate Hp2.
  cbn [map] in Hp2. injection Hp2 as Hc2. apply tolower_colon in Hc2. subst c.
  assert (Hp1c : COLON ∉ pre1).
  { intros Hin. apply Hkc. rewrite <- Hp1.
    apply (list_elem_of_fmap_2 tolower) in Hin. exact Hin. }
  unfold field in Heq. rewrite <- app_assoc in Heq. cbn [app] in Heq.
  apply first_occurrence in Heq as [-> _]; [|assumption..].
  apply Hne. exact Hp1.
Qed.

Lemma readHeader_unnamed key l :
  NUL ∉ key -> ~ named key l -> readHeader l (key ++ [COLON]) = None.
Proof.
  intros Hn Hl.
  destruct (readHeader l (key ++ [COLON])) as [h|] eqn:Hr; [|reflexivity].
  exfalso. apply Hl.
  apply readHeader_Some in Hr as (pre & j & -> & Hpre & _).
  2:{ apply not_elem_of_app. split; [exact Hn|]. compute_done. }
  assert (Hlen : length pre = (length key + 1)%nat).
  { rewrite <- (length_map tolower pre), Hpre, length_map, length_app. reflexivity. }
  unfold named. rewrite <- Hlen, take_app_length. unfold lower at 1.
  rewrite Hpre, map_app. reflexivity.
Qed.

Lemma headerLine_dispatch name value k st :
  fieldName name -> hd NUL value <> SP ->
  headerLine (field name k value) st = setField name value st.
Proof.
  intros Hname Hv. pose proof Hname as (Hc & Hn & Hh).
  unfold headerLine, setField.
  rewrite field_not_status by exact Hname.
  change (bytes "content-type:") with (bytes "content-type" ++ [COLON]).
  change (bytes "content-length:") with (bytes "content-length" ++ [COLON]).
  change (bytes "transfer-encoding:") with (bytes "transfer-encoding" ++ [COLON]).
  change (bytes "location:") with (bytes "location" ++ [COLON]).
  destruct (decide (lower name = bytes "content-type")) as [H1|H1].
  { rewrite (bool_decide_eq_true_2 _ H1).
    rewrite (readHeader_same name k value _ H1) by (compute_done || exact Hv).
    reflexivity. }
  rewrite (bool_decide_eq_false_2 _ H1).
  rewrite (readHeader_other name k value _ Hc) by (compute_done || exact H1).
  destruct (decide (lower name = bytes "content-length")) as [H2|H2].
  { rewrite (bool_decide_eq_true_2 _ H2).
    rewrite (readHeader_same name k value _ H2) by (compute_done || exact Hv).
    cbv zeta. cbn [contentLength set_contentLength].
    destruct (_ =? 0); reflexivity. }
  rewrite (bool_decide_eq_false_2 _ H2).
  rewrite (readHeader_other name k value _ Hc) by (compute_done || exact H2).
  destruct (decide (lower name = bytes "transfer-encoding")) as [H3|H3].
  { rewrite (bool_decide_eq_true_2 _ H3).
    rewrite (readHeader_same name k value _ H3) by (compute_done || exact Hv).
    change 7%nat with (length (bytes "chunked")).
    rewrite (strncmp_take value (bytes "chunked")) by compute_done.
    reflexivity. }
  rewrite (bool_decide_eq_false_2 _ H3).
  rewrite (readHeader_other name k value _ Hc) by (compute_done || exact H3).
  destruct (decide (lower name = bytes "location")) as [H4|H4].
  { rewrite (bool_decide_eq_true_2 _ H4).
    rewrite (readHeader_same name k value _ H4) by (compute_done || exact Hv).
    reflexivity. }
  rewrite (bool_decide_eq_false_2 _ H4).
  rewrite (readHeader_other name k value _ Hc) by (compute_done || exact H4).
  unfold field. rewrite strchr_found by assumption.
  rewrite take_app_length.
  replace (drop (S (length name)) (name ++ COLON :: replicate k SP ++ value))
    with (replicate k SP ++ value)
    by (rewrite <- Nat.add_1_r, drop_app_add; reflexivity).
  cbv zeta. rewrite skip_spaces by exact Hv.
  rewrite drop_app_length' by (rewrite length_replicate; reflexivity).
  reflexivity.
Qed.

(** X6. A header line [name: value] is dispatched on its lower-cased name,
    and its value is what follows the colon and the spaces: Content-Type,
    Content-Length, Transfer-Encoding and Location set their fields, every
    other name is stored in the header map under its lower-cased form,
    where a lookup finds the value. *)
Theorem headerLine_field (name value : list ascii) (k : nat) (st : Response) :
  fieldName name -> hd NUL value <> SP ->
  headerLine (field name k value) st = setField name value st
  /\ (lower name ∉ [bytes "content-type"; bytes "content-length";
                    bytes "transfer-encoding"; bytes "location"] ->
      headers (headerLine (field name k value) st) !! lower name
      = Some (cstr value)).
Proof.
  intros Hname Hv. rewrite headerLine_dispatch by assumption.
  split; [reflexivity|]. intros Hres. unfold setField.
  rewrite !bool_decide_eq_false_2
    by (intros Heq; apply Hres; rewrite Heq; set_solver).
  cbn [headers set_headers]. apply lookup_insert_eq.
Qed.

Lemma headerLine_field_witness :
  headers (headerLine (bytes "X-Request-Id:   17") newResponse)
    !! bytes "x-request-id"
  = Some (bytes "17").
Proof.
  apply (headerLine_field (bytes "X-Request-Id") (bytes "17") 3 newResponse);
    [repeat split; compute_done | discriminate | compute_done].
Defined.

(** The status line sets the status code to its number. *)

Lemma headerLine_status ver reason code st :
  length ver = 4%nat -> 0 <= code < 65536 ->
  digit_in 10 (hd NUL reason) = None ->
  headerLine (statusLine ver code reason) st = set_statusCode code st.
Proof.
  intros Hver Hcode Hreason.
  destruct ver as [|v1 [|v2 [|v3 [|v4 [|? ?]]]]]; try discriminate Hver.
  unfold headerLine, statusLine.
  assert (Hcmp : strncmp_eq (bytes "HTTP/" ++ [v1; v2; v3; v4] ++ decimal code ++ reason)
                   (bytes "HTTP/") 5 = true).
  { change 5%nat with (length (bytes "HTTP/")).
    apply strncmp_prefix; [compute_done|]. eauto. }
  rewrite Hcmp.
  change (drop 9 (bytes "HTTP/" ++ [v1; v2; v3; v4] ++ decimal code ++ reason))
    with (decimal code ++ reason).
  rewrite strtol_decimal by (unfold LONG_MAX; lia || exact Hreason).
  reflexivity.
Qed.

(** ** One transport read *)

(** X7. One transport read into a buffer of [BUF_SIZE + 1] bytes: it asks
    for [BUF_SIZE] bytes and gets no more, stores them at the start of the
    buffer with a NUL behind them, within the buffer, leaves the bytes
    behind the terminator as they were, adds the count to the body counter
    (modulo the range of [size_t]), records one read on the transport and
    changes neither the cursor nor any parsed field. *)
Theorem readRaw_in_bounds (B : Z) (st : Response) (sk : Socket) (b : list ascii) :
  0 <= B -> socket st = Some sk -> buf st = Some b ->
  Z.of_nat (length b) = B + 1 ->
  exists st',
    let data := fst (sock_read sk B) in
    let len := Z.of_nat (length data) in
    readRaw B st = Ok (len, st')
    /\ 0 <= len <= B
    /\ length (bufData st') = length b
    /\ take (length data) (bufData st') = data
    /\ bufData st' !! length data = Some NUL
    /\ (forall i, (length data < i)%nat -> bufData st' !! i = b !! i)
    /\ bodyRead st' = to_size (bodyRead st + len)
    /\ trace st' = trace st ++ [EvRead len]
    /\ socket st' = Some (snd (sock_read sk B))
    /\ (bufPtr st', bufRemaining st', chunkRemaining st', parsedFields st')
       = (bufPtr st, bufRemaining st, chunkRemaining st, parsedFields st).
Proof.
  intros HB Hsk Hbuf Hlen.
  pose proof (sock_read_length sk B HB) as Hdata.
  unfold readRaw. rewrite Hsk, Hbuf.
  destruct (sock_read sk B) as [data sk'] eqn:Hrd. cbn [fst snd] in *.
  eexists. cbv zeta. split; [reflexivity|].
  unfold bufData. cbn [buf set_buf set_bodyRead add_event set_trace set_socket
                       default bodyRead trace socket bufPtr bufRemaining
                       chunkRemaining from_option id].
  assert (Hl : (length data < length b)%nat) by lia.
  split; [lia|]. split.
  { rewrite length_insert, length_app, length_drop. lia. }
  split.
  { rewrite insert_app_r_alt by lia. rewrite take_app_length. reflexivity. }
  split.
  { apply list_lookup_insert_eq. rewrite length_app, length_drop. lia. }
  split.
  { intros i Hi. rewrite list_lookup_insert_ne by lia.
    rewrite lookup_app_r by lia. rewrite lookup_drop. f_equal. lia. }
  repeat split.
Qed.

Lemma readRaw_in_bounds_witness :
  exists st',
    readRaw 128 (set_buf (Some (replicate 129 "x"%char)) (connect [bytes "hello"]))
      = Ok (5, st')
    /\ take 5 (bufData st') = bytes "hello"
    /\ bufData st' !! 5%nat = Some NUL
    /\ length (bufData st') = 129%nat
    /\ trace st' = [EvRead 5].
Proof.
  destruct (readRaw_in_bounds 128
              (set_buf (Some (replicate 129 "x"%char)) (connect [bytes "hello"]))
              {| rx := [bytes "hello"]; wr := fun n => n |}
              (replicate 129 "x"%char))
    as (st' & Hraw & _ & Hlen & Htake & Hnul & _ & _ & Htrace & _);
    [lia|reflexivity|reflexivity|reflexivity|].
  exists st'. split; [exact Hraw|]. split; [exact Htake|].
  split; [exact Hnul|]. split; [exact Hlen|exact Htrace].
Defined.

(** ** Header blocks *)

Lemma parsedFields_eq a b :
  parsedFields a = parsedFields b ->
  statusCode a = statusCode b /\ contentLength a = contentLength b
  /\ contentType a = contentType b /\ location a = location b
  /\ isChunked a = isChunked b /\ headers a = headers b
  /\ isComplete a = isComplete b /\ isRedirect a = isRedirect b.
Proof. unfold parsedFields. intros [= -> -> -> -> -> -> -> ->]. repeat split. Qed.

(** The attribute [P] of the response after the lines is that after the
    last line that touches it. *)
Lemma parseLines_last {T : Type} (P : Response -> T) ls1 f ls2 st :
  Forall (fun l => forall s, P (headerLine l s) = P s) ls2 ->
  P (parseLines (ls1 ++ f :: ls2) st) = P (headerLine f (parseLines ls1 st)).
Proof.
  intros Hls2. rewrite parseLines_app.
  change (parseLines (f :: ls2) (parseLines ls1 st))
    with (parseLines ls2 (headerLine f (parseLines ls1 st))).
  generalize (headerLine f (parseLines ls1 st)). clear st.
  induction Hls2 as [|l ls2 Hl _ IH]; intros s; [reflexivity|].
  change (parseLines (l :: ls2) s) with (parseLines ls2 (headerLine l s)).
  rewrite IH. apply Hl.
Qed.

Lemma parseLines_untouched {T : Type} (P : Response -> T) ls st :
  Forall (fun l => forall s, P (headerLine l s) = P s) ls ->
  P (parseLines ls st) = P st.
Proof.
  intros Hls. revert st. induction Hls as [|l ls Hl _ IH]; intros s; [reflexivity|].
  change (parseLines (l :: ls) s) with (parseLines ls (headerLine l s)).
  rewrite IH. apply Hl.
Qed.

(** The lines that leave a field of the response alone. *)

Lemma headerLine_statusCode l st :
  take 5 l <> bytes "HTTP/" -> statusCode (headerLine l st) = statusCode st.
Proof.
  intros H. unfold headerLine.
  change 5%nat with (length (bytes "HTTP/")).
  rewrite strncmp_take by compute_done.
  rewrite bool_decide_eq_false_2 by exact H.
  break_header; reflexivity.
Qed.

Lemma headerLine_headers_other name l st :
  ~ named name l ->
  headers (headerLine l st) !! lower name = headers st !! lower name.
Proof.
  intros Hl. unfold headerLine.
  destruct (strncmp_eq l _ 5); [reflexivity|].
  destruct (readHeader l (bytes "content-type:")); [reflexivity|].
  destruct (readHeader l (bytes "content-length:")).
  { cbn [contentLength set_contentLength]. destruct (_ =? 0); reflexivity. }
  destruct (readHeader l (bytes "transfer-encoding:")); [reflexivity|].
  destruct (readHeader l (bytes "location:")); [reflexivity|].
  destruct (strchr l ":") as [colon|] eqn:Hc; [|reflexivity].
  cbn [headers set_headers]. apply lookup_insert_ne.
  intros Heq. apply Hl.
  apply strchr_Some in Hc as [Hsplit _].
  assert (Hlen : length (take colon l) = length name).
  { fold (lower (take colon l)) in Heq.
    rewrite <- (length_map tolower (take colon l)), <- (length_map tolower name).
    unfold lower in Heq. rewrite Heq. reflexivity. }
  unfold named. rewrite Hsplit, <- Hlen.
  change (":"%char :: drop (S colon) l) with ([COLON] ++ drop (S colon) l).
  rewrite app_assoc.
  rewrite take_app_length' by (rewrite length_app; reflexivity).
  unfold lower. rewrite map_app. unfold lower in Heq. rewrite Heq. reflexivity.
Qed.

Lemma headerLine_location_other l st :
  ~ named (bytes "location") l ->
  location (headerLine l st) = location st
  /\ isRedirect (headerLine l st) = isRedirect st.
Proof.
  intros Hl. unfold headerLine.
  change (bytes "location:") with (bytes "location" ++ [COLON]).
  rewrite (readHeader_unnamed (bytes "location") l) by (compute_done || exact Hl).
  destruct (strncmp_eq l _ 5); [split; reflexivity|].
  destruct (readHeader l (bytes "content-type:")); [split; reflexivity|].
  destruct (readHeader l (bytes "content-length:")).
  { cbn [contentLength set_contentLength]. destruct (_ =? 0); split; reflexivity. }
  destruct (readHeader l (bytes "transfer-encoding:")); [split; reflexivity|].
  destruct (strchr l ":"); split; reflexivity.
Qed.

Lemma headerLine_contentLength_other l st :
  ~ named (bytes "content-length") l ->
  contentLength (headerLine l st) = contentLength st.
Proof.
  intros Hl. unfold headerLine.
  change (bytes "content-length:") with (bytes "content-length" ++ [COLON]).
  rewrite (readHeader_unnamed (bytes "content-length") l)
    by (compute_done || exact Hl).
  break_header; reflexivity.
Qed.

Lemma headerLine_isChunked_other l st :
  ~ named (bytes "transfer-encoding") l ->
  isChunked (headerLine l st) = isChunked st.
Proof.
  intros Hl. unfold headerLine.
  change (bytes "transfer-encoding:") with (bytes "transfer-encoding" ++ [COLON]).
  rewrite (readHeader_unnamed (bytes "transfer-encoding") l)
    by (compute_done || exact Hl).
  destruct (strncmp_eq l _ 5); [reflexivity|].
  destruct (readHeader l (bytes "content-type:")); [reflexivity|].
  destruct (readHeader l (bytes "content-length:")).
  { cbn [contentLength set_contentLength]. destruct (_ =? 0); reflexivity. }
  destruct (readHeader l (bytes "location:")); [reflexivity|].
  destruct (strchr l ":"); reflexivity.
Qed.

Lemma headerLine_isComplete_other l st :
  ~ named (bytes "content-length") l ->
  isComplete (headerLine l st) = isComplete st.
Proof.
  intros Hl. unfold headerLine.
  change (bytes "content-length:") with (bytes "content-length" ++ [COLON]).
  rewrite (readHeader_unnamed (bytes "content-length") l)
    by (compute_done || exact Hl).
  break_header; reflexivity.
Qed.

Lemma plain_field_value ls1 name k value ls2 :
  Forall plain (ls1 ++ field name k value :: ls2) -> NUL ∉ value.
Proof.
  intros Hplain. apply Forall_app in Hplain as [_ Hplain].
  apply Forall_cons in Hplain as [(_ & _ & Hnul) _].
  unfold field in Hnul. intros Hin. apply Hnul.
  apply elem_of_app. right. apply elem_of_cons. right.
  apply elem_of_app. right. exact Hin.
Qed.

(** X8. The status code of a response is the number in its status line:
    for a header block that starts with a status line and has no further
    line beginning with [HTTP/], delivered in fills that do not separate a
    CR from its LF, header parsing returns with that number as status
    code. *)
Theorem readHeaders_status B st sk ver code reason rest body fills post :
  delivery B (statusLine ver code reason :: rest) body fills ->
  socket st = Some sk -> rx sk = fills ++ post ->
  length ver = 4%nat -> 0 <= code < 65536 ->
  digit_in 10 (hd NUL reason) = None ->
  Forall (fun l => take 5 l <> bytes "HTTP/") rest ->
  exists st',
    (forall fuel, (length fills <= fuel)%nat -> readHeaders B fuel st = Ok st')
    /\ statusCode st' = code.
Proof.
  intros Hdel Hsk Hrx Hver Hcode Hreason Hrest.
  destruct (readHeaders_lines B st sk _ body fills post Hdel Hsk Hrx)
    as (st' & Hrun & Hfields).
  exists st'. split; [exact Hrun|].
  injection Hfields as -> _ _ _ _ _ _ _.
  rewrite (parseLines_untouched statusCode rest).
  - rewrite headerLine_status by assumption. reflexivity.
  - eapply Forall_impl; [exact Hrest|]. intros l Hl s.
    apply headerLine_statusCode, Hl.
Qed.

Lemma readHeaders_status_witness :
  statusCode (returned (readHeaders 128 1 (connect [wire (lengthHead 11)]))) = 200.
Proof.
  destruct (readHeaders_status 128 (connect [wire (lengthHead 11)])
              {| rx := [wire (lengthHead 11)]; wr := fun n => n |}
              (bytes "1.1 ") 200 (bytes " OK")
              [field (bytes "Content-Length") 1 (decimal 11)] []
              [wire (lengthHead 11)] [])
    as (st' & Hrun & Hcode).
  - split; [|split].
    + repeat constructor; compute_done.
    + repeat constructor; compute_done.
    + vm_compute. reflexivity.
  - reflexivity.
  - reflexivity.
  - reflexivity.
  - lia.
  - reflexivity.
  - repeat constructor; compute_done.
  - rewrite (Hrun 1%nat) by (cbn; lia). exact Hcode.
Defined.

(** X9. A header other than the four that the parser keeps in fields of
    their own is found in the header map under its lower-cased name, with
    the value of its last occurrence. *)
Theorem readHeaders_field_lookup B st sk ls1 name k value ls2 body fills post :
  delivery B (ls1 ++ field name k value :: ls2) body fills ->
  socket st = Some sk -> rx sk = fills ++ post ->
  fieldName name -> hd NUL value <> SP ->
  lower name ∉ [bytes "content-type"; bytes "content-length";
                bytes "transfer-encoding"; bytes "location"] ->
  Forall (fun l => ~ named name l) ls2 ->
  exists st',
    (forall fuel, (length fills <= fuel)%nat -> readHeaders B fuel st = Ok st')
    /\ headers st' !! lower name = Some value.
Proof.
  intros Hdel Hsk Hrx Hname Hv Hres Hls2.
  destruct (readHeaders_lines B st sk _ body fills post Hdel Hsk Hrx)
    as (st' & Hrun & Hfields).
  exists st'. split; [exact Hrun|].
  apply parsedFields_eq in Hfields as (_ & _ & _ & _ & _ & -> & _).
  rewrite (parseLines_last (fun s => headers s !! lower name) ls1 _ ls2).
  2:{ eapply Forall_impl; [exact Hls2|]. intros l Hl s.
      apply headerLine_headers_other, Hl. }
  rewrite headerLine_dispatch by assumption.
  unfold setField.
  rewrite !bool_decide_eq_false_2
    by (intros Heq; apply Hres; rewrite Heq; set_solver).
  cbn [headers set_headers]. rewrite lookup_insert_eq.
  f_equal. apply cstr_no_NUL.
  destruct Hdel as (Hplain & _). apply Forall_app in Hplain as [_ Hplain].
  apply Forall_cons in Hplain as [(_ & _ & Hnul) _].
  unfold field in Hnul. intros Hin. apply Hnul.
  apply elem_of_app. right. apply elem_of_cons. right.
  apply elem_of_app. right. exact Hin.
Qed.

Lemma readHeaders_field_lookup_witness :
  headers (returned (readHeaders 128 1
             (connect [wire [bytes "HTTP/1.1 200 OK"; bytes "X-Tag: a";
                             bytes "x-tag:b"]])))
    !! bytes "x-tag"
  = Some (bytes "b").
Proof.
  destruct (readHeaders_field_lookup 128
              (connect [wire [bytes "HTTP/1.1 200 OK"; bytes "X-Tag: a";
                              bytes "x-tag:b"]])
              {| rx := [wire [bytes "HTTP/1.1 200 OK"; bytes "X-Tag: a";
                              bytes "x-tag:b"]]; wr := fun n => n |}
              [bytes "HTTP/1.1 200 OK"; bytes "X-Tag: a"]
              (bytes "x-tag") 0 (bytes "b") [] []
              [wire [bytes "HTTP/1.1 200 OK"; bytes "X-Tag: a";
                     bytes "x-tag:b"]] [])
    as (st' & Hrun & Hlook).
  - split; [|split].
    + repeat constructor; compute_done.
    + repeat constructor; compute_done.
    + vm_compute. reflexivity.
  - reflexivity.
  - reflexivity.
  - repeat split; compute_done.
  - discriminate.
  - compute_done.
  - constructor.
  - rewrite (Hrun 1%nat) by (cbn; lia). exact Hlook.
Defined.

(** X10. A Location header makes the response a redirect, whatever its
    status code, and the target is the value of the last one; without a
    Location header the response is no redirect. *)
Theorem readHeaders_location B st sk lines body fills post :
  delivery B lines body fills ->
  socket st = Some sk -> rx sk = fills ++ post ->
  exists st',
    (forall fuel, (length fills <= fuel)%nat -> readHeaders B fuel st = Ok st')
    /\ (forall ls1 name k value ls2,
          lines = ls1 ++ field name k value :: ls2 ->
          fieldName name -> lower name = bytes "location" ->
          hd NUL value <> SP ->
          Forall (fun l => ~ named (bytes "location") l) ls2 ->
          isRedirect st' = true /\ location st' = value)
    /\ (Forall (fun l => ~ named (bytes "location") l) lines ->
        isRedirect st' = false).
Proof.
  intros Hdel Hsk Hrx.
  destruct (readHeaders_lines B st sk _ body fills post Hdel Hsk Hrx)
    as (st' & Hrun & Hfields).
  exists st'. split; [exact Hrun|].
  apply parsedFields_eq in Hfields as (_ & _ & _ & Hloc & _ & _ & _ & Hred).
  split.
  - intros ls1 name k value ls2 -> Hname Hlow Hv Hls2.
    pose proof (parseLines_last (fun s => (isRedirect s, location s))
                  ls1 (field name k value) ls2 (cleared st)) as Hlast.
    cbv beta in Hlast. rewrite <- Hred, <- Hloc in Hlast.
    rewrite headerLine_dispatch in Hlast by assumption.
    unfold setField in Hlast.
    rewrite Hlow in Hlast.
    change (bool_decide (bytes "location" = bytes "content-type")) with false in Hlast.
    change (bool_decide (bytes "location" = bytes "content-length")) with false in Hlast.
    change (bool_decide (bytes "location" = bytes "transfer-encoding")) with false in Hlast.
    change (bool_decide (bytes "location" = bytes "location")) with true in Hlast.
    cbv iota in Hlast. cbn [isRedirect location set_location set_isRedirect] in Hlast.
    rewrite cstr_no_NUL in Hlast
      by (destruct Hdel as (Hp & _); eapply plain_field_value; exact Hp).
    assert (Hpair : (isRedirect st', location st') = (true, value)).
    { apply Hlast. eapply Forall_impl; [exact Hls2|]. intros l Hl s.
      destruct (headerLine_location_other l s Hl) as [-> ->]. reflexivity. }
    injection Hpair as -> ->. split; reflexivity.
  - intros Hnone. rewrite Hred.
    rewrite (parseLines_untouched isRedirect lines); [reflexivity|].
    eapply Forall_impl; [exact Hnone|]. intros l Hl s.
    apply headerLine_location_other, Hl.
Qed.

Lemma readHeaders_location_witness :
  (fun st => (statusCode st, isRedirect st, location st))
    (returned (readHeaders 128 1
       (connect [wire [bytes "HTTP/1.1 201 Created";
                       bytes "Location: http://h/x"]])))
  = (201, true, bytes "http://h/x").
Proof.
  destruct (readHeaders_location 128
              (connect [wire [bytes "HTTP/1.1 201 Created";
                              bytes "Location: http://h/x"]])
              {| rx := [wire [bytes "HTTP/1.1 201 Created";
                              bytes "Location: http://h/x"]];
                 wr := fun n => n |}
              [bytes "HTTP/1.1 201 Created"; bytes "Location: http://h/x"] []
              [wire [bytes "HTTP/1.1 201 Created";
                     bytes "Location: http://h/x"]] [])
    as (st' & Hrun & Hloc & _).
  - split; [|split].
    + repeat constructor; compute_done.
    + repeat constructor; compute_done.
    + vm_compute. reflexivity.
  - reflexivity.
  - reflexivity.
  - destruct (Hloc [bytes "HTTP/1.1 201 Created"] (bytes "Location") 1%nat
                (bytes "http://h/x") [] eq_refl) as [Hred Htarget].
    + repeat split; compute_done.
    + reflexivity.
    + discriminate.
    + constructor.
    + rewrite (Hrun 1%nat) by (cbn; lia). cbn [returned].
      rewrite Hred, Htarget. f_equal. f_equal.
      assert (H : readHeaders 128 1
                    (connect [wire [bytes "HTTP/1.1 201 Created";
                                    bytes "Location: http://h/x"]]) = Ok st')
        by (apply Hrun; cbn; lia).
      vm_compute in H. injection H as <-. reflexivity.
Defined.



(** X12. A response is chunked exactly when the value of its last
    Transfer-Encoding header begins with [chunked], in this casing; without
    such a header it is not chunked. *)
Theorem readHeaders_chunked B st sk lines body fills post :
  delivery B lines body fills ->
  socket st = Some sk -> rx sk = fills ++ post ->
  exists st',
    (forall fuel, (length fills <= fuel)%nat -> readHeaders B fuel st = Ok st')
    /\ (forall ls1 name k value ls2,
          lines = ls1 ++ field name k value :: ls2 ->
          fieldName name -> lower name = bytes "transfer-encoding" ->
          hd NUL value <> SP ->
          Forall (fun l => ~ named (bytes "transfer-encoding") l) ls2 ->
          (isChunked st' = true <-> take 7 value = bytes "chunked"))
    /\ (Forall (fun l => ~ named (bytes "transfer-encoding") l) lines ->
        isChunked st' = false).
Proof.
  intros Hdel Hsk Hrx.
  destruct (readHeaders_lines B st sk _ body fills post Hdel Hsk Hrx)
    as (st' & Hrun & Hfields).
  exists st'. split; [exact Hrun|].
  apply parsedFields_eq in Hfields as (_ & _ & _ & _ & Hch & _).
  split.
  - intros ls1 name k value ls2 -> Hname Hlow Hv Hls2.
    rewrite Hch.
    rewrite (parseLines_last isChunked ls1 _ ls2).
    2:{ eapply Forall_impl; [exact Hls2|]. intros l Hl s.
        apply headerLine_isChunked_other, Hl. }
    rewrite headerLine_dispatch by assumption.
    unfold setField. rewrite Hlow.
    change (bool_decide (bytes "transfer-encoding" = bytes "content-type")) with false.
    change (bool_decide (bytes "transfer-encoding" = bytes "content-length")) with false.
    change (bool_decide (bytes "transfer-encoding" = bytes "transfer-encoding")) with true.
    cbv iota. cbn [isChunked set_isChunked]. apply bool_decide_eq_true.
  - intros Hnone. rewrite Hch.
    rewrite (parseLines_untouched isChunked lines); [reflexivity|].
    eapply Forall_impl; [exact Hnone|]. intros l Hl s.
    apply headerLine_isChunked_other, Hl.
Qed.

Lemma readHeaders_chunked_witness :
  isChunked (returned (readHeaders 128 1
               (connect [wire [bytes "HTTP/1.1 200 OK";
                               bytes "Transfer-Encoding: gzip, chunked"]])))
  = false.
Proof.
  destruct (readHeaders_chunked 128
              (connect [wire [bytes "HTTP/1.1 200 OK";
                              bytes "Transfer-Encoding: gzip, chunked"]])
              {| rx := [wire [bytes "HTTP/1.1 200 OK";
                              bytes "Transfer-Encoding: gzip, chunked"]];
                 wr := fun n => n |}
              [bytes "HTTP/1.1 200 OK"; bytes "Transfer-Encoding: gzip, chunked"]
              [] [wire [bytes "HTTP/1.1 200 OK";
                        bytes "Transfer-Encoding: gzip, chunked"]] [])
    as (st' & Hrun & Hch & _).
  - split; [|split].
    + repeat constructor; compute_done.
    + repeat constructor; compute_done.
    + vm_compute. reflexivity.
  - reflexivity.
  - reflexivity.
  - rewrite (Hrun 1%nat) by (cbn; lia). cbn [returned].
    destruct (Hch [bytes "HTTP/1.1 200 OK"] (bytes "Transfer-Encoding") 1%nat
                (bytes "gzip, chunked") [] eq_refl) as [Hif _].
    + repeat split; compute_done.
    + reflexivity.
    + discriminate.
    + constructor.
    + destruct (isChunked st'); [|reflexivity].
      specialize (Hif eq_refl). discriminate Hif.
Defined.

(** ** What header parsing keeps *)

Lemma keeps_refl st : keeps st st.
Proof.
  split; [reflexivity|]. split; [auto|].
  exists []. split; [symmetry; apply app_nil_r|constructor].
Qed.

Lemma keeps_trans st1 st2 st3 : keeps st1 st2 -> keeps st2 st3 -> keeps st1 st3.
Proof.
  intros (Hg1 & Hh1 & evs1 & Ht1 & He1) (Hg2 & Hh2 & evs2 & Ht2 & He2).
  split; [congruence|]. split; [auto|].
  exists (evs1 ++ evs2). split.
  - rewrite Ht2, Ht1, app_assoc. reflexivity.
  - apply Forall_app. split; assumption.
Qed.

Ltac keeps_fields :=
  split; [reflexivity|]; split; [cbn; auto|];
  exists []; split; [symmetry; apply app_nil_r|constructor].

Lemma headerLine_keeps l st : keeps st (headerLine l st).
Proof.
  unfold headerLine.
  destruct (strncmp_eq l _ 5); [keeps_fields|].
  destruct (readHeader l (bytes "content-type:")); [keeps_fields|].
  destruct (readHeader l (bytes "content-length:")).
  { cbn [contentLength set_contentLength]. destruct (_ =? 0); keeps_fields. }
  destruct (readHeader l (bytes "transfer-encoding:")); [keeps_fields|].
  destruct (readHeader l (bytes "location:")); [keeps_fields|].
  destruct (strchr l ":") as [colon|]; [|keeps_fields].
  split; [reflexivity|]. split.
  - intros key Hkey. cbn [headers set_headers].
    destruct (decide (map tolower (take colon l) = key)) as [<-|Hne].
    + rewrite lookup_insert_eq. eauto.
    + rewrite lookup_insert_ne by exact Hne. exact Hkey.
  - exists []. split; [symmetry; apply app_nil_r|constructor].
Qed.

Lemma headersDone_keeps B len lineEnd st st' :
  headersDone B len lineEnd st = Ok st' -> keeps st st'.
Proof.
  unfold headersDone.
  destruct (_ <? len); [|intros [= <-]; apply keeps_refl].
  cbn [isComplete contentLength set_bodyRead set_bufRemaining set_bufPtr socket].
  destruct (negb _ && _); [|intros [= <-]; keeps_fields].
  destruct (len <? B); [intros [= <-]; keeps_fields|].
  destruct (socket st) as [sk|]; [|discriminate].
  intros [= <-]. split; [reflexivity|]. split; [cbn; auto|].
  eexists. split; [reflexivity|]. repeat constructor.
Qed.

Lemma readRaw_keeps B st len st' :
  readRaw B st = Ok (len, st') -> keeps st st'.
Proof.
  unfold readRaw.
  destruct (socket st) as [sk|]; [|discriminate].
  destruct (buf st) as [b|]; [|discriminate].
  destruct (sock_read sk B) as [data sk'].
  intros [= <- <-]. split; [reflexivity|]. split; [cbn; auto|].
  eexists. split; [reflexivity|]. repeat constructor.
Qed.

Lemma scanLines_keeps B fuel len line lineBuf st complete lineBuf' st' :
  scanLines B fuel len line lineBuf st = Ok (complete, lineBuf', st') ->
  keeps st st'.
Proof.
  revert line lineBuf st. induction fuel as [|fuel IH]; intros line lineBuf st;
    [discriminate|].
  rewrite scanLines_unfold.
  destruct (strstr _ CRLF) as [off|]; [|intros [= <- <- <-]; apply keeps_refl].
  destruct (lineBuf ++ _) as [|c lb].
  - destruct (headersDone B len _ st) as [st1|] eqn:Hd; [|discriminate].
    intros [= <- <- <-]. eapply headersDone_keeps. exact Hd.
  - intros H. apply IH in H.
    eapply keeps_trans; [apply headerLine_keeps|exact H].
Qed.

Lemma fillLoop_keeps B fuel lineBuf st st' :
  fillLoop B fuel lineBuf st = Ok st' -> keeps st st'.
Proof.
  revert lineBuf st. induction fuel as [|fuel IH]; intros lineBuf st;
    [discriminate|].
  rewrite fillLoop_step.
  destruct (readRaw B st) as [[len st1]|] eqn:Hraw; [|discriminate].
  apply readRaw_keeps in Hraw.
  destruct (scanLines B _ len 0 lineBuf st1) as [[[complete lb] st2]|] eqn:Hscan;
    [|discriminate].
  apply scanLines_keeps in Hscan.
  assert (H2 : keeps st st2) by (eapply keeps_trans; eassumption).
  destruct complete.
  - intros [= <-]. exact H2.
  - intros H. apply IH in H. eapply keeps_trans; eassumption.
Qed.

(** X13. Header parsing never sets the gzip flag (a Content-Encoding header
    goes to the header map like any other), never drops a header stored
    before, keeps the redirect count and the transport, and makes no
    transport call other than reads and a poll. *)
Theorem readHeaders_keeps (B : Z) (fuel : nat) (st st' : Response) :
  readHeaders B fuel st = Ok st' ->
  isGzip st' = false
  /\ redirectCount st' = redirectCount st
  /\ is_Some (socket st')
  /\ (forall key, is_Some (headers st !! key) -> is_Some (headers st' !! key))
  /\ exists evs, trace st' = trace st ++ evs /\ Forall receives evs.
Proof.
  intros H. pose proof (readHeaders_same_call B fuel st st' H) as [(Hr & _) Hs].
  unfold readHeaders in H. apply fillLoop_keeps in H as (Hg & Hh & He).
  split; [rewrite Hg; reflexivity|]. split; [exact Hr|]. split; [exact Hs|].
  split.
  - intros key Hkey. apply Hh. destruct (buf st); exact Hkey.
  - destruct He as (evs & Ht & He). exists evs. split; [|exact He].
    rewrite Ht. destruct (buf st); reflexivity.
Qed.

Lemma readHeaders_keeps_witness :
  (fun st => (isGzip st, headers st !! bytes "content-encoding"))
    (returned (readHeaders 128 1
       (connect [wire [bytes "HTTP/1.1 200 OK";
                       bytes "Content-Encoding: gzip"]])))
  = (false, Some (bytes "gzip")).
Proof.
  destruct (readHeaders_keeps 128 1
              (connect [wire [bytes "HTTP/1.1 200 OK";
                              bytes "Content-Encoding: gzip"]])
              (returned (readHeaders 128 1
                 (connect [wire [bytes "HTTP/1.1 200 OK";
                                 bytes "Content-Encoding: gzip"]])))
              ltac:(vm_compute; reflexivity))
    as (Hgzip & _).
  cbv beta. rewrite Hgzip. f_equal.
Defined.

(** On a transport with nothing more to deliver every round of the outer
    loop reads 0 bytes and finds no line end. *)
Lemma fillLoop_dry B fuel :
  forall lineBuf st sk,
    socket st = Some sk -> rx sk = [] -> is_Some (buf st) ->
    fillLoop B fuel lineBuf st = Err OutOfFuel.
Proof.
  induction fuel as [|fuel IH]; intros lineBuf st sk Hsk Hrx [b Hbuf];
    [reflexivity|].
  rewrite fillLoop_step. unfold readRaw, sock_read. rewrite Hsk, Hbuf, Hrx.
  cbn [length Z.of_nat Z.to_nat app drop].
  rewrite scanLines_unfold.
  unfold bufData. cbn [buf set_buf from_option]. unfold id.
  assert (Hnone : strstr (drop 0 (<[0%nat:=NUL]> (drop 0 b))) CRLF = None).
  { destruct b as [|x b]; reflexivity. }
  rewrite Hnone. apply (IH _ _ sk); cbn; eauto.
Qed.

(** X14. When the transport runs dry before the blank line has arrived,
    header parsing never returns: every further read yields 0 bytes, and
    the loop goes on. *)
Theorem readHeaders_truncated (B : Z) (st : Response) (sk : Socket)
    (lines : list (list ascii)) (fills : list (list ascii)) (more : list ascii) :
  Forall plain lines ->
  Forall (fun f => Z.of_nat (length f) <= B /\ whole f) fills ->
  concat fills ++ more = wire lines -> more <> [] ->
  socket st = Some sk -> rx sk = fills ->
  forall fuel, readHeaders B fuel st = Err OutOfFuel.
Proof.
  intros Hlines Hfills Hcat Hmore Hsk Hrx fuel. unfold readHeaders.
  set (st0 := match buf st with
              | Some _ => st
              | None => set_bufPtr 0 (set_buf (Some _) st)
              end).
  assert (H0 : socket st0 = Some sk /\ is_Some (buf st0)).
  { unfold st0. destruct (buf st) eqn:Hb; cbn; rewrite ?Hb; eauto. }
  destruct H0 as (Hsk0 & Hb0).
  set (st1 := set_isStreaming false _).
  assert (H1 : socket st1 = Some sk /\ is_Some (buf st1))
    by (split; [exact Hsk0|exact Hb0]).
  clearbody st1. clear st0 Hsk0 Hb0 Hsk. destruct H1 as [Hsk Hb].
  assert (Hp : CR ∉ ([] : list ascii)) by apply not_elem_of_nil.
  change (concat fills ++ more = wire lines) with
    ([] ++ concat fills ++ more = wire lines) in Hcat.
  revert Hp Hcat Hsk Hb Hrx. generalize (@nil ascii) as p.
  revert fuel st1 sk lines Hlines.
  induction fills as [|f fs IH]; intros fuel st1 sk ls Hls p Hp Hcat Hsk Hb Hrx.
  - apply (fillLoop_dry B fuel p st1 sk); assumption.
  - destruct fuel as [|fuel]; [reflexivity|].
    apply Forall_cons in Hfills as [[Hlen Hf] Hfs].
    destruct Hb as [b Hb].
    destruct (readRaw_fill B st1 sk f fs b Hsk Hrx Hlen Hb)
      as (st2 & tail & Hraw & Hdata & Hend & Hsk2 & Hbuf2 & _).
    cbn [concat] in Hcat. rewrite <- !app_assoc in Hcat.
    rewrite <- (app_nil_r (wire ls)) in Hcat.
    destruct (split_fill ls p f (concat fs ++ more) [] Hls Hp Hf Hcat)
      as [(ls1 & ls2 & q & -> & Hq & Hqcr & Hrest)|[body1 Hb1]].
    + apply Forall_app in Hls as [Hls1 Hls2].
      pose proof (lines_within ls1 p f q Hls1 Hp Hq) as Hfuel.
      destruct (scanLines_lines B (Z.of_nat (length f)) ls1
                  (S (Z.to_nat (Z.of_nat (length f)))) O p st2 f tail q
                  Hls1 Hp Hdata Hend eq_refl Hq ltac:(lia)) as [Hscan _].
      specialize (Hscan Hqcr).
      rewrite fillLoop_step, Hraw, Hscan.
      destruct (parseLines_frame ls1 st2) as (Hb3 & Hs3 & _).
      rewrite app_nil_r in Hrest.
      apply (IH Hfs fuel (parseLines ls1 st2) {| rx := fs; wr := wr sk |}
               ls2 Hls2 q Hqcr Hrest).
      * rewrite Hs3. exact Hsk2.
      * rewrite Hb3. exact Hbuf2.
      * reflexivity.
    + exfalso.
      assert (Hl : length (p ++ f ++ concat fs ++ more)
                   = length (wire ls ++ [])) by (rewrite Hcat; reflexivity).
      rewrite app_assoc, Hb1 in Hl. unfold wire in Hl.
      rewrite ?length_app in Hl. cbn [length] in Hl.
      rewrite ?length_app in Hl. unfold CRLF in Hl.
      destruct more; [contradiction|]. cbn [length] in Hl. lia.
Qed.

Lemma readHeaders_truncated_witness :
  readHeaders 128 9 (connect [take 20 (wire (lengthHead 5))]) = Err OutOfFuel.
Proof.
  apply (readHeaders_truncated 128 (connect [take 20 (wire (lengthHead 5))])
           {| rx := [take 20 (wire (lengthHead 5))]; wr := fun n => n |}
           (lengthHead 5) [take 20 (wire (lengthHead 5))]
           (drop 20 (wire (lengthHead 5)))).
  - repeat constructor; compute_done.
  - repeat constructor; compute_done.
  - vm_compute. reflexivity.
  - vm_compute. discriminate.
  - reflexivity.
  - reflexivity.
Defined.

(** ** From the header block to the body *)

(** Arithmetic of [size_t] sums. *)

Lemma to_size_add_sub a b c : to_size (to_size a + b - c) = to_size (a + b - c).
Proof.
  unfold to_size.
  replace (a mod SIZE_MOD + b - c) with (a mod SIZE_MOD + (b - c)) by lia.
  rewrite Zplus_mod_idemp_l. f_equal. lia.
Qed.

(** Header lines leave the cursor and the counters alone. *)

Lemma headerLine_cursor l st :
  cursor (headerLine l st) = cursor st
  /\ isStreaming (headerLine l st) = isStreaming st
  /\ chunkRemaining (headerLine l st) = chunkRemaining st.
Proof. unfold headerLine. break_header; cbn; auto. Qed.

Lemma parseLines_cursor ls st :
  cursor (parseLines ls st) = cursor st
  /\ isStreaming (parseLines ls st) = isStreaming st
  /\ chunkRemaining (parseLines ls st) = chunkRemaining st.
Proof.
  revert st. induction ls as [|l ls IH]; intros st; [auto|].
  change (parseLines (l :: ls) st) with (parseLines ls (headerLine l st)).
  destruct (IH (headerLine l st)) as (-> & -> & ->). apply headerLine_cursor.
Qed.

(** A fill within the capacity, read into a buffer with room for it and
    the terminator. *)
Lemma readRaw_fill_room B st sk f rest b :
  socket st = Some sk -> rx sk = f :: rest -> Z.of_nat (length f) <= B ->
  buf st = Some b -> (length f < length b)%nat ->
  exists st1 t,
    readRaw B st = Ok (Z.of_nat (length f), st1)
    /\ buf st1 = Some (f ++ NUL :: t)
    /\ length (f ++ NUL :: t) = length b
    /\ socket st1 = Some {| rx := rest; wr := wr sk |}
    /\ parsedFields st1 = parsedFields st
    /\ cursor st1 = (bufPtr st, bufRemaining st,
                     to_size (bodyRead st + Z.of_nat (length f)))
    /\ isStreaming st1 = isStreaming st
    /\ chunkRemaining st1 = chunkRemaining st
    /\ trace st1 = trace st ++ [EvRead (Z.of_nat (length f))].
Proof.
  intros Hsk Hrx Hlen Hbuf Hroom. unfold readRaw, sock_read.
  rewrite Hsk, Hbuf, Hrx. cbv zeta. rewrite (take_ge f), (drop_ge f) by lia.
  destruct (drop (length f) b) as [|x t] eqn:Hd.
  { apply (f_equal length) in Hd. rewrite length_drop in Hd. cbn in Hd. lia. }
  eexists. exists t. split; [reflexivity|].
  assert (Hb' : <[length f:=NUL]> (f ++ x :: t) = f ++ NUL :: t).
  { rewrite insert_app_r_alt by lia. rewrite Nat.sub_diag. reflexivity. }
  cbn [buf set_buf]. rewrite Hb'. split; [reflexivity|]. split.
  { apply (f_equal length) in Hd. rewrite length_drop in Hd. cbn [length] in Hd.
    rewrite length_app. cbn [length]. lia. }
  repeat split.
Qed.

(** The end of the header block, with and without body bytes behind it. *)
Lemma headersDone_body B len lineEnd st :
  lineEnd + 2 < len -> len - (lineEnd + 2) < SIZE_MOD -> is_Some (socket st) ->
  exists st',
    headersDone B len lineEnd st = Ok st'
    /\ cursor st' = (lineEnd + 2, len - (lineEnd + 2), len - (lineEnd + 2))
    /\ buf st' = buf st
    /\ (exists sk, socket st' = Some sk /\ socket st = Some sk)
    /\ parsedFields st' = parsedFields st
    /\ chunkRemaining st' = chunkRemaining st
    /\ (contentLength st <> 0 \/ isComplete st = true -> isStreaming st' = false).
Proof.
  intros Hlt Hsz [sk Hsk]. unfold headersDone.
  destruct (Z.ltb_spec (lineEnd + 2) len) as [_|]; [|lia].
  cbn [isComplete contentLength set_bodyRead set_bufRemaining set_bufPtr socket
       bufPtr bufRemaining].
  assert (Hs : to_size (len - (lineEnd + 2)) = len - (lineEnd + 2))
    by (apply to_size_small; unfold is_size; lia).
  rewrite Hs.
  destruct (negb (isComplete st) && (contentLength st =? 0)) eqn:Hc.
  - apply andb_true_iff in Hc as [Hc1 Hc2].
    apply negb_true_iff in Hc1. apply Z.eqb_eq in Hc2.
    destruct (len <? B).
    + eexists. split; [reflexivity|]. unfold cursor. cbn.
      repeat split; eauto. intros [H|H]; congruence.
    + rewrite Hsk. eexists. split; [reflexivity|]. unfold cursor. cbn.
      repeat split; eauto. intros [H|H]; congruence.
  - eexists. split; [reflexivity|]. unfold cursor. cbn. repeat split; eauto.
Qed.

Lemma headersDone_no_body B len lineEnd st :
  len <= lineEnd + 2 -> headersDone B len lineEnd st = Ok st.
Proof.
  intros H. unfold headersDone.
  destruct (Z.ltb_spec (lineEnd + 2) len); [lia|reflexivity].
Qed.

(** A part without [c] in front of the first [c] ends before it. *)
Lemma app_suffix_at (c : ascii) p :
  forall f Y r, c ∉ p -> p ++ f = Y ++ c :: r -> exists f0, f = f0 ++ c :: r.
Proof.
  induction p as [|x p IH]; intros f Y r Hp Heq.
  - exists Y. exact Heq.
  - apply not_elem_of_cons in Hp as [Hx Hp]. destruct Y as [|y Y].
    + cbn in Heq. injection Heq as -> _. contradiction Hx. reflexivity.
    + cbn in Heq. injection Heq as _ Heq. eapply IH; eassumption.
Qed.

Lemma wireLines_app ls1 ls2 : wireLines (ls1 ++ ls2) = wireLines ls1 ++ wireLines ls2.
Proof. unfold wireLines. rewrite map_app, concat_app. reflexivity. Qed.

Lemma wire_app ls1 ls2 : wire (ls1 ++ ls2) = wireLines ls1 ++ wire ls2.
Proof. unfold wire. rewrite wireLines_app, <- app_assoc. reflexivity. Qed.

(** The outer loop of [readHeaders] over fills that deliver a header block,
    with what it leaves in the buffer and in the transport. *)
Lemma fillLoop_hands_over B fills :
  forall ls p st sk b post body,
    B < SIZE_MOD ->
    Forall plain ls -> CR ∉ p ->
    Forall (fun f => Z.of_nat (length f) <= B /\ whole f) fills ->
    p ++ concat fills = wire ls ++ body ->
    socket st = Some sk -> rx sk = fills ++ post ->
    buf st = Some b -> Z.of_nat (length b) = B + 1 ->
    exists st' j held t,
      (forall fuel, (length fills <= fuel)%nat -> fillLoop B fuel p st = Ok st')
      /\ p ++ concat (take j fills) = wire ls ++ held
      /\ body = held ++ concat (drop j fills)
      /\ socket st' = Some {| rx := drop j fills ++ post; wr := wr sk |}
      /\ parsedFields st' = parsedFields (parseLines ls st)
      /\ chunkRemaining st' = chunkRemaining st
      /\ (exists b', buf st' = Some b' /\ length b' = length b)
      /\ (held = [] ->
          cursor st' = (bufPtr st, bufRemaining st,
                        to_size (bodyRead st + Z.of_nat (length (wire ls))
                                 - Z.of_nat (length p)))
          /\ isStreaming st' = isStreaming st)
      /\ (held <> [] ->
          cursor st' = (bufPtr st', Z.of_nat (length held), Z.of_nat (length held))
          /\ 0 <= bufPtr st'
          /\ bufPtr st' + Z.of_nat (length held) <= B
          /\ atPtr st' = held ++ NUL :: t
          /\ (contentLength st' <> 0 \/ isComplete st' = true ->
              isStreaming st' = false)).
Proof.
  induction fills as [|f fs IH];
    intros ls p st sk b post body HB Hls Hp Hfs Heq Hsk Hrx Hbuf Hblen.
  - cbn in Heq. rewrite app_nil_r in Heq. contradiction Hp.
    rewrite Heq. apply wire_has_CR.
  - apply Forall_cons in Hfs as [[Hlen Hf] Hfs]. cbn [concat] in Heq.
    destruct (readRaw_fill_room B st sk f (fs ++ post) b Hsk Hrx Hlen Hbuf
                ltac:(lia))
      as (st1 & t1 & Hraw & Hbuf1 & Hblen1 & Hsk1 & Hfields1 & Hcur1 & Hstr1 & Hch1
          & _).
    assert (Hdata : bufData st1 = f ++ NUL :: t1)
      by (unfold bufData; rewrite Hbuf1; reflexivity).
    assert (Hend : ended (NUL :: t1)) by (right; eauto).
    destruct (split_fill ls p f (concat fs) body Hls Hp Hf Heq)
      as [(ls1 & ls2 & q & -> & Hq & Hqcr & Hrest)|[body1 Hb]].
    + apply Forall_app in Hls as [Hls1 Hls2].
      pose proof (lines_within ls1 p f q Hls1 Hp Hq) as Hfuel.
      destruct (scanLines_lines B (Z.of_nat (length f)) ls1
                  (S (Z.to_nat (Z.of_nat (length f)))) O p st1 f _ q
                  Hls1 Hp Hdata Hend eq_refl Hq ltac:(lia)) as [Hscan _].
      specialize (Hscan Hqcr).
      destruct (parseLines_frame ls1 st1) as (Hb2 & Hs2 & _).
      destruct (parseLines_cursor ls1 st1) as (Hcur2 & Hstr2 & Hch2).
      destruct (IH ls2 q (parseLines ls1 st1) {| rx := fs ++ post; wr := wr sk |}
                  (f ++ NUL :: t1) post body HB Hls2 Hqcr Hfs Hrest
                  ltac:(rewrite Hs2; exact Hsk1) eq_refl
                  ltac:(rewrite Hb2; exact Hbuf1) ltac:(lia))
        as (st' & j & held & t & Hloop & Htake & Hbody & Hsk' & Hfields & Hch
            & (b' & Hb' & Hb'len) & Hnone & Hsome).
      exists st', (S j), held, t.
      split.
      { intros [|fuel] Hle; [cbn in Hle; lia|].
        rewrite fillLoop_step, Hraw, Hscan. apply Hloop. cbn in Hle. lia. }
      split.
      { cbn [take concat]. rewrite app_assoc, Hq, <- app_assoc, Htake.
        rewrite wire_app, app_assoc. reflexivity. }
      split; [exact Hbody|]. split; [exact Hsk'|]. split.
      { rewrite Hfields, parseLines_app.
        apply parseLines_fields, parseLines_fields, Hfields1. }
      split; [congruence|]. split; [exists b'; split; [exact Hb'|lia]|].
      split; [|exact Hsome].
      intros Hheld. destruct (Hnone Hheld) as [Hc Hs]. split; [|congruence].
      rewrite Hc. unfold cursor in Hcur2, Hcur1.
      injection Hcur2 as -> -> ->. injection Hcur1 as -> -> ->.
      f_equal. rewrite to_size_add_sub. f_equal.
      apply (f_equal length) in Hq. rewrite !length_app in Hq.
      rewrite wire_app, length_app. lia.
    + pose proof (lines_within ls p f _ Hls Hp Hb) as Hfuel.
      destruct (scanLines_lines B (Z.of_nat (length f)) ls
                  (S (Z.to_nat (Z.of_nat (length f)))) O p st1 f _ _
                  Hls Hp Hdata Hend eq_refl Hb ltac:(lia)) as [_ Hscan].
      specialize (Hscan body1 eq_refl).
      destruct (parseLines_frame ls st1) as (Hb2 & Hs2 & _).
      destruct (parseLines_cursor ls st1) as (Hcur2 & Hstr2 & Hch2).
      destruct (app_suffix_at CR p f _ _ Hp Hb) as [f0 Hf0].
      assert (Hflen : length f = (length f0 + 2 + length body1)%nat)
        by (rewrite Hf0, length_app; cbn [length]; lia).
      assert (Hbody : body = body1 ++ concat fs).
      { rewrite app_assoc, Hb in Heq. unfold wire in Heq.
        rewrite <- !app_assoc in Heq. apply app_inv_head in Heq.
        cbn in Heq. injection Heq as Heq. symmetry. exact Heq. }
      assert (Htake : p ++ concat (take 1 (f :: fs)) = wire ls ++ body1).
      { cbn [take concat]. rewrite app_nil_r, Hb. unfold wire.
        rewrite <- app_assoc. reflexivity. }
      destruct body1 as [|c1 body1].
      * rewrite headersDone_no_body in Hscan by (cbn [length]; lia).
        exists (parseLines ls st1), 1%nat, [], [].
        split.
        { intros [|fuel] Hle; [cbn in Hle; lia|].
          rewrite fillLoop_step, Hraw, Hscan. reflexivity. }
        split; [exact Htake|]. split; [exact Hbody|].
        split; [rewrite Hs2; exact Hsk1|].
        split; [apply parseLines_fields, Hfields1|].
        split; [congruence|].
        split; [exists (f ++ NUL :: t1); split; [congruence|exact Hblen1]|].
        split; [|intros H; contradiction H; reflexivity].
        intros _. split; [|congruence].
        rewrite Hcur2, Hcur1. f_equal. f_equal.
        apply (f_equal length) in Hb. rewrite !length_app in Hb.
        cbn [length] in Hb. unfold wire, CRLF. rewrite length_app. cbn [length]. lia.
      * destruct (headersDone_body B (Z.of_nat (length f))
                    (Z.of_nat (0 + length f - length (CR :: LF :: c1 :: body1)))
                    (parseLines ls st1))
          as (st' & Hdone & Hcur & Hbuf' & (sk' & Hsk' & Hsk2) & Hfields & Hch
              & Hstream).
        { cbn [length] in *. lia. }
        { cbn [length] in *. lia. }
        { rewrite Hs2, Hsk1. eauto. }
        rewrite Hdone in Hscan.
        exists st', 1%nat, (c1 :: body1), t1.
        split.
        { intros [|fuel] Hle; [cbn in Hle; lia|].
          rewrite fillLoop_step, Hraw, Hscan. reflexivity. }
        split; [exact Htake|]. split; [exact Hbody|].
        split; [rewrite Hsk'; rewrite Hs2, Hsk1 in Hsk2;
                change (drop 1 (f :: fs)) with fs; congruence|].
        split; [rewrite Hfields; apply parseLines_fields, Hfields1|].
        split; [congruence|].
        split; [exists (f ++ NUL :: t1); split; [congruence|exact Hblen1]|].
        split; [intros H; discriminate H|].
        intros _. unfold cursor in Hcur. injection Hcur as Hptr Hrem Hread.
        cbn [length] in Hflen.
        assert (Hoff : Z.of_nat (length f - S (S (S (length body1)))) + 2
                       = Z.of_nat (length f0 + 2)) by lia.
        rewrite Hoff in Hptr, Hrem, Hread.
        split; [unfold cursor; f_equal; [f_equal|]; cbn [length]; lia|].
        split; [lia|]. split; [cbn [length]; lia|].
        split.
        { unfold atPtr, bufData. rewrite Hbuf', Hb2, Hbuf1, Hptr, Nat2Z.id.
          cbn [default from_option]. unfold id. rewrite Hf0.
          rewrite <- app_assoc.
          change (CR :: LF :: c1 :: body1) with ([CR; LF] ++ c1 :: body1).
          rewrite <- !app_assoc, app_assoc.
          rewrite drop_app_length' by (rewrite length_app; reflexivity).
          reflexivity. }
        { intros H. apply Hstream.
          apply parsedFields_eq in Hfields as (_ & <- & _ & _ & _ & _ & <- & _).
          exact H. }
Qed.

(** What header parsing hands over to the body reader. *)
Lemma readHeaders_handover B st sk lines body fills post :
  0 <= B < SIZE_MOD ->
  delivery B lines body fills ->
  socket st = Some sk -> rx sk = fills ++ post -> buf st = None ->
  exists st' j held t,
    (forall fuel, (length fills <= fuel)%nat -> readHeaders B fuel st = Ok st')
    /\ concat (take j fills) = wire lines ++ held
    /\ body = held ++ concat (drop j fills)
    /\ socket st' = Some {| rx := drop j fills ++ post; wr := wr sk |}
    /\ parsedFields st' = parsedFields (parseLines lines (cleared st))
    /\ chunkRemaining st' = chunkRemaining st
    /\ (exists b', buf st' = Some b' /\ Z.of_nat (length b') = B + 1)
    /\ (held = [] ->
        cursor st' = (0, bufRemaining st,
                      to_size (bodyRead st + Z.of_nat (length (wire lines))))
        /\ isStreaming st' = false)
    /\ (held <> [] ->
        cursor st' = (bufPtr st', Z.of_nat (length held), Z.of_nat (length held))
        /\ 0 <= bufPtr st'
        /\ bufPtr st' + Z.of_nat (length held) <= B
        /\ atPtr st' = held ++ NUL :: t
        /\ (contentLength st' <> 0 \/ isComplete st' = true ->
            isStreaming st' = false)).
Proof.
  intros HB (Hlines & Hfills & Hcat) Hsk Hrx Hbuf. unfold readHeaders.
  rewrite Hbuf.
  set (st0 := set_bufPtr 0 (set_buf (Some (replicate (Z.to_nat (B + 1)) NUL)) st)).
  destruct (fillLoop_hands_over B fills lines [] (cleared st0) sk
              (replicate (Z.to_nat (B + 1)) NUL) post body
              ltac:(lia) Hlines (not_elem_of_nil _) Hfills Hcat Hsk Hrx eq_refl
              ltac:(rewrite length_replicate; lia))
    as (st' & j & held & t & Hloop & Htake & Hbody & Hsk' & Hfields & Hch
        & (b' & Hb' & Hb'len) & Hnone & Hsome).
  exists st', j, held, t.
  split; [exact Hloop|]. split; [exact Htake|]. split; [exact Hbody|].
  split; [exact Hsk'|].
  split; [rewrite Hfields; apply parseLines_fields; reflexivity|].
  split; [exact Hch|].
  split; [exists b'; split; [exact Hb'|]; rewrite Hb'len, length_replicate; lia|].
  split; [|exact Hsome].
  intros Hheld. destruct (Hnone Hheld) as [Hc Hs]. split; [|exact Hs].
  rewrite Hc. cbn [bufPtr bufRemaining bodyRead cleared set_isStreaming
                   set_isRedirect set_isComplete set_isGzip set_isChunked
                   set_contentLength set_statusCode st0 set_bufPtr set_buf length].
  rewrite Z.sub_0_r. reflexivity.
Qed.

(** X15. Header parsing hands the body over without losing or repeating a
    byte: of what the transport was to deliver behind the header block, the
    bytes [held] that came in the fill of the blank line are in the buffer
    at the cursor, counted by [bufRemaining] and [bodyRead], within the
    capacity and with a NUL behind them, and the rest is still to be read
    from the transport.  When no body byte came with the blank line, the
    cursor is not touched and [bodyRead] is left at the size of the header
    block. *)
Theorem readHeaders_hands_over_body (B : Z) (st : Response) (sk : Socket)
    (lines : list (list ascii)) (body : list ascii)
    (fills post : list (list ascii)) :
  0 <= B < SIZE_MOD ->
  delivery B lines body fills ->
  socket st = Some sk -> rx sk = fills ++ post -> buf st = None ->
  exists st' sk' held t,
    (forall fuel, (length fills <= fuel)%nat -> readHeaders B fuel st = Ok st')
    /\ socket st' = Some sk'
    /\ held ++ concat (rx sk') = body ++ concat post
    /\ (held <> [] ->
        atPtr st' = held ++ NUL :: t
        /\ bufRemaining st' = Z.of_nat (length held)
        /\ bodyRead st' = Z.of_nat (length held)
        /\ 0 <= bufPtr st' /\ bufferBound B st')
    /\ (held = [] ->
        bufRemaining st' = bufRemaining st
        /\ bodyRead st'
           = to_size (bodyRead st + Z.of_nat (length (wire lines)))).
Proof.
  intros HB Hdel Hsk Hrx Hbuf.
  destruct (readHeaders_handover B st sk lines body fills post HB Hdel Hsk Hrx Hbuf)
    as (st' & j & held & t & Hrun & _ & Hbody & Hsk' & _ & _ & _ & Hnone & Hsome).
  exists st', {| rx := drop j fills ++ post; wr := wr sk |}, held, t.
  split; [exact Hrun|]. split; [exact Hsk'|]. split.
  { cbn [rx]. rewrite concat_app, app_assoc, <- Hbody. reflexivity. }
  split.
  - intros Hheld. destruct (Hsome Hheld) as (Hcur & Hptr & Hbound & Hat & _).
    unfold cursor in Hcur. injection Hcur as Hbr Hbd.
    unfold bufferBound. rewrite Hbr. auto.
  - intros Hheld. destruct (Hnone Hheld) as (Hcur & _).
    unfold cursor in Hcur. injection Hcur as _ Hbr Hbd. auto.
Qed.

Lemma readHeaders_hands_over_body_witness :
  (fun st => (take 2 (atPtr st), bufRemaining st, rx <$> socket st))
    (returned (readHeaders 128 1
       (connect [wire (lengthHead 5) ++ bytes "he"; bytes "llo"])))
  = (bytes "he", 2, Some [bytes "llo"]).
Proof.
  destruct (readHeaders_hands_over_body 128
              (connect [wire (lengthHead 5) ++ bytes "he"; bytes "llo"])
              {| rx := [wire (lengthHead 5) ++ bytes "he"; bytes "llo"];
                 wr := fun n => n |}
              (lengthHead 5) (bytes "he") [wire (lengthHead 5) ++ bytes "he"]
              [bytes "llo"])
    as (st' & sk' & held & t & Hrun & Hsk' & Hall & Hsome & _).
  - unfold SIZE_MOD, size_bits. lia.
  - split; [|split].
    + repeat constructor; compute_done.
    + repeat constructor; compute_done.
    + vm_compute. reflexivity.
  - reflexivity.
  - reflexivity.
  - reflexivity.
  - assert (H : readHeaders 128 1
                  (connect [wire (lengthHead 5) ++ bytes "he"; bytes "llo"])
                = Ok st') by (apply Hrun; cbn; lia).
    rewrite H. vm_compute in H. injection H as <-.
    vm_compute. reflexivity.
Defined.

(** ** Bodies with a content length *)

(** A skip of all buffered bytes at the end of the body: no transport call,
    the response is complete. *)
Lemma skip_all_complete B st r :
  bufRemaining st = r -> 0 <= r < SIZE_MOD ->
  isComplete st = true
  \/ (contentLength st <> 0 /\ contentLength st <= bodyRead st
      /\ chunkRemaining st = 0) ->
  skip B r false st
  = Ok (false, set_isComplete true
                 (set_bufPtr (bufPtr st + r) (set_bufRemaining 0 st))).
Proof.
  intros Hr Hsz Hdone. unfold skip. rewrite Hr, Z.ltb_irrefl, Z.sub_diag.
  change (to_size 0) with 0.
  cbn [bufRemaining set_bufPtr set_bufRemaining isComplete contentLength
       bodyRead chunkRemaining Z.eqb negb andb].
  assert (Hc : isComplete st
               || (negb (contentLength st =? 0)
                   && (contentLength st <=? bodyRead st)
                   && (chunkRemaining st =? 0)) = true).
  { destruct Hdone as [->|(H1 & H2 & H3)]; [reflexivity|].
    apply orb_true_iff. right.
    destruct (Z.eqb_spec (contentLength st) 0); [contradiction|].
    destruct (Z.leb_spec (contentLength st) (bodyRead st)); [|lia].
    rewrite H3. reflexivity. }
  rewrite Hc. reflexivity.
Qed.

(** A skip of all buffered bytes in the middle of the body: the next fill
    is read to the start of the buffer. *)
Lemma skip_all_refill B st r sk f rest b :
  bufRemaining st = r -> 0 <= r < SIZE_MOD -> B < SIZE_MOD ->
  isComplete st = false ->
  contentLength st = 0 \/ bodyRead st < contentLength st
  \/ chunkRemaining st <> 0 ->
  socket st = Some sk -> rx sk = f :: rest -> f <> [] ->
  Z.of_nat (length f) <= B -> buf st = Some b -> (length f < length b)%nat ->
  exists st' t,
    skip B r false st = Ok (true, st')
    /\ buf st' = Some (f ++ NUL :: t)
    /\ length (f ++ NUL :: t) = length b
    /\ cursor st' = (0, Z.of_nat (length f),
                     to_size (bodyRead st + Z.of_nat (length f)))
    /\ socket st' = Some {| rx := rest; wr := wr sk |}
    /\ trace st' = trace st ++ [EvRead (Z.of_nat (length f))]
    /\ isStreaming st'
       = isStreaming st || ((contentLength st =? 0) && (Z.of_nat (length f) <? B))
    /\ parsedFields st' = parsedFields st
    /\ chunkRemaining st' = chunkRemaining st.
Proof.
  intros Hr Hsz HB Hic Hmore Hsk Hrx Hne Hlen Hbuf Hroom.
  unfold skip. rewrite Hr, Z.ltb_irrefl, Z.sub_diag.
  change (to_size 0) with 0.
  cbn [bufRemaining set_bufPtr set_bufRemaining isComplete contentLength
       bodyRead chunkRemaining Z.eqb negb andb].
  assert (Hc : isComplete st
               || (negb (contentLength st =? 0)
                   && (contentLength st <=? bodyRead st)
                   && (chunkRemaining st =? 0)) = false).
  { rewrite Hic. cbn [orb].
    destruct Hmore as [->|[H|H]]; [reflexivity| |].
    - destruct (Z.leb_spec (contentLength st) (bodyRead st)); [lia|].
      rewrite andb_false_r. reflexivity.
    - destruct (Z.eqb_spec (chunkRemaining st) 0); [contradiction|].
      rewrite andb_false_r. reflexivity. }
  rewrite Hc.
  set (st1 := set_bufPtr _ (set_bufRemaining 0 st)).
  destruct (readRaw_fill_room B st1 sk f rest b Hsk Hrx Hlen Hbuf Hroom)
    as (st2 & t & Hraw & Hbuf2 & Hblen & Hsk2 & Hfields & Hcur & Hstr & Hch
        & Htrace).
  unfold mbind, result_bind. rewrite Hraw.
  cbn [bufRemaining set_bufRemaining set_bufPtr contentLength].
  assert (Hpos : 0 < Z.of_nat (length f)) by (destruct f; [contradiction|cbn; lia]).
  destruct (Z.eqb_spec (Z.of_nat (length f)) 0) as [|_]; [lia|].
  rewrite Z.sub_0_r, (to_size_small (Z.of_nat (length f)))
    by (unfold is_size; lia).
  unfold cursor in Hcur. injection Hcur as Hp2 Hr2 Hb2.
  apply parsedFields_eq in Hfields
    as (Hf1 & Hf2 & Hf3 & Hf4 & Hf5 & Hf6 & Hf7 & Hf8).
  cbn [contentLength set_bufPtr set_bufRemaining statusCode contentType location
       isChunked headers isComplete isRedirect st1] in Hf1, Hf2, Hf3, Hf4, Hf5,
       Hf6, Hf7, Hf8.
  cbn [trace st1 set_bufPtr set_bufRemaining] in Htrace.
  rewrite Hf2.
  destruct ((contentLength st =? 0) && (Z.of_nat (length f) <? B)) eqn:Hs;
    (eexists; exists t; split; [reflexivity|]);
    unfold cursor, parsedFields;
    cbn [buf socket trace isStreaming chunkRemaining bufPtr bufRemaining bodyRead
         statusCode contentLength contentType location isChunked headers
         isComplete isRedirect set_isStreaming set_bufRemaining set_bufPtr];
    rewrite ?Hf1, ?Hf2, ?Hf3, ?Hf4, ?Hf5, ?Hf6, ?Hf7, ?Hf8, ?Hb2, ?Hstr, ?Hch;
    cbn [bodyRead isStreaming chunkRemaining st1 set_bufPtr set_bufRemaining];
    rewrite ?orb_true_r, ?orb_false_r;
    repeat split; try assumption.
Qed.

(** The copy loop over a body with content length [L]: [held] is in the
    buffer, [fills] are still to come, and together they are the rest of
    the body. *)
Lemma copyLoop_content_length B L post fills :
  forall held st lv sk b t,
    0 <= B < SIZE_MOD -> 0 < L < SIZE_MOD ->
    held <> [] -> NUL ∉ held ++ concat fills ->
    Forall (fun f => f <> [] /\ Z.of_nat (length f) <= B) fills ->
    Z.of_nat (length (held ++ concat fills)) <= L ->
    isComplete st = false -> isChunked st = false ->
    contentLength st = L ->
    chunkRemaining st = Z.of_nat (length (held ++ concat fills)) ->
    bufRemaining st = Z.of_nat (length held) ->
    bodyRead st = L - Z.of_nat (length (concat fills)) ->
    atPtr st = held ++ NUL :: t ->
    socket st = Some sk -> rx sk = fills ++ post ->
    buf st = Some b -> Z.of_nat (length b) = B + 1 ->
    toRead lv = Z.of_nat (length (held ++ concat fills)) ->
    dst lv = L - Z.of_nat (length (held ++ concat fills)) ->
    nread lv = dst lv ->
    L < Z.of_nat (length (dstArr lv)) ->
    exists lv' st',
      (forall fuel, (length fills < fuel)%nat ->
         copyLoop B fuel lv st = Ok (lv', st'))
      /\ nread lv' = L /\ toRead lv' = 0
      /\ dstArr lv' = take (Z.to_nat (dst lv)) (dstArr lv)
                      ++ (held ++ concat fills)
                      ++ drop (Z.to_nat L) (dstArr lv)
      /\ isComplete st' = true /\ isChunked st' = false
      /\ contentLength st' = L /\ chunkRemaining st' = 0
      /\ isStreaming st' = isStreaming st
      /\ socket st' = Some {| rx := post; wr := wr sk |}
      /\ trace st' = trace st ++ map readOf fills.
Proof.
  induction fills as [|f fs IH];
    intros held st lv sk b t HB HL Hheld Hnul Hfills Hle Hic Hch Hcl Hcr Hbr Hbd
           Hat Hsk Hrx Hbuf Hblen Htr Hdst Hnr Harr.
  - (* the buffer holds the rest of the body *)
    cbn [concat] in *. rewrite app_nil_r in *. cbn [length] in Hbd.
    set (h := Z.of_nat (length held)) in *.
    assert (Hh : 0 < h) by (destruct held; [contradiction|unfold h; cbn; lia]).
    eexists. eexists. split.
    { intros [|fuel] Hfuel; [cbn in Hfuel; lia|].
      rewrite copyLoop_unfold. rewrite Hcr, Htr, Hbr.
      destruct (Z.eqb_spec h 0) as [|_]; [lia|]. cbn [orb].
      rewrite !Z.min_id. cbv zeta. unfold h at 1. rewrite Nat2Z.id.
      rewrite Hat, strncpy_bytes_held by exact Hnul.
      rewrite store_fits by lia.
      rewrite Z.sub_diag. change (to_size 0) with 0.
      rewrite (skip_all_complete B _ h);
        [|exact Hbr|lia|right; cbn [contentLength bodyRead chunkRemaining
                                      set_chunkRemaining]; lia].
      cbn [negb]. reflexivity. }
    cbn [nread toRead dstArr set_toRead isComplete isChunked contentLength
         chunkRemaining isStreaming socket trace set_isComplete set_bufPtr
         set_bufRemaining set_chunkRemaining map].
    rewrite app_nil_r.
    split; [rewrite Hnr, Hdst; replace (L - h + h) with L by lia;
            apply to_size_small; unfold is_size; lia|].
    split; [reflexivity|]. split.
    { rewrite Hdst. f_equal. f_equal. f_equal. lia. }
    repeat split; try assumption.
    rewrite Hsk. destruct sk as [rx0 wr0]. cbn in Hrx. subst rx0. reflexivity.
  - (* the buffer is copied and refilled *)
    apply Forall_cons in Hfills as [[Hfne Hflen] Hfills].
    cbn [concat] in *.
    set (h := Z.of_nat (length held)) in *.
    set (c := Z.of_nat (length (held ++ f ++ concat fs))) in *.
    assert (Hh : 0 < h) by (destruct held; [contradiction|unfold h; cbn; lia]).
    assert (Hc : c = h + Z.of_nat (length (f ++ concat fs)))
      by (unfold c, h; rewrite length_app; lia).
    assert (Hf : 0 < Z.of_nat (length f)) by (destruct f; [contradiction|cbn; lia]).
    assert (Hfc : Z.of_nat (length (f ++ concat fs))
                  = Z.of_nat (length f) + Z.of_nat (length (concat fs)))
      by (rewrite length_app; lia).
    apply not_elem_of_app in Hnul as [Hnul1 Hnul2].
    assert (Hstore : store (dstArr lv) (dst lv) held
                     = Ok (take (Z.to_nat (dst lv)) (dstArr lv) ++ held
                           ++ drop (Z.to_nat (dst lv) + length held) (dstArr lv)))
      by (apply store_fits; lia).
    set (arr1 := take (Z.to_nat (dst lv)) (dstArr lv) ++ held
                 ++ drop (Z.to_nat (dst lv) + length held) (dstArr lv)) in *.
    assert (Harr1 : length arr1 = length (dstArr lv)).
    { apply store_ok in Hstore as (_ & _ & H & _). exact H. }
    set (st1 := set_chunkRemaining (c - h) st).
    destruct (skip_all_refill B st1 h sk f (fs ++ post) b) as
      (st2 & t2 & Hskip & Hbuf2 & Hblen2 & Hcur2 & Hsk2 & Htr2 & Hstr2 & Hf2 & Hch2);
      try assumption; try lia.
    { right. right. cbn [chunkRemaining st1 set_chunkRemaining]. lia. }
    unfold cursor in Hcur2. injection Hcur2 as Hp2 Hr2 Hb2.
    apply parsedFields_eq in Hf2 as (_ & Hcl2 & _ & _ & Hch2' & _ & Hic2 & _).
    cbn [contentLength isChunked isComplete chunkRemaining bodyRead isStreaming
         trace st1 set_chunkRemaining] in Hcl2, Hch2', Hic2, Hch2, Hb2, Hstr2, Htr2.
    rewrite Hcl, (proj2 (Z.eqb_neq L 0)) in Hstr2 by lia.
    cbn [andb] in Hstr2. rewrite orb_false_r in Hstr2.
    set (lv1 := {| dstArr := arr1; dst := dst lv + h;
                   nread := to_size (nread lv + h);
                   toRead := c - h |}).
    assert (Hs1 : to_size (c - h) = c - h)
      by (apply to_size_small; unfold is_size; lia).
    assert (A1 : isComplete st2 = false) by congruence.
    assert (A2 : isChunked st2 = false) by congruence.
    assert (A3 : contentLength st2 = L) by congruence.
    assert (A4 : chunkRemaining st2 = Z.of_nat (length (f ++ concat fs)))
      by (rewrite Hch2; lia).
    assert (A5 : bodyRead st2 = L - Z.of_nat (length (concat fs))).
    { rewrite Hb2, Hbd. rewrite to_size_small by (unfold is_size; lia). lia. }
    assert (A6 : atPtr st2 = f ++ NUL :: t2).
    { unfold atPtr, bufData. rewrite Hbuf2, Hp2. reflexivity. }
    assert (A7 : toRead lv1 = Z.of_nat (length (f ++ concat fs)))
      by (cbn [toRead lv1]; lia).
    assert (A8 : dst lv1 = L - Z.of_nat (length (f ++ concat fs)))
      by (cbn [dst lv1]; lia).
    assert (A9 : nread lv1 = dst lv1).
    { cbn [nread dst lv1]. rewrite Hnr. apply to_size_small. unfold is_size. lia. }
    assert (A10 : L < Z.of_nat (length (dstArr lv1))) by (cbn [dstArr lv1]; lia).
    assert (A11 : Z.of_nat (length (f ++ NUL :: t2)) = B + 1) by lia.
    destruct (IH f st2 lv1 {| rx := fs ++ post; wr := wr sk |} (f ++ NUL :: t2) t2
                HB HL Hfne Hnul2 Hfills ltac:(lia) A1 A2 A3 A4 Hr2 A5 A6 Hsk2
                eq_refl Hbuf2 A11 A7 A8 A9 A10)
      as (lv' & st' & Hrun & Hn' & Ht' & Hd' & Hic' & Hch' & Hcl' & Hcr' & Hstr'
          & Hsk' & Htr').
    exists lv', st'. split.
    { intros [|fuel] Hfuel; [cbn in Hfuel; lia|].
      rewrite copyLoop_unfold. rewrite Hcr, Htr, Hbr.
      destruct (Z.eqb_spec c 0) as [|_]; [lia|]. cbn [orb].
      rewrite (Z.min_l h c), (Z.min_r c h) by lia. cbv zeta.
      unfold h at 1. rewrite Nat2Z.id.
      rewrite Hat, strncpy_bytes_held by exact Hnul1.
      rewrite Hstore. rewrite Hs1.
      fold st1. rewrite Hskip. cbn [negb].
      rewrite Hch2', Hch. cbn [andb].
      apply Hrun. cbn in Hfuel. lia. }
    split; [exact Hn'|]. split; [exact Ht'|]. split.
    { rewrite Hd'. cbn [dstArr dst lv1].
      assert (Hd0 : (Z.to_nat (dst lv) <= length (dstArr lv))%nat) by lia.
      assert (Hpre : length (take (Z.to_nat (dst lv)) (dstArr lv) ++ held)
                     = (Z.to_nat (dst lv) + length held)%nat)
        by (rewrite length_app, length_take; lia).
      replace (Z.to_nat (dst lv + h)) with (Z.to_nat (dst lv) + length held)%nat
        by (unfold h; lia).
      assert (T1 : take (Z.to_nat (dst lv) + length held) arr1
                   = take (Z.to_nat (dst lv)) (dstArr lv) ++ held).
      { unfold arr1. rewrite app_assoc. apply take_app_length'. symmetry. exact Hpre. }
      assert (T2 : drop (Z.to_nat L) arr1 = drop (Z.to_nat L) (dstArr lv)).
      { unfold arr1. rewrite app_assoc. rewrite drop_app_ge by (rewrite Hpre; unfold h in *; lia).
        rewrite drop_drop. f_equal. rewrite Hpre. unfold h in *. lia. }
      rewrite T1, T2, <- !app_assoc. reflexivity. }
    split; [exact Hic'|]. split; [exact Hch'|]. split; [exact Hcl'|].
    split; [exact Hcr'|]. split; [congruence|]. split; [exact Hsk'|].
    rewrite Htr', Htr2. cbn [map]. rewrite <- app_assoc. reflexivity.
Qed.

(** A body with a content length, part of it in the buffer and the rest
    still to come in non-empty fills, is read whole by one [read] of its
    length. *)
Lemma read_content_length_run B L post fills held st sk b t arr :
  0 <= B < SIZE_MOD -> 0 < L < SIZE_MOD ->
  held <> [] -> NUL ∉ held ++ concat fills ->
  Forall (fun f => f <> [] /\ Z.of_nat (length f) <= B) fills ->
  Z.of_nat (length (held ++ concat fills)) = L ->
  isComplete st = false -> isChunked st = false -> contentLength st = L ->
  chunkRemaining st = 0 ->
  bufRemaining st = Z.of_nat (length held) ->
  bodyRead st = Z.of_nat (length held) ->
  atPtr st = held ++ NUL :: t ->
  socket st = Some sk -> rx sk = fills ++ post ->
  buf st = Some b -> Z.of_nat (length b) = B + 1 ->
  L < Z.of_nat (length arr) ->
  exists arr' st',
    (forall fuel, (length fills + 2 < fuel)%nat ->
       read B fuel arr L st = Ok (L, arr', st'))
    /\ take (Z.to_nat L) arr' = held ++ concat fills
    /\ arr' !! Z.to_nat L = Some NUL
    /\ length arr' = length arr
    /\ isComplete st' = true
    /\ trace st' = trace st ++ map readOf fills
    /\ socket st' = Some {| rx := post; wr := wr sk |}.
Proof.
  intros HB HL Hheld Hnul Hfills Hlen Hic Hch Hcl Hcr Hbr Hbd Hat Hsk Hrx Hbuf
         Hblen Harr.
  set (h := Z.of_nat (length held)) in *.
  assert (Hh : 0 < h) by (destruct held; [contradiction|unfold h; cbn; lia]).
  assert (Hhl : h <= L) by (rewrite <- Hlen, length_app; unfold h; lia).
  set (st0 := set_chunkRemaining L
                (set_bufPtr (bufPtr st + 0) (set_bufRemaining (h - 0) st))).
  set (lv0 := {| dstArr := arr; dst := 0; nread := 0; toRead := L |}).
  assert (Hat0 : atPtr st0 = held ++ NUL :: t).
  { unfold atPtr, bufData in *. cbn [bufPtr buf st0 set_chunkRemaining set_bufPtr
                                       set_bufRemaining].
    rewrite Z.add_0_r. exact Hat. }
  destruct (copyLoop_content_length B L post fills held st0 lv0 sk b t
              HB HL Hheld Hnul Hfills ltac:(lia) Hic Hch Hcl
              ltac:(cbn [chunkRemaining st0 set_chunkRemaining]; lia)
              ltac:(cbn [bufRemaining st0 set_chunkRemaining set_bufPtr
                         set_bufRemaining]; lia)
              ltac:(cbn [bodyRead st0 set_chunkRemaining set_bufPtr
                         set_bufRemaining]; rewrite Hbd;
                    rewrite <- Hlen, length_app; unfold h; lia)
              Hat0 Hsk Hrx Hbuf Hblen
              ltac:(cbn [toRead lv0]; lia) ltac:(cbn [dst lv0]; lia)
              eq_refl Harr)
    as (lv' & st' & Hrun & Hn' & Ht' & Hd' & Hic' & Hch' & Hcl' & Hcr' & Hstr'
        & Hsk' & Htr').
  cbn [dst dstArr lv0] in Hd'. change (Z.to_nat 0) with 0%nat in Hd'.
  rewrite take_0 in Hd'. cbn [app] in Hd'.
  assert (Hlen' : length (dstArr lv') = length arr).
  { rewrite Hd', length_app, length_drop. lia. }
  assert (Hstore : store (dstArr lv') L [NUL]
                   = Ok (take (Z.to_nat L) (dstArr lv') ++ [NUL]
                         ++ drop (Z.to_nat L + 1) (dstArr lv')))
    by (apply store_fits; cbn [length]; lia).
  eexists. exists (set_isComplete true st'). split.
  { intros fuel Hfuel. destruct fuel as [|fuel]; [lia|].
    unfold read. rewrite Hic. fold lv0.
    rewrite readLoop_unfold. cbn [toRead lv0].
    destruct (Z.eqb_spec L 0) as [|_]; [lia|].
    rewrite (skip_buffered B 0 false st) by (rewrite ?Hbr; lia).
    cbn [isChunked contentLength chunkRemaining set_bufPtr set_bufRemaining].
    rewrite Hch, Hcl, Hcr. cbn [andb negb Z.eqb].
    destruct (Z.eqb_spec L 0) as [|_]; [lia|]. cbn [negb andb].
    rewrite Hbr. fold st0.
    rewrite (Hrun fuel) by lia.
    assert (Hloop : (if isStreaming st' && (bufRemaining st' =? 0)
                     then Ok (lv', st') else readLoop B fuel lv' st')
                    = Ok (lv', st')).
    { destruct (isStreaming st' && (bufRemaining st' =? 0)); [reflexivity|].
      destruct fuel as [|fuel]; [lia|].
      rewrite readLoop_unfold, Ht'. reflexivity. }
    rewrite Hloop. unfold mbind, result_bind.
    rewrite Hch', Hcl', Hcr'. cbn [negb andb Z.eqb].
    destruct (Z.eqb_spec L 0) as [|_]; [lia|]. cbn [negb].
    rewrite Hn', Hstore. reflexivity. }
  split.
  { rewrite take_app_length' by (rewrite length_take; lia).
    rewrite Hd'. rewrite take_app_length'; [reflexivity|lia]. }
  split.
  { rewrite lookup_app_r by (rewrite length_take; lia).
    rewrite length_take. replace (Z.to_nat L - _)%nat with 0%nat by lia.
    reflexivity. }
  split.
  { rewrite !length_app, length_take, length_drop. cbn [length]. lia. }
  split; [reflexivity|]. split; [exact Htr'|exact Hsk'].
Qed.

(** A Content-Length header with the number [n]. *)
Lemma setField_content_length name n rest st :
  lower name = bytes "content-length" ->
  0 <= n <= LONG_MAX -> digit_in 10 (hd NUL rest) = None ->
  setField name (decimal n ++ rest) st
  = if n =? 0 then set_isComplete true (set_contentLength n st)
    else set_contentLength n st.
Proof.
  intros Hlow Hn Hrest. unfold setField. rewrite Hlow.
  change (bool_decide (bytes "content-length" = bytes "content-type")) with false.
  change (bool_decide (bytes "content-length" = bytes "content-length")) with true.
  cbv iota zeta. rewrite strtol_decimal by assumption. cbn [fst].
  assert (Hmax : LONG_MAX = 2147483647) by reflexivity.
  assert (Hmod : SIZE_MOD = 4294967296) by reflexivity.
  rewrite to_size_small by (unfold is_size; lia). reflexivity.
Qed.

(** The framing that the lines of a response with one Content-Length header
    of a positive number and without Transfer-Encoding header set up. *)
Lemma parseLines_length_framed ls1 name k n ls2 st :
  fieldName name -> lower name = bytes "content-length" ->
  0 < n <= LONG_MAX ->
  Forall (fun l => ~ named (bytes "content-length") l) (ls1 ++ ls2) ->
  Forall (fun l => ~ named (bytes "transfer-encoding") l)
    (ls1 ++ field name k (decimal n) :: ls2) ->
  let st' := parseLines (ls1 ++ field name k (decimal n) :: ls2) st in
  contentLength st' = n /\ isChunked st' = isChunked st
  /\ isComplete st' = isComplete st.
Proof.
  intros Hname Hlow Hn Hone Hte st'.
  apply Forall_app in Hone as [Hone1 Hone2].
  assert (Hfield : forall s, headerLine (field name k (decimal n)) s
                             = set_contentLength n s).
  { intros s.
    replace (decimal n) with (decimal n ++ []) by apply app_nil_r.
    rewrite headerLine_dispatch by (assumption || (apply decimal_head; lia)).
    rewrite setField_content_length by (assumption || reflexivity || lia).
    destruct (Z.eqb_spec n 0); [lia|reflexivity]. }
  split; [|split].
  - unfold st'. rewrite (parseLines_last contentLength ls1 _ ls2).
    + rewrite Hfield. reflexivity.
    + eapply Forall_impl; [exact Hone2|]. intros l Hl s.
      apply headerLine_contentLength_other, Hl.
  - unfold st'. apply parseLines_untouched.
    eapply Forall_impl; [exact Hte|]. intros l Hl s.
    apply headerLine_isChunked_other, Hl.
  - unfold st'. apply parseLines_untouched.
    apply Forall_app. split; [|apply Forall_cons; split].
    + eapply Forall_impl; [exact Hone1|]. intros l Hl s.
      apply headerLine_isComplete_other, Hl.
    + intros s. rewrite Hfield. reflexivity.
    + eapply Forall_impl; [exact Hone2|]. intros l Hl s.
      apply headerLine_isComplete_other, Hl.
Qed.

(** X16. The whole way for a response with a content length: let the header
    block, with one Content-Length header that gives the length of the body
    and without Transfer-Encoding header, arrive in the fills [hfills]
    together with the first bytes [held] of the body, and the rest of the
    body in the fills [bfills]; let no fill be empty or larger than the
    capacity, no fill of the header block end in a CR or with the blank
    line, and the body be without NUL.  Then [readToString] after header
    parsing returns the body, and the response is complete. *)
Theorem fetch_content_length (B : Z) (ls1 ls2 : list (list ascii))
    (name : list ascii) (k : nat) (held body : list ascii)
    (hfills bfills : list (list ascii)) :
  let L := Z.of_nat (length body) in
  let lines := ls1 ++ field name k (decimal L) :: ls2 in
  0 <= B < SIZE_MOD ->
  delivery B lines held hfills ->
  (forall j, concat (take j hfills) <> wire lines) ->
  body = held ++ concat bfills ->
  Forall (fun f => f <> [] /\ Z.of_nat (length f) <= B) (hfills ++ bfills) ->
  fieldName name -> lower name = bytes "content-length" ->
  Forall (fun l => ~ named (bytes "content-length") l) (ls1 ++ ls2) ->
  Forall (fun l => ~ named (bytes "transfer-encoding") l) lines ->
  body <> [] -> NUL ∉ body -> L <= LONG_MAX ->
  forall fuel, (length hfills + length bfills + 2 < fuel)%nat ->
    outcome (fetch B fuel (hfills ++ bfills)) = Some (body, true).
Proof.
  intros L lines HB Hdel Hcut Hbody Hfills Hname Hlow Hone Hte Hne Hnul HL fuel Hfuel.
  assert (Hmax : LONG_MAX = 2147483647) by reflexivity.
  assert (Hmod : SIZE_MOD = 4294967296) by reflexivity.
  assert (HLpos : 0 < L) by (destruct body; [contradiction|unfold L; cbn; lia]).
  destruct (readHeaders_handover B (connect (hfills ++ bfills))
              {| rx := hfills ++ bfills; wr := fun n => n |}
              lines held hfills bfills HB Hdel eq_refl eq_refl eq_refl)
    as (st' & j & held' & t & Hrun & Htake & Hheld & Hsk' & Hfields & Hcr
        & (b' & Hb' & Hb'len) & _ & Hsome).
  assert (Hheld' : held' <> []).
  { intros ->. rewrite app_nil_r in Htake. exact (Hcut j Htake). }
  destruct (Hsome Hheld') as (Hcur & Hptr & _ & Hat & _).
  unfold cursor in Hcur. injection Hcur as Hbr Hbd.
  destruct (parseLines_length_framed ls1 name k L ls2
              (cleared (connect (hfills ++ bfills))) Hname Hlow ltac:(lia)
              Hone Hte) as (Hcl & Hch & Hic).
  apply parsedFields_eq in Hfields as (_ & Hf2 & _ & _ & Hf5 & _ & Hf7 & _).
  fold lines in Hcl, Hch, Hic. rewrite <- Hf2 in Hcl. rewrite <- Hf5 in Hch.
  rewrite <- Hf7 in Hic. cbn in Hch, Hic.
  apply Forall_app in Hfills as [Hhf Hbf].
  assert (Hrest : Forall (fun f => f <> [] /\ Z.of_nat (length f) <= B)
                    (drop j hfills ++ bfills)).
  { apply Forall_app. split; [apply Forall_drop; exact Hhf|exact Hbf]. }
  assert (Hwhole : held' ++ concat (drop j hfills ++ bfills) = body).
  { rewrite Hbody, Hheld, concat_app, <- app_assoc. reflexivity. }
  destruct (read_content_length_run B L [] (drop j hfills ++ bfills) held' st'
              _ b' t (replicate (S (Z.to_nat L)) NUL)
              HB ltac:(lia) Hheld' ltac:(rewrite Hwhole; exact Hnul) Hrest
              ltac:(rewrite Hwhole; reflexivity) Hic Hch Hcl Hcr Hbr Hbd Hat Hsk'
              ltac:(cbn [rx]; rewrite app_nil_r; reflexivity) Hb' Hb'len
              ltac:(rewrite length_replicate; lia))
    as (arr' & st'' & Hread & Htk & _ & _ & Hic'' & _).
  unfold fetch. rewrite Hrun by lia. unfold mbind, result_bind.
  unfold readToString. rewrite Hcl.
  destruct (Z.eqb_spec L 0) as [|_]; [lia|]. cbn [negb].
  unfold mbind, result_bind. rewrite Hread.
  2:{ rewrite length_app, length_drop. lia. }
  unfold outcome. rewrite Htk, Hwhole. f_equal. f_equal.
  unfold close. destruct (socket st''); cbn; exact Hic''.
Qed.

(** The lines of the examples that begin with no header name in question. *)
Ltac unnamed :=
  cbn [app];
  repeat first
    [ apply Forall_nil_2
    | apply Forall_cons_2; [unfold named; vm_compute; discriminate|] ].

Lemma fetch_content_length_witness :
  outcome (fetch 128 7
             [take 20 (wire (lengthHead 11));
              drop 20 (wire (lengthHead 11)) ++ bytes "he";
              bytes "llo "; bytes "world"])
  = Some (bytes "hello world", true).
Proof.
  apply (fetch_content_length 128
           [statusLine (bytes "1.1 ") 200 (bytes " OK")] []
           (bytes "Content-Length") 1 (bytes "he") (bytes "hello world")
           [take 20 (wire (lengthHead 11));
            drop 20 (wire (lengthHead 11)) ++ bytes "he"]
           [bytes "llo "; bytes "world"]).
  - unfold SIZE_MOD, size_bits. lia.
  - split; [|split].
    + repeat constructor; compute_done.
    + repeat constructor; compute_done.
    + vm_compute. reflexivity.
  - intros [|[|[|j]]]; vm_compute; discriminate.
  - reflexivity.
  - repeat constructor; compute_done.
  - repeat split; compute_done.
  - reflexivity.
  - unnamed.
  - unnamed.
  - discriminate.
  - compute_done.
  - vm_compute. discriminate.
  - cbn. lia.
Defined.

(** With an empty buffer and as many bytes counted as the content length
    declares, [read] gives up at once: it copies nothing, makes no transport
    call and marks the response complete. *)
Lemma read_gives_up B L fuel arr n st :
  isComplete st = false -> isChunked st = false ->
  contentLength st = L -> 0 < L < SIZE_MOD -> L <= bodyRead st ->
  bufRemaining st = 0 -> chunkRemaining st = 0 ->
  0 < n < SIZE_MOD -> arr <> [] ->
  exists st',
    read B (S (S fuel)) arr n st = Ok (0, <[0%nat := NUL]> arr, st')
    /\ isComplete st' = true /\ trace st' = trace st /\ socket st' = socket st.
Proof.
  intros Hic Hch Hcl HL Hbd Hbr Hcr Hn Harr.
  assert (Hmod : SIZE_MOD = 4294967296) by reflexivity.
  unfold read. rewrite Hic.
  rewrite readLoop_unfold. cbn [toRead].
  destruct (Z.eqb_spec n 0) as [|_]; [lia|].
  rewrite (skip_all_complete B st 0) by (assumption || lia || (right; lia)).
  set (st1 := set_isComplete true _).
  cbn [isChunked contentLength chunkRemaining st1 set_isComplete set_bufPtr
       set_bufRemaining].
  rewrite Hch, Hcl, Hcr. cbn [andb negb Z.eqb].
  destruct (Z.eqb_spec L 0) as [|_]; [lia|]. cbn [negb andb].
  rewrite copyLoop_unfold.
  cbn [chunkRemaining set_chunkRemaining toRead bufRemaining st1 set_isComplete
       set_bufPtr set_bufRemaining dstArr dst nread atPtr].
  destruct (Z.eqb_spec L 0) as [|_]; [lia|].
  destruct (Z.eqb_spec n 0) as [|_]; [lia|]. cbn [orb].
  rewrite (Z.min_l 0 L), (Z.min_r n 0) by lia. cbv zeta.
  change (Z.to_nat 0) with 0%nat.
  assert (Hcopy : forall src, strncpy_bytes src 0 = [])
    by (intros src; unfold strncpy_bytes; rewrite Nat.min_0_r; reflexivity).
  rewrite Hcopy.
  rewrite store_fits by (cbn [length]; lia).
  change (take (Z.to_nat 0) arr ++ [] ++ drop (Z.to_nat 0 + length []) arr)
    with arr.
  rewrite !Z.sub_0_r, Z.add_0_r.
  rewrite (to_size_small L), (to_size_small n) by (unfold is_size; lia).
  change (to_size 0) with 0.
  set (st2 := set_chunkRemaining L (set_chunkRemaining L st1)).
  rewrite (skip_all_complete B st2 0)
    by (reflexivity || lia || (left; reflexivity)).
  cbn [negb set_toRead dstArr dst nread toRead].
  set (st3 := set_isComplete true _).
  assert (Hloop : (if isStreaming st3 && (bufRemaining st3 =? 0)
                   then Ok ({| dstArr := arr; dst := 0; nread := 0; toRead := 0 |}, st3)
                   else readLoop B (S fuel)
                          {| dstArr := arr; dst := 0; nread := 0; toRead := 0 |} st3)
                  = Ok ({| dstArr := arr; dst := 0; nread := 0; toRead := 0 |}, st3)).
  { destruct (isStreaming st3 && (bufRemaining st3 =? 0)); [reflexivity|].
    rewrite readLoop_unfold. reflexivity. }
  unfold set_toRead. cbn [dstArr dst nread toRead].
  rewrite Hloop. unfold mbind, result_bind.
  cbn [isChunked contentLength chunkRemaining st3 st2 st1 set_isComplete
       set_bufPtr set_bufRemaining set_chunkRemaining dstArr nread].
  rewrite Hch, Hcl. destruct (Z.eqb_spec L 0) as [|_]; [lia|].
  rewrite andb_false_r.
  destruct arr as [|x arr]; [contradiction|].
  rewrite store_fits by (cbn [length]; lia).
  eexists. split; [reflexivity|]. repeat split.
Qed.

(** X17. When the header block ends exactly at the end of a fill, the count
    of body bytes is left at the size of the header block; a body declared
    no longer than that is then never read: [read] returns 0 without a
    transport call and marks the response complete, and [readToString]
    returns as many NUL bytes as the content length. *)
Theorem body_lost_at_fill_boundary (B L : Z) (ls1 ls2 : list (list ascii))
    (name : list ascii) (k : nat) (hfills bfills : list (list ascii)) :
  let lines := ls1 ++ field name k (decimal L) :: ls2 in
  0 <= B < SIZE_MOD ->
  delivery B lines [] hfills ->
  fieldName name -> lower name = bytes "content-length" ->
  Forall (fun l => ~ named (bytes "content-length") l) (ls1 ++ ls2) ->
  Forall (fun l => ~ named (bytes "transfer-encoding") l) lines ->
  0 < L <= Z.of_nat (length (wire lines)) ->
  Z.of_nat (length (wire lines)) <= LONG_MAX ->
  exists st',
    (forall fuel, (length hfills <= fuel)%nat ->
       readHeaders B fuel (connect (hfills ++ bfills)) = Ok st')
    /\ (forall fuel arr n, 0 < n < SIZE_MOD -> arr <> [] ->
        exists st'',
          read B (S (S fuel)) arr n st' = Ok (0, <[0%nat := NUL]> arr, st'')
          /\ isComplete st'' = true /\ trace st'' = trace st')
    /\ (forall fuel, (length hfills + 2 <= fuel)%nat ->
        outcome (fetch B fuel (hfills ++ bfills))
        = Some (replicate (Z.to_nat L) NUL, true)).
Proof.
  intros lines HB Hdel Hname Hlow Hone Hte HL Hwire.
  assert (Hmax : LONG_MAX = 2147483647) by reflexivity.
  assert (Hmod : SIZE_MOD = 4294967296) by reflexivity.
  destruct (readHeaders_handover B (connect (hfills ++ bfills))
              {| rx := hfills ++ bfills; wr := fun n => n |}
              lines [] hfills bfills HB Hdel eq_refl eq_refl eq_refl)
    as (st' & j & held' & t & Hrun & Htake & Hheld & Hsk' & Hfields & Hcr
        & _ & Hnone & _).
  assert (Hheld' : held' = []) by (destruct held'; [reflexivity|discriminate]).
  destruct (Hnone Hheld') as (Hcur & _).
  unfold cursor in Hcur. injection Hcur as _ Hbr Hbd.
  cbn [bufRemaining bodyRead connect set_socket newResponse] in Hbr, Hbd, Hcr.
  rewrite Z.add_0_l, to_size_small in Hbd by (unfold is_size; lia).
  destruct (parseLines_length_framed ls1 name k L ls2
              (cleared (connect (hfills ++ bfills))) Hname Hlow ltac:(lia)
              Hone Hte) as (Hcl & Hch & Hic).
  apply parsedFields_eq in Hfields as (_ & Hf2 & _ & _ & Hf5 & _ & Hf7 & _).
  fold lines in Hcl, Hch, Hic. rewrite <- Hf2 in Hcl. rewrite <- Hf5 in Hch.
  rewrite <- Hf7 in Hic. cbn in Hch, Hic.
  assert (Hread : forall fuel arr n, 0 < n < SIZE_MOD -> arr <> [] ->
            exists st'',
              read B (S (S fuel)) arr n st' = Ok (0, <[0%nat := NUL]> arr, st'')
              /\ isComplete st'' = true /\ trace st'' = trace st').
  { intros fuel arr n Hn Harr.
    destruct (read_gives_up B L fuel arr n st' Hic Hch Hcl ltac:(lia)
                ltac:(lia) Hbr Hcr Hn Harr) as (st'' & H1 & H2 & H3 & _).
    exists st''. auto. }
  exists st'. split; [exact Hrun|]. split; [exact Hread|].
  intros fuel Hfuel. unfold fetch. rewrite Hrun by lia.
  unfold mbind, result_bind. unfold readToString. rewrite Hcl.
  destruct (Z.eqb_spec L 0) as [|_]; [lia|]. cbn [negb].
  destruct fuel as [|[|fuel]]; [lia|lia|].
  destruct (Hread fuel (replicate (S (Z.to_nat L)) NUL) L ltac:(lia)
              ltac:(discriminate)) as (st'' & Hr & Hic'' & _).
  unfold mbind, result_bind. rewrite Hr. unfold outcome. f_equal. f_equal.
  - change (<[0%nat:=NUL]> (replicate (S (Z.to_nat L)) NUL))
      with (replicate (S (Z.to_nat L)) NUL).
    rewrite take_replicate. f_equal. lia.
  - unfold close. destruct (socket st''); cbn; exact Hic''.
Qed.

Lemma body_lost_at_fill_boundary_witness :
  outcome (fetch 128 3 [wire (lengthHead 5); bytes "hello"])
  = Some (replicate 5 NUL, true).
Proof.
  destruct (body_lost_at_fill_boundary 128 5
              [statusLine (bytes "1.1 ") 200 (bytes " OK")] []
              (bytes "Content-Length") 1 [wire (lengthHead 5)] [bytes "hello"])
    as (st' & _ & _ & Hfetch).
  - unfold SIZE_MOD, size_bits. lia.
  - split; [|split].
    + repeat constructor; compute_done.
    + repeat constructor; compute_done.
    + vm_compute. reflexivity.
  - repeat split; compute_done.
  - reflexivity.
  - unnamed.
  - unnamed.
  - vm_compute. split; [reflexivity|discriminate].
  - vm_compute. discriminate.
  - apply (Hfetch 3%nat). cbn. lia.
Defined.

(** The framing that lines without Content-Length and Transfer-Encoding
    header leave as it is. *)
Lemma parseLines_unframed lines st :
  Forall (fun l => ~ named (bytes "content-length") l) lines ->
  Forall (fun l => ~ named (bytes "transfer-encoding") l) lines ->
  let st' := parseLines lines st in
  contentLength st' = contentLength st /\ isChunked st' = isChunked st
  /\ isComplete st' = isComplete st.
Proof.
  intros Hcl Hte st'. unfold st'. split; [|split]; apply parseLines_untouched.
  - eapply Forall_impl; [exact Hcl|]. intros l Hl s.
    apply headerLine_contentLength_other, Hl.
  - eapply Forall_impl; [exact Hte|]. intros l Hl s.
    apply headerLine_isChunked_other, Hl.
  - eapply Forall_impl; [exact Hcl|]. intros l Hl s.
    apply headerLine_isComplete_other, Hl.
Qed.

(** X18. A response with neither content length nor chunked encoding whose
    first body bytes came with the header block is never read: no [read]
    of one byte or more returns, and no [readToString]. *)
Theorem unframed_body_never_read (B : Z) (lines : list (list ascii))
    (held : list ascii) (hfills bfills : list (list ascii)) :
  0 < B < SIZE_MOD ->
  delivery B lines held hfills ->
  (forall j, concat (take j hfills) <> wire lines) ->
  Forall (fun l => ~ named (bytes "content-length") l) lines ->
  Forall (fun l => ~ named (bytes "transfer-encoding") l) lines ->
  exists st',
    (forall fuel, (length hfills <= fuel)%nat ->
       readHeaders B fuel (connect (hfills ++ bfills)) = Ok st')
    /\ isComplete st' = false
    /\ (forall fuel arr n, n <> 0 -> read B fuel arr n st' = Err OutOfFuel)
    /\ (forall fuel, readToString B fuel st' = Err OutOfFuel).
Proof.
  intros HB Hdel Hcut Hcl Hte.
  destruct (readHeaders_handover B (connect (hfills ++ bfills))
              {| rx := hfills ++ bfills; wr := fun n => n |}
              lines held hfills bfills ltac:(lia) Hdel eq_refl eq_refl eq_refl)
    as (st' & j & held' & t & Hrun & Htake & Hheld & Hsk' & Hfields & Hcr
        & _ & _ & Hsome).
  assert (Hheld' : held' <> []).
  { intros ->. rewrite app_nil_r in Htake. exact (Hcut j Htake). }
  destruct (Hsome Hheld') as (Hcur & Hptr & Hbound & _).
  unfold cursor in Hcur. injection Hcur as Hbr _.
  destruct (parseLines_unframed lines (cleared (connect (hfills ++ bfills)))
              Hcl Hte) as (Hl & Hk & Hc).
  apply parsedFields_eq in Hfields as (_ & Hf2 & _ & _ & Hf5 & _ & Hf7 & _).
  rewrite <- Hf2 in Hl. rewrite <- Hf5 in Hk. rewrite <- Hf7 in Hc.
  cbn in Hl, Hk, Hc.
  assert (Hpos : 0 < Z.of_nat (length held'))
    by (destruct held'; [contradiction|cbn; lia]).
  assert (Hread : forall fuel arr n, n <> 0 -> read B fuel arr n st' = Err OutOfFuel).
  { intros fuel arr n Hn. unfold read. rewrite Hc.
    rewrite readLoop_spins by (assumption || (cbn [toRead]; lia)).
    reflexivity. }
  exists st'. split; [exact Hrun|]. split; [exact Hc|]. split; [exact Hread|].
  intros fuel. unfold readToString. rewrite Hl. cbn [Z.eqb negb].
  destruct fuel as [|fuel]; [reflexivity|].
  cbn [readAll]. rewrite Hread by lia. reflexivity.
Qed.

Lemma unframed_body_never_read_witness :
  read 128 9 (replicate 5 "x"%char) 4
    (returned (readHeaders 128 1
       (connect [wire [bytes "HTTP/1.1 200 OK"] ++ bytes "body"])))
  = Err OutOfFuel.
Proof.
  destruct (unframed_body_never_read 128 [bytes "HTTP/1.1 200 OK"]
              (bytes "body") [wire [bytes "HTTP/1.1 200 OK"] ++ bytes "body"] [])
    as (st' & Hrun & _ & Hread & _).
  - unfold SIZE_MOD, size_bits. lia.
  - split; [|split].
    + repeat constructor; compute_done.
    + repeat constructor; compute_done.
    + vm_compute. reflexivity.
  - intros [|[|j]]; vm_compute; discriminate.
  - unnamed.
  - unnamed.
  - rewrite app_nil_r in Hrun. rewrite (Hrun 1%nat) by (cbn; lia).
    apply Hread. discriminate.
Defined.

(** ** What the body reader keeps *)

Lemma reading_refl st : reading st st.
Proof.
  split; [reflexivity|]. split; [auto|].
  exists []. split; [symmetry; apply app_nil_r|constructor].
Qed.

Lemma reading_trans st1 st2 st3 :
  reading st1 st2 -> reading st2 st3 -> reading st1 st3.
Proof.
  intros (Hv1 & Hs1 & evs1 & Ht1 & He1) (Hv2 & Hs2 & evs2 & Ht2 & He2).
  split; [congruence|]. split; [auto|].
  exists (evs1 ++ evs2). split.
  - rewrite Ht2, Ht1, app_assoc. reflexivity.
  - apply Forall_app. split; assumption.
Qed.

Ltac reading_fields :=
  split; [reflexivity|]; split; [cbn; eauto|];
  first [ exists []; split; [symmetry; apply app_nil_r|constructor]
        | eexists; split; [reflexivity|repeat constructor] ].

Lemma skip_reading B len dontRead st ok st' :
  skip B len dontRead st = Ok (ok, st') -> reading st st'.
Proof.
  unfold skip, readRaw, mbind, result_bind.
  destruct st as [sc cl ct loc hs ich igz icp ird ist rc so bf bp br bd cr tr].
  cbn [bufRemaining bufPtr isComplete contentLength bodyRead chunkRemaining
       set_bufRemaining set_bufPtr socket buf trace].
  destruct ((_ =? 0) && negb dontRead).
  - destruct (icp || _).
    + intros [= <- <-]. reading_fields.
    + destruct so as [sk|]; [|discriminate]. destruct bf as [b|]; [|discriminate].
      destruct (sock_read sk B) as [data sk'].
      cbn. repeat break_if; intros [= <- <-]; reading_fields.
  - intros [= <- <-]. reading_fields.
Qed.

Lemma set_chunkRemaining_reading v st : reading st (set_chunkRemaining v st).
Proof. reading_fields. Qed.

Lemma set_isComplete_reading v st : reading st (set_isComplete v st).
Proof. reading_fields. Qed.

Lemma chunkSize_reading B st go st' :
  chunkSize B st = Ok (go, st') -> reading st st'.
Proof.
  unfold chunkSize, mbind, result_bind.
  destruct (Ascii.eqb _ _).
  { intros [= <- <-]. apply set_isComplete_reading. }
  destruct (strchr (atPtr st) CR) as [e|].
  - destruct (strtol (atPtr st) 16) as [v e'].
    intros H. apply skip_reading in H.
    eapply reading_trans; [apply set_chunkRemaining_reading|exact H].
  - destruct (skip B (bufRemaining st) false st) as [[more s1]|] eqn:H1;
      [|discriminate].
    apply skip_reading in H1.
    destruct more; cbn [negb]; [|intros [= <- <-]; exact H1].
    destruct (strchr (atPtr s1) CR) as [e|]; [|intros [= <- <-]; exact H1].
    destruct (stoul _ 16) as [v|]; [|discriminate].
    intros H2. apply skip_reading in H2.
    eapply reading_trans; [exact H1|].
    eapply reading_trans; [apply set_chunkRemaining_reading|exact H2].
Qed.

Lemma copyLoop_reading B fuel lv st lv' st' :
  copyLoop B fuel lv st = Ok (lv', st') -> reading st st'.
Proof.
  revert lv st. induction fuel as [|fuel IH]; intros lv st; [discriminate|].
  cbn [copyLoop]. unfold mbind, result_bind.
  destruct (_ || _); [intros [= <- <-]; apply reading_refl|].
  destruct (store _ _ _) as [arr|]; [|discriminate].
  destruct (skip B _ false _) as [[more st1]|] eqn:H1; [|discriminate].
  apply skip_reading in H1.
  assert (H1' : reading st st1)
    by (eapply reading_trans; [apply set_chunkRemaining_reading|exact H1]).
  destruct more; cbn [negb]; [|intros [= <- <-]; exact H1'].
  destruct (isChunked st1 && _).
  - destruct (skip B 2 _ st1) as [[more2 st2]|] eqn:H2; [|discriminate].
    apply skip_reading in H2. intros H3. apply IH in H3.
    eapply reading_trans; [exact H1'|]. eapply reading_trans; eassumption.
  - intros H3. apply IH in H3. eapply reading_trans; eassumption.
Qed.

Lemma readLoop_reading B fuel lv st lv' st' :
  readLoop B fuel lv st = Ok (lv', st') -> reading st st'.
Proof.
  revert lv st. induction fuel as [|fuel IH]; intros lv st; [discriminate|].
  cbn [readLoop]. unfold mbind, result_bind.
  destruct (toRead lv =? 0); [intros [= <- <-]; apply reading_refl|].
  destruct (skip B 0 false st) as [[more st1]|] eqn:H1; [|discriminate].
  apply skip_reading in H1.
  destruct (if isChunked st1 && _ then _ else _) as [[go st2]|] eqn:H2;
    [|discriminate].
  assert (H2' : reading st1 st2).
  { destruct (isChunked st1 && _); [eapply chunkSize_reading; exact H2|].
    destruct (negb _ && _); injection H2 as <- <-;
      [apply set_chunkRemaining_reading | apply reading_refl]. }
  destruct go; cbn [negb];
    [|intros [= <- <-]; eapply reading_trans; eassumption].
  destruct (copyLoop B fuel lv st2) as [[lv1 st3]|] eqn:H3; [|discriminate].
  apply copyLoop_reading in H3.
  assert (H03 : reading st st3)
    by (eapply reading_trans; [exact H1|]; eapply reading_trans; eassumption).
  destruct (isStreaming st3 && _); [intros [= <- <-]; exact H03|].
  intros H4. apply IH in H4. eapply reading_trans; eassumption.
Qed.

(** X19. A [read] that returns has left alone what the header parser set
    (status code, content length, content type, location, the chunked,
    gzip and redirect flags, the headers and the redirect count) and has
    kept the transport; the transport calls it has added are reads: it
    never opens, writes or closes. *)
Theorem read_only_reads (B : Z) (fuel : nat) (arr : list ascii) (n : Z)
    (st : Response) (k : Z) (arr' : list ascii) (st' : Response) :
  read B fuel arr n st = Ok (k, arr', st') ->
  headerView st' = headerView st
  /\ (is_Some (socket st) -> is_Some (socket st'))
  /\ exists evs, trace st' = trace st ++ evs /\ Forall isRead evs.
Proof.
  unfold read, mbind, result_bind.
  destruct (isComplete st).
  - destruct (store arr 0 [NUL]); [|discriminate].
    intros [= <- <- <-]. apply reading_refl.
  - destruct (readLoop B fuel _ st) as [[lv st1]|] eqn:Hloop; [|discriminate].
    apply readLoop_reading in Hloop.
    destruct (store _ _ _); [|discriminate].
    intros [= <- <- <-].
    destruct (negb _ && _ && _); [|exact Hloop].
    eapply reading_trans; [exact Hloop|apply set_isComplete_reading].
Qed.

Lemma read_only_reads_witness :
  exists k arr' st',
    read 128 8 (replicate 101 "x"%char) 100
      (streamingState (bytes "5" ++ CRLF ++ bytes "He")
         0 [bytes "llo" ++ CRLF ++ bytes "0" ++ CRLF ++ CRLF])
    = Ok (k, arr', st')
    /\ headerView st'
       = headerView (streamingState (bytes "5" ++ CRLF ++ bytes "He")
                       0 [bytes "llo" ++ CRLF ++ bytes "0" ++ CRLF ++ CRLF])
    /\ Forall isRead (trace st').
Proof.
  eexists. eexists. eexists. split; [vm_compute; reflexivity|].
  match goal with
  | |- headerView ?s = _ /\ _ =>
      destruct (read_only_reads 128 8 (replicate 101 "x"%char) 100
                  (streamingState (bytes "5" ++ CRLF ++ bytes "He")
                     0 [bytes "llo" ++ CRLF ++ bytes "0" ++ CRLF ++ CRLF])
                  5 (bytes "Hello" ++ NUL :: replicate 95 "x"%char) s
                  ltac:(vm_compute; reflexivity))
        as (Hview & _ & evs & Htrace & Hreads)
  end.
  split; [exact Hview|]. rewrite Htrace. exact Hreads.
Defined.

(** X20. A [read] of no bytes between two units of a body with content
    length, as before the first byte is read, ends the body: it marks the
    response complete, and every later [read] returns 0. *)
Theorem read_nothing_completes (B : Z) (fuel : nat) (arr : list ascii)
    (st : Response) :
  isComplete st = false -> isChunked st = false ->
  contentLength st <> 0 -> chunkRemaining st = 0 -> arr <> [] ->
  read B (S fuel) arr 0 st = Ok (0, <[0%nat := NUL]> arr, set_isComplete true st)
  /\ forall fuel' arr' n, arr' <> [] ->
       exists arr'',
         read B fuel' arr' n (set_isComplete true st)
         = Ok (0, arr'', set_isComplete true st).
Proof.
  intros Hic Hch Hcl Hcr Harr. split.
  - unfold read. rewrite Hic, readLoop_unfold. cbn [toRead Z.eqb].
    unfold mbind, result_bind. rewrite Hch, Hcr. cbn [negb andb Z.eqb].
    destruct (Z.eqb_spec (contentLength st) 0) as [|_]; [contradiction|].
    cbn [negb nread dstArr].
    destruct arr as [|x arr]; [contradiction|].
    rewrite store_fits by (cbn [length]; lia). reflexivity.
  - intros fuel' arr' n Harr'.
    destruct (read_complete B fuel' arr' n (set_isComplete true st) eq_refl Harr')
      as (arr'' & Hr & _).
    exists arr''. exact Hr.
Qed.

Lemma read_nothing_completes_witness :
  exists st arr,
    readHeaders 128 1 (connect [wire (lengthHead 5) ++ bytes "hello"]) = Ok st
    /\ read 128 1 (replicate 6 "x"%char) 0 st
       = Ok (0, NUL :: replicate 5 "x"%char, set_isComplete true st)
    /\ read 128 9 (replicate 6 "x"%char) 5 (set_isComplete true st)
       = Ok (0, arr, set_isComplete true st).
Proof.
  eexists. 
  match goal with
  | |- exists arr, ?h = Ok ?s /\ _ =>
      assert (Hrun : h = Ok s) by (vm_compute; reflexivity);
      destruct (read_nothing_completes 128 0 (replicate 6 "x"%char) s)
        as (Hzero & Hlater);
        [reflexivity|reflexivity|discriminate|reflexivity|discriminate|];
      destruct (Hlater 9%nat (replicate 6 "x"%char) 5 ltac:(discriminate))
        as (arr & Harr);
      exists arr; split; [exact Hrun|]; split; [exact Hzero|exact Harr]
  end.
Defined.

(** ** The redirect limit *)

(** X21. The redirects that [executeImpl] follows stay within the limit:
    with a limit of 0 or more the response returned has followed no more
    redirects than the limit, and if it is itself a redirect the limit is
    reached; with a negative limit no redirect is ever returned.  The
    transport calls returned are those of the response. *)
Theorem redirects_bounded (B : Z) (net : bool -> list ascii -> Z -> Socket)
    (req : HTTPRequest) (fuel : nat) :
  forall (url : list ascii) (response r : Response) (t : list event),
    executeImpl B net fuel req url response = Ok (Some r, t) ->
    redirectCount response <= redirectCount r
    /\ t = trace r
    /\ (0 <= maxRedirects req ->
        redirectCount response <= maxRedirects req ->
        redirectCount r <= maxRedirects req
        /\ (isRedirect r = true -> redirectCount r = maxRedirects req))
    /\ (maxRedirects req < 0 -> isRedirect r = false).
Proof.
  induction fuel as [|fuel IH]; intros url response r t; [discriminate|].
  rewrite executeImpl_leg.
  destruct (leg B net fuel req url response) as [[r1|t1]|] eqn:Hleg;
    [|discriminate..].
  pose proof (leg_same_call _ _ _ _ _ _ _ Hleg) as (Hcount & Hsock & _).
  pose proof (redirected_spec r1 Hsock) as (Hc' & _).
  unfold follows.
  destruct (isRedirect r1) eqn:Hred; cbn [andb].
  - destruct (Z.ltb_spec (maxRedirects req) 0) as [Hneg|Hpos]; cbn [orb].
    + intros H. apply IH in H as (H1 & H2 & H3 & H4).
      split; [lia|]. split; [exact H2|]. split; [lia|exact H4].
    + destruct (Z.ltb_spec (redirectCount r1) (maxRedirects req)) as [Hlt|Hge].
      * intros H. apply IH in H as (H1 & H2 & H3 & H4).
        split; [lia|]. split; [exact H2|]. split; [|exact H4].
        intros H0 Hle. apply H3; lia.
      * intros [= <- <-]. split; [lia|]. split; [reflexivity|].
        split; [|lia]. intros _ Hle. split; [lia|]. intros _. lia.
  - intros [= <- <-]. split; [lia|]. split; [reflexivity|].
    split; [|intros _; exact Hred]. intros _ Hle. split; [lia|].
    rewrite Hred. discriminate.
Qed.

Lemma redirects_bounded_witness :
  exists r t,
    execute 128 sampleNet 4 (sampleReq 1) = Ok (Some r, t)
    /\ 0 <= redirectCount r <= 1 /\ t = trace r.
Proof.
  eexists. eexists. split; [vm_compute; reflexivity|].
  match goal with
  | |- _ <= redirectCount ?r <= _ /\ ?t = _ =>
      destruct (redirects_bounded 128 sampleNet (sampleReq 1) 4
                  (bytes "http://a.example/") newResponse r t
                  ltac:(vm_compute; reflexivity))
        as (Hlow & Htrace & Hup & _)
  end.
  destruct (Hup ltac:(cbn; lia) ltac:(cbn; lia)) as [Hle _].
  cbn [redirectCount newResponse maxRedirects sampleReq] in Hlow, Hle.
  split; [split; [exact Hlow|exact Hle]|exact Htrace].
Defined.

(** ** Chunked bodies *)

Lemma isxdigit_class c :
  isxdigit c ->
  c <> NUL /\ c <> CR /\ c <> "-"%char /\ c <> "+"%char /\ isspace c = false.
Proof.
  intros [d Hd]. revert Hd.
  destruct c as [[] [] [] [] [] [] [] []]; vm_compute; intros Hd;
    try discriminate Hd; repeat split; discriminate.
Qed.

Lemma scan_digits_stop base sz :
  forall r a k,
    Forall (fun c => is_Some (digit_in base c)) sz ->
    digit_in base (hd NUL r) = None ->
    scan_digits base (sz ++ r) a k
    = (fst (scan_digits base sz a k), (k + length sz)%nat).
Proof.
  induction sz as [|c sz IH]; intros r a k Hall Hr.
  - cbn [app scan_digits length fst]. rewrite Nat.add_0_r.
    destruct r as [|x r]; [reflexivity|]. cbn [hd] in Hr.
    cbn [scan_digits]. rewrite Hr. reflexivity.
  - apply Forall_cons in Hall as [[d Hd] Hall].
    cbn [app scan_digits length]. rewrite Hd.
    rewrite IH by assumption. f_equal. lia.
Qed.

(** [strtol] on a size line that ends at a CR. *)
Lemma strtol_hexSize sz n rest :
  hexSize sz n -> 0 <= n <= LONG_MAX ->
  strtol (sz ++ CR :: rest) 16 = (n, length sz).
Proof.
  intros (Hne & Hzero & Hall & Hval) Hn.
  destruct sz as [|c sz]; [contradiction|]. cbn [hd] in Hzero.
  pose proof Hall as Hall0.
  apply Forall_cons in Hall as [Hc _].
  destruct (isxdigit_class c Hc) as (_ & _ & Hm & Hp & Hsp).
  unfold strtol, scan_number.
  cbn [app skip_while]. rewrite Hsp. cbn [drop].
  rewrite (eqb_neq_false c "-"), (eqb_neq_false c "+") by assumption.
  cbn [drop].
  assert (Hpx : match c :: sz ++ CR :: rest with
                | z :: x :: h :: _ =>
                    if (16 =? 16) && Ascii.eqb z "0"
                       && (Ascii.eqb x "x" || Ascii.eqb x "X")
                       && bool_decide (is_Some (digit_in 16 h))
                    then 2%nat else O
                | _ => O
                end = O).
  { rewrite (eqb_neq_false c "0") by exact Hzero.
    destruct (sz ++ CR :: rest) as [|x [|h t]]; reflexivity. }
  rewrite Hpx. cbn [drop].
  change (c :: sz ++ CR :: rest) with ((c :: sz) ++ CR :: rest).
  rewrite (scan_digits_stop 16 (c :: sz)) by (exact Hall0 || reflexivity).
  rewrite Hval. cbn [length Nat.add].
  rewrite Z.min_l by lia. reflexivity.
Qed.

Lemma advanced_trans j k a b c :
  advanced j a b -> advanced k b c -> advanced (j + k) a c.
Proof.
  intros (A1 & A2 & A3 & A4 & A5 & A6 & A7 & A8)
         (B1 & B2 & B3 & B4 & B5 & B6 & B7 & B8).
  unfold advanced. rewrite B1, B2, B3, B4, B5, B6, B7, B8.
  repeat split; try assumption; lia.
Qed.

Lemma advanced_atPtr k st st' :
  advanced k st st' -> 0 <= bufPtr st -> 0 <= k ->
  atPtr st' = drop (Z.to_nat k) (atPtr st).
Proof.
  intros (A1 & A2 & _) Hp Hk. unfold atPtr, bufData.
  rewrite A1, A2, Z2Nat.inj_add, drop_drop by lia. reflexivity.
Qed.

Lemma skip_advances B k d st :
  0 <= k < bufRemaining st -> bufRemaining st < SIZE_MOD ->
  exists st', skip B k d st = Ok (true, st') /\ advanced k st st'
              /\ chunkRemaining st' = chunkRemaining st.
Proof.
  intros Hk Hsz. rewrite skip_buffered by lia.
  eexists. split; [reflexivity|]. repeat split.
Qed.

Lemma strlen_app_ge p r : NUL ∉ p -> (length p <= strlen (p ++ r))%nat.
Proof.
  induction p as [|c p IH]; intros H; [cbn; lia|].
  apply not_elem_of_cons in H as [Hc H]. cbn [app strlen length].
  rewrite (eqb_neq_false c NUL) by congruence. specialize (IH H). lia.
Qed.

Lemma hexSize_no_CR sz n : hexSize sz n -> (CR ∉ sz) /\ (NUL ∉ sz).
Proof.
  intros (_ & _ & Hall & _). induction Hall as [|c sz Hc _ IH].
  - split; apply not_elem_of_nil.
  - destruct (isxdigit_class c Hc) as (Hn & Hr & _). destruct IH.
    split; apply not_elem_of_cons; split; congruence.
Qed.

(** The size line of a chunk that is wholly buffered. *)
Lemma chunkSize_buffered B st sz n rest :
  hexSize sz n -> 0 <= n <= LONG_MAX ->
  atPtr st = sz ++ CRLF ++ rest ->
  Z.of_nat (length sz) + 2 < bufRemaining st < SIZE_MOD ->
  exists st', chunkSize B st = Ok (true, st')
              /\ advanced (Z.of_nat (length sz) + 2) st st'
              /\ chunkRemaining st' = n.
Proof.
  intros Hsz Hn Hat Hrem.
  assert (Hmax : LONG_MAX = 2147483647) by reflexivity.
  assert (Hmod : SIZE_MOD = 4294967296) by reflexivity.
  destruct (hexSize_no_CR sz n Hsz) as [Hcr Hnul].
  pose proof Hsz as (Hne & Hzero & _).
  unfold chunkSize. rewrite Hat.
  destruct sz as [|c sz]; [contradiction|]. cbn [hd] in Hzero.
  change (hd NUL ((c :: sz) ++ CRLF ++ rest)) with c.
  rewrite (eqb_neq_false c "0") by exact Hzero.
  change ((c :: sz) ++ CRLF ++ rest) with ((c :: sz) ++ CR :: LF :: rest).
  rewrite strchr_found by assumption.
  rewrite (strtol_hexSize (c :: sz) n) by assumption.
  rewrite to_size_small by (unfold is_size; lia).
  destruct (skip_advances B (Z.of_nat (length (c :: sz)) + 2) false
              (set_chunkRemaining n st)) as (st' & Hskip & Hadv & Hcr').
  { cbn [bufRemaining set_chunkRemaining]. lia. }
  { cbn [bufRemaining set_chunkRemaining]. lia. }
  exists st'. split; [exact Hskip|]. split; [|exact Hcr'].
  destruct st; exact Hadv.
Qed.

(** The payload of a chunk that is wholly buffered, with the CRLF behind
    it. *)
Lemma copyLoop_chunk B lv st p rest :
  p <> [] -> NUL ∉ p ->
  isChunked st = true -> chunkRemaining st = Z.of_nat (length p) ->
  atPtr st = p ++ CRLF ++ rest -> 0 <= bufPtr st ->
  Z.of_nat (length p) + 2 < bufRemaining st < SIZE_MOD ->
  Z.of_nat (length p) <= toRead lv < SIZE_MOD ->
  0 <= dst lv -> dst lv + Z.of_nat (length p) <= Z.of_nat (length (dstArr lv)) ->
  0 <= nread lv -> nread lv + Z.of_nat (length p) < SIZE_MOD ->
  exists st', (forall fuel,
                 copyLoop B (S (S fuel)) lv st = Ok (copied p lv, st'))
              /\ advanced (Z.of_nat (length p) + 2) st st'
              /\ chunkRemaining st' = 0.
Proof.
  intros Hne Hnul Hch Hcr Hat Hptr Hrem Hto Hd0 Hd1 Hn0 Hn1.
  assert (Hpos : 0 < Z.of_nat (length p))
    by (destruct p; [contradiction|cbn [length]; lia]).
  destruct (skip_advances B (Z.of_nat (length p)) false (set_chunkRemaining 0 st))
    as (st1 & Hs1 & Hadv1 & Hcr1).
  { cbn [bufRemaining set_chunkRemaining]. lia. }
  { cbn [bufRemaining set_chunkRemaining]. lia. }
  assert (Hadv1' : advanced (Z.of_nat (length p)) st st1)
    by (destruct st; exact Hadv1).
  cbn [chunkRemaining set_chunkRemaining] in Hcr1.
  pose proof Hadv1' as (_ & _ & Hr1 & Hk1 & _).
  destruct (skip_advances B 2 (isStreaming st1) st1 ltac:(lia) ltac:(lia))
    as (st2 & Hs2 & Hadv2 & Hcr2).
  exists st2. split; [|split; [eapply advanced_trans; eassumption|congruence]].
  intros fuel.
  rewrite copyLoop_unfold. rewrite Hcr.
  destruct (Z.eqb_spec (Z.of_nat (length p)) 0) as [|_]; [lia|].
  destruct (Z.eqb_spec (toRead lv) 0) as [|_]; [lia|].
  cbn [orb]. cbv zeta.
  rewrite (Z.min_r (bufRemaining st)) by lia.
  rewrite Z.min_r by lia. rewrite Nat2Z.id.
  rewrite Hat, strncpy_bytes_exact by (apply strlen_app_ge; exact Hnul).
  rewrite take_app_length.
  rewrite store_fits by lia.
  rewrite Z.sub_diag.
  rewrite !to_size_small by (unfold is_size; lia).
  change (to_size 0) with 0.
  rewrite Hs1. cbn [negb].
  rewrite Hk1, Hch, Hcr1. cbn [andb Z.eqb].
  rewrite Hs2. rewrite copyLoop_unfold. rewrite Hcr2, Hcr1. cbn [Z.eqb orb].
  reflexivity.
Qed.

Lemma wireChunks_cons c cs : wireChunks (c :: cs) = wireChunk c ++ wireChunks cs.
Proof. reflexivity. Qed.

Lemma payloads_cons c cs : payloads (c :: cs) = c.2 ++ payloads cs.
Proof. reflexivity. Qed.

Lemma wireChunk_length c :
  Z.of_nat (length (wireChunk c))
  = (Z.of_nat (length c.1) + 2) + (Z.of_nat (length c.2) + 2).
Proof.
  unfold wireChunk, CRLF. rewrite !length_app. cbn [length]. lia.
Qed.

Lemma copied_app p q lv :
  0 <= dst lv ->
  dst lv + Z.of_nat (length p) <= Z.of_nat (length (dstArr lv)) ->
  copied q (copied p lv) = copied (p ++ q) lv.
Proof.
  intros H0 H1. unfold copied. cbn [dstArr dst nread toRead].
  rewrite length_app, Nat2Z.inj_add.
  f_equal; try lia.
  rewrite Z2Nat.inj_add, Nat2Z.id by lia.
  set (d := Z.to_nat (dst lv)).
  assert (Hd : (d + length p <= length (dstArr lv))%nat) by (unfold d; lia).
  rewrite take_app_ge; rewrite length_take; [|lia].
  replace (d `min` length (dstArr lv))%nat with d by lia.
  replace (d + length p - d)%nat with (length p) by lia.
  rewrite take_app_length'.
  2:{ reflexivity. }
  rewrite <- !app_assoc. f_equal. f_equal. f_equal.
  rewrite drop_app_ge; rewrite length_take; [|lia].
  replace (d `min` length (dstArr lv))%nat with d by lia.
  rewrite drop_app_ge by lia.
  rewrite drop_drop. f_equal. lia.
Qed.

Lemma copied_nil lv :
  0 <= dst lv -> copied [] lv = lv.
Proof.
  intros H. unfold copied. cbn [length app]. rewrite Nat.add_0_r, take_drop.
  destruct lv; cbn. f_equal; lia.
Qed.

(** The main loop of [read] over a chunked body that is wholly buffered:
    it copies the payloads out and ends at the last chunk, without a call
    on the transport. *)
Lemma readLoop_chunked B cs :
  forall st lv rest,
    Forall chunkOk cs ->
    isChunked st = true -> chunkRemaining st = 0 ->
    atPtr st = wireChunks cs ++ "0"%char :: rest -> 0 <= bufPtr st ->
    Z.of_nat (length (wireChunks cs)) < bufRemaining st < SIZE_MOD ->
    Z.of_nat (length (payloads cs)) < toRead lv < SIZE_MOD ->
    0 <= dst lv ->
    dst lv + Z.of_nat (length (payloads cs)) <= Z.of_nat (length (dstArr lv)) ->
    0 <= nread lv -> nread lv + Z.of_nat (length (payloads cs)) < SIZE_MOD ->
    exists st',
      (forall fuel, (length cs + 2 <= fuel)%nat ->
         readLoop B fuel lv st = Ok (copied (payloads cs) lv, st'))
      /\ isComplete st' = true /\ isChunked st' = true
      /\ trace st' = trace st /\ socket st' = socket st
      /\ headerView st' = headerView st.
Proof.
  induction cs as [|[sz p] cs IH];
    intros st lv rest Hok Hch Hcr Hat Hptr Hrem Hto Hd0 Hd1 Hn0 Hn1.
  - cbn [wireChunks payloads map concat length app] in *.
    exists (set_isComplete true
              (set_bufPtr (bufPtr st + 0)
                 (set_bufRemaining (bufRemaining st - 0) st))).
    split; [|repeat split; cbn; assumption].
    intros [|fuel] Hfuel; [lia|].
    rewrite readLoop_unfold.
    destruct (Z.eqb_spec (toRead lv) 0) as [|_]; [lia|].
    rewrite skip_buffered by lia.
    cbn [isChunked chunkRemaining set_bufPtr set_bufRemaining].
    rewrite Hch, Hcr. cbn [Z.eqb andb].
    unfold chunkSize.
    replace (atPtr (set_bufPtr (bufPtr st + 0)
                      (set_bufRemaining (bufRemaining st - 0) st)))
      with (atPtr st)
      by (unfold atPtr, bufData; cbn; rewrite Z.add_0_r; reflexivity).
    rewrite Hat. cbn [hd]. cbn [negb]. rewrite copied_nil by exact Hd0.
    reflexivity.
  - apply Forall_cons in Hok as [(Hsz & Hne & Hnul & Hmax) Hok].
    cbn [fst snd] in Hsz, Hne, Hnul, Hmax.
    rewrite wireChunks_cons in Hat, Hrem. rewrite payloads_cons in Hto, Hd1, Hn1.
    cbn [snd] in Hto, Hd1, Hn1.
    rewrite length_app in Hrem, Hto, Hd1, Hn1.
    pose proof (wireChunk_length (sz, p)) as Hlen. cbn [fst snd] in Hlen.
    assert (Hpos : 0 < Z.of_nat (length p))
      by (destruct p; [contradiction|cbn [length]; lia]).
    (* the skip at the head of the round *)
    destruct (skip_advances B 0 false st ltac:(lia) ltac:(lia))
      as (sa & Hsa & Hadva & Hcra).
    (* the size line *)
    destruct (chunkSize_buffered B sa sz (Z.of_nat (length p))
                (p ++ CRLF ++ wireChunks cs ++ "0"%char :: rest))
      as (sb & Hsb & Hadvb & Hcrb).
    { exact Hsz. }
    { lia. }
    { rewrite (advanced_atPtr 0 st sa) by (assumption || lia).
      change (Z.to_nat 0) with O. rewrite drop_0, Hat. unfold wireChunk.
      cbn [fst snd]. rewrite <- !app_assoc. reflexivity. }
    { destruct Hadva as (_ & _ & Hr & _). lia. }
    pose proof (advanced_trans _ _ _ _ _ Hadva Hadvb) as Hab.
    (* the payload *)
    destruct (copyLoop_chunk B lv sb p
                (wireChunks cs ++ "0"%char :: rest))
      as (sc & Hsc & Hadvc & Hcrc); try assumption; try lia.
    { destruct Hab as (_ & _ & _ & Hk & _). congruence. }
    { rewrite (advanced_atPtr _ st sb Hab) by lia. rewrite Hat. unfold wireChunk.
      cbn [fst snd]. rewrite <- !app_assoc.
      replace (Z.to_nat (0 + (Z.of_nat (length sz) + 2)))
        with (length sz + 2)%nat by lia.
      rewrite drop_app_add. reflexivity. }
    { destruct Hab as (_ & Hp & _). lia. }
    { destruct Hab as (_ & _ & Hr & _). lia. }
    pose proof (advanced_trans _ _ _ _ _ Hab Hadvc) as Hac.
    (* the chunks that follow *)
    destruct (IH sc (copied p lv) rest Hok) as (st' & Hrun & Hfin).
    { destruct Hac as (_ & _ & _ & Hk & _). congruence. }
    { exact Hcrc. }
    { rewrite (advanced_atPtr _ st sc Hac) by lia. rewrite Hat, <- app_assoc.
      replace (Z.to_nat (0 + (Z.of_nat (length sz) + 2)
                         + (Z.of_nat (length p) + 2)))
        with (length (wireChunk (sz, p))) by lia.
      apply drop_app_length. }
    { destruct Hac as (_ & Hp & _). lia. }
    { destruct Hac as (_ & _ & Hr & _). lia. }
    { cbn [copied toRead]. lia. }
    { cbn [copied dst]. lia. }
    { cbn [copied dst dstArr]. rewrite !length_app, length_take, length_drop. lia. }
    { cbn [copied nread]. lia. }
    { cbn [copied nread]. lia. }
    exists st'. split.
    + intros [|fuel] Hfuel; [lia|]. cbn [length] in Hfuel.
      rewrite readLoop_unfold.
      destruct (Z.eqb_spec (toRead lv) 0) as [|_]; [lia|].
      rewrite Hsa.
      destruct Hadva as (_ & _ & _ & Hka & _). rewrite Hka, Hch, Hcra, Hcr.
      cbn [Z.eqb andb]. rewrite Hsb. cbn [negb].
      destruct fuel as [|[|fuel]]; [lia|lia|].
      rewrite Hsc.
      destruct Hac as (_ & _ & Hr & _).
      destruct (Z.eqb_spec (bufRemaining sc) 0) as [|_]; [lia|].
      rewrite andb_false_r. rewrite Hrun by (cbn [length] in Hfuel; lia).
      rewrite payloads_cons. cbn [snd]. rewrite copied_app by lia. reflexivity.
    + destruct Hfin as (F1 & F2 & F3 & F4 & F5).
      destruct Hac as (_ & _ & _ & _ & _ & G1 & G2 & G3).
      repeat split; congruence.
Qed.

Lemma payloads_no_NUL cs : Forall chunkOk cs -> NUL ∉ payloads cs.
Proof.
  induction 1 as [|c cs (_ & _ & Hnul & _) _ IH]; [apply not_elem_of_nil|].
  rewrite payloads_cons. apply not_elem_of_app. split; assumption.
Qed.

Lemma cstr_NUL_at arr k :
  arr !! k = Some NUL -> NUL ∉ take k arr -> cstr arr = take k arr.
Proof.
  intros Hk Hnul. pose proof (lookup_lt_Some _ _ _ Hk) as Hlt.
  rewrite <- (take_drop k arr) at 1.
  rewrite (drop_S _ _ _ Hk). unfold cstr.
  rewrite strlen_app_NUL by exact Hnul.
  apply take_app_length.
Qed.

(** One [read] over a chunked body that is wholly buffered: the array
    afterwards. *)
Lemma read_chunked_run B cs rest st arr n :
  let total := length (payloads cs) in
  Forall chunkOk cs ->
  isComplete st = false -> isChunked st = true -> chunkRemaining st = 0 ->
  atPtr st = wireChunks cs ++ "0"%char :: rest -> 0 <= bufPtr st ->
  Z.of_nat (length (wireChunks cs)) < bufRemaining st < SIZE_MOD ->
  Z.of_nat total < n < SIZE_MOD -> (total < length arr)%nat ->
  exists st',
    (forall fuel, (length cs + 2 <= fuel)%nat ->
       read B fuel arr n st
       = Ok (Z.of_nat total, payloads cs ++ NUL :: drop (S total) arr, st'))
    /\ isComplete st' = true /\ trace st' = trace st
    /\ socket st' = socket st /\ headerView st' = headerView st.
Proof.
  intros total Hok Hic Hch Hcr Hat Hptr Hrem Hn Harr.
  destruct (readLoop_chunked B cs st
              {| dstArr := arr; dst := 0; nread := 0; toRead := n |} rest Hok
              Hch Hcr Hat Hptr Hrem)
    as (st' & Hrun & Hic' & Hch' & Htr & Hsk & Hview);
    try (cbn [dst nread toRead dstArr]; fold total; lia).
  exists st'. split; [|repeat split; assumption].
  intros fuel Hfuel. unfold read. rewrite Hic. unfold mbind, result_bind.
  rewrite Hrun by exact Hfuel. rewrite Hch'. cbn [negb andb].
  unfold copied. cbn [dstArr dst nread toRead].
  change (Z.to_nat 0) with O. rewrite take_0. cbn [app Nat.add Z.add].
  fold total.
  rewrite store_fits
    by (rewrite ?length_app, ?length_drop; cbn [length]; fold total; lia).
  rewrite Z.add_0_l, Nat2Z.id.
  rewrite take_app_length' by reflexivity.
  rewrite drop_app_ge by (fold total; cbn [length]; lia).
  rewrite drop_drop. cbn [length app].
  replace (total + (total + 1 - length (payloads cs)))%nat with (S total)
    by (fold total; lia).
  reflexivity.
Qed.

(** X22. A chunked body that is wholly in the receive buffer is decoded by
    one [read] that asks for more than its payload: the call returns the
    length of the payloads, which it has copied to the destination one
    after the other with a NUL behind them, the response is complete, and
    the transport was not called.  The size lines are hexadecimal numbers
    that do not begin with 0; the first size line that begins with 0 ends
    the body, whatever follows it. *)
Theorem read_chunked_buffered (B : Z) (cs : list (list ascii * list ascii))
    (rest : list ascii) (st : Response) (arr : list ascii) (n : Z) :
  let total := length (payloads cs) in
  Forall chunkOk cs ->
  isComplete st = false -> isChunked st = true -> chunkRemaining st = 0 ->
  atPtr st = wireChunks cs ++ "0"%char :: rest -> 0 <= bufPtr st ->
  Z.of_nat (length (wireChunks cs)) < bufRemaining st < SIZE_MOD ->
  Z.of_nat total < n < SIZE_MOD -> (total < length arr)%nat ->
  exists arr' st',
    (forall fuel, (length cs + 2 <= fuel)%nat ->
       read B fuel arr n st = Ok (Z.of_nat total, arr', st'))
    /\ take total arr' = payloads cs /\ arr' !! total = Some NUL
    /\ length arr' = length arr
    /\ isComplete st' = true /\ trace st' = trace st
    /\ socket st' = socket st /\ headerView st' = headerView st.
Proof.
  intros total Hok Hic Hch Hcr Hat Hptr Hrem Hn Harr.
  destruct (read_chunked_run B cs rest st arr n Hok Hic Hch Hcr Hat Hptr Hrem
              Hn Harr) as (st' & Hrun & Hrest).
  exists (payloads cs ++ NUL :: drop (S total) arr), st'.
  split; [exact Hrun|]. split; [|split; [|split]].
  - apply take_app_length.
  - rewrite lookup_app_r by (fold total; lia).
    fold total. rewrite Nat.sub_diag. reflexivity.
  - rewrite length_app, length_cons, length_drop. fold total. lia.
  - exact Hrest.
Qed.

Lemma read_chunked_buffered_witness :
  exists arr' st',
    read 128 4 (replicate 101 "x"%char) 100 (streamingState wikipedia 0 [])
    = Ok (9, arr', st')
    /\ take 9 arr' = bytes "Wikipedia" /\ arr' !! 9%nat = Some NUL
    /\ isComplete st' = true /\ trace st' = [].
Proof.
  destruct (read_chunked_buffered 128
              [(bytes "4", bytes "Wiki"); (bytes "5", bytes "pedia")]
              (CRLF ++ CRLF ++ replicate 105 NUL) (streamingState wikipedia 0 [])
              (replicate 101 "x"%char) 100)
    as (arr' & st' & Hrun & Htake & Hnul & _ & Hic & Htr & _).
  - repeat constructor; compute_done.
  - reflexivity.
  - reflexivity.
  - reflexivity.
  - vm_compute. reflexivity.
  - cbn. lia.
  - vm_compute. split; reflexivity.
  - vm_compute. split; reflexivity.
  - vm_compute. lia.
  - exists arr', st'. split; [exact (Hrun 4%nat ltac:(cbn; lia))|].
    split; [exact Htake|]. split; [exact Hnul|]. split; [exact Hic|exact Htr].
Defined.

(** The head of a chunked response: a transfer encoding header whose value
    begins with [chunked], and no content length. *)
Lemma parseLines_chunk_framed ls1 name k value ls2 st :
  fieldName name -> lower name = bytes "transfer-encoding" ->
  hd NUL value <> SP -> take 7 value = bytes "chunked" ->
  Forall (fun l => ~ named (bytes "transfer-encoding") l) ls2 ->
  Forall (fun l => ~ named (bytes "content-length") l)
    (ls1 ++ field name k value :: ls2) ->
  let st' := parseLines (ls1 ++ field name k value :: ls2) st in
  contentLength st' = contentLength st /\ isChunked st' = true
  /\ isComplete st' = isComplete st.
Proof.
  intros Hname Hlow Hv Hval Hte Hcl st'. unfold st'. split; [|split].
  - apply parseLines_untouched.
    eapply Forall_impl; [exact Hcl|]. intros l Hl s.
    apply headerLine_contentLength_other, Hl.
  - rewrite (parseLines_last isChunked ls1 _ ls2).
    2:{ eapply Forall_impl; [exact Hte|]. intros l Hl s.
        apply headerLine_isChunked_other, Hl. }
    rewrite headerLine_dispatch by assumption.
    unfold setField. rewrite Hlow.
    change (bool_decide (bytes "transfer-encoding" = bytes "content-type")) with false.
    change (bool_decide (bytes "transfer-encoding" = bytes "content-length")) with false.
    change (bool_decide (bytes "transfer-encoding" = bytes "transfer-encoding")) with true.
    cbv iota. cbn [isChunked set_isChunked]. apply bool_decide_eq_true. exact Hval.
  - apply parseLines_untouched.
    eapply Forall_impl; [exact Hcl|]. intros l Hl s.
    apply headerLine_isComplete_other, Hl.
Qed.

Lemma concat_take_length {A : Type} (j : nat) (pre : list (list A)) l :
  (j <= length pre)%nat ->
  (length (concat (take j (pre ++ [l]))) <= length (concat pre))%nat.
Proof.
  intros Hj. rewrite take_app_le by exact Hj.
  rewrite <- (take_drop j pre) at 2. rewrite concat_app, length_app. lia.
Qed.

(** X23. A chunked response whose body came whole with the end of its
    header block is returned by [readToString] as the payloads of its
    chunks, one after the other, when they are shorter than the buffer;
    the response is then complete. *)
Theorem fetch_chunked (B : Z) (ls1 ls2 : list (list ascii))
    (name : list ascii) (k : nat) (value : list ascii)
    (cs : list (list ascii * list ascii)) (rest : list ascii)
    (pre : list (list ascii)) (f : list ascii) :
  let lines := ls1 ++ field name k value :: ls2 in
  let body := wireChunks cs ++ "0"%char :: rest in
  0 <= B < SIZE_MOD ->
  delivery B lines body (pre ++ [f]) ->
  (length (concat pre) < length (wire lines))%nat ->
  fieldName name -> lower name = bytes "transfer-encoding" ->
  hd NUL value <> SP -> take 7 value = bytes "chunked" ->
  Forall (fun l => ~ named (bytes "transfer-encoding") l) ls2 ->
  Forall (fun l => ~ named (bytes "content-length") l) lines ->
  Forall chunkOk cs -> Z.of_nat (length (payloads cs)) < B ->
  forall fuel, (length pre + length cs + 4 < fuel)%nat ->
    outcome (fetch B fuel (pre ++ [f])) = Some (payloads cs, true).
Proof.
  intros lines body HB Hdel Hlast Hname Hlow Hv Hval Hte Hcl Hok Hfit fuel Hfuel.
  destruct (readHeaders_handover B (connect (pre ++ [f]))
              {| rx := pre ++ [f]; wr := fun n => n |}
              lines body (pre ++ [f]) [] HB Hdel eq_refl
              ltac:(cbn [rx]; rewrite app_nil_r; reflexivity) eq_refl)
    as (st' & j & held & t & Hrun & Htake & Hheld & Hsk' & Hfields & Hcr
        & (b' & Hb' & Hb'len) & _ & Hsome).
  assert (Hj : (length pre < j)%nat).
  { destruct (Nat.le_gt_cases j (length pre)) as [Hle|]; [|assumption].
    pose proof (concat_take_length j pre f Hle) as Hshort.
    rewrite Htake, length_app in Hshort. lia. }
  rewrite drop_ge in Hheld by (rewrite length_app; cbn [length]; lia).
  cbn [concat] in Hheld. rewrite app_nil_r in Hheld. subst held.
  assert (Hbody : body <> []) by (unfold body; destruct (wireChunks cs); discriminate).
  destruct (Hsome Hbody) as (Hcur & Hptr & Hbound & Hat & _).
  unfold cursor in Hcur. injection Hcur as Hbr _.
  destruct (parseLines_chunk_framed ls1 name k value ls2
              (cleared (connect (pre ++ [f]))) Hname Hlow Hv Hval Hte Hcl)
    as (Hl & Hk & Hc).
  apply parsedFields_eq in Hfields as (_ & Hf2 & _ & _ & Hf5 & _ & Hf7 & _).
  fold lines in Hl, Hk, Hc.
  rewrite <- Hf2 in Hl. rewrite <- Hf5 in Hk. rewrite <- Hf7 in Hc.
  cbn in Hl, Hc.
  assert (Hblen : (length (wireChunks cs) < length body)%nat)
    by (unfold body; rewrite length_app; cbn [length]; lia).
  destruct (read_chunked_run B cs (rest ++ NUL :: t) st'
              (replicate (Z.to_nat B) NUL) B Hok Hc Hk Hcr
              ltac:(rewrite Hat; unfold body; rewrite <- app_assoc; reflexivity)
              Hptr ltac:(lia) ltac:(lia) ltac:(rewrite length_replicate; lia))
    as (st'' & Hread & Hic'' & _ & _ & Hview).
  pose proof (payloads_no_NUL cs Hok) as Hpn.
  set (arr' := payloads cs ++ NUL :: _) in Hread.
  assert (Hcstr : cstr arr' = payloads cs).
  { unfold arr', cstr. rewrite strlen_app_NUL by exact Hpn.
    apply take_app_length. }
  assert (Hcl'' : contentLength st'' = 0).
  { unfold headerView in Hview. injection Hview as _ Hx _. congruence. }
  unfold fetch. rewrite Hrun by (rewrite length_app; cbn [length]; lia).
  unfold mbind, result_bind. unfold readToString. rewrite Hl. cbn [Z.eqb negb].
  unfold mbind, result_bind.
  destruct fuel as [|fuel]; [lia|]. cbn [readAll]. unfold mbind, result_bind.
  rewrite Hread by lia. rewrite Hcstr. cbn [app].
  destruct (Z.eqb_spec (Z.of_nat (length (payloads cs))) 0) as [Hz|Hnz].
  - unfold outcome. f_equal. f_equal.
    unfold close. destruct (socket st''); cbn; exact Hic''.
  - destruct fuel as [|fuel]; [lia|]. cbn [readAll]. unfold mbind, result_bind.
    destruct (read_complete B fuel arr' B st'' Hic'') as (arr2 & Hread2 & Hz2).
    { unfold arr'. destruct (payloads cs); discriminate. }
    rewrite Hread2. cbn [Z.eqb].
    rewrite (cstr_NUL_at arr2 0 Hz2) by (rewrite take_0; apply not_elem_of_nil).
    rewrite take_0, app_nil_r. unfold outcome. f_equal. f_equal.
    unfold close. destruct (socket st''); cbn; exact Hic''.
Qed.

Lemma fetch_chunked_witness :
  outcome (fetch 128 8 [take 30 (chunkedHead ++ wikipedia);
                        drop 30 (chunkedHead ++ wikipedia)])
  = Some (bytes "Wikipedia", true).
Proof.
  apply (fetch_chunked 128 [bytes "HTTP/1.1 200 OK"] []
           (bytes "Transfer-Encoding") 1 (bytes "chunked")
           [(bytes "4", bytes "Wiki"); (bytes "5", bytes "pedia")]
           (CRLF ++ CRLF)
           [take 30 (chunkedHead ++ wikipedia)]
           (drop 30 (chunkedHead ++ wikipedia))).
  - compute_done.
  - split; [|split].
    + repeat constructor; compute_done.
    + repeat constructor; compute_done.
    + vm_compute. reflexivity.
  - vm_compute. lia.
  - repeat split; compute_done.
  - reflexivity.
  - compute_done.
  - reflexivity.
  - constructor.
  - unnamed.
  - repeat constructor; compute_done.
  - vm_compute. reflexivity.
  - cbn. lia.
Defined.

(** ** A response that is no redirect *)

(** X24. A response without a Location header is returned as it is,
    whatever its status code: [execute] opens one connection, writes the
    request once, receives the header block and returns the response, with
    no redirect followed. *)
Theorem execute_without_location (B : Z)
    (net : bool -> list ascii -> Z -> Socket) (req : HTTPRequest)
    (tls : bool) (host : list ascii) (port : Z) (path : list ascii)
    (lines : list (list ascii)) (body : list ascii)
    (fills post : list (list ascii)) :
  let sk := net tls host port in
  let data := serialize req path host port in
  splitUrl (url req) = Ok (tls, host, port, path) ->
  wr sk (Z.of_nat (length data)) = Z.of_nat (length data) ->
  delivery B lines body fills -> rx sk = fills ++ post ->
  Forall (fun l => ~ named (bytes "location") l) lines ->
  exists st' evs,
    (forall fuel, (length fills < fuel)%nat ->
       execute B net fuel req = Ok (Some st', trace st'))
    /\ trace st'
       = EvOpen tls host port :: EvWrite data (Z.of_nat (length data)) :: evs
    /\ Forall receives evs
    /\ isRedirect st' = false /\ redirectCount st' = 0.
Proof.
  intros sk data Hurl Hwr Hdel Hrx Hloc.
  set (st0 := add_event (EvWrite data (Z.of_nat (length data)))
                (add_event (EvOpen tls host port)
                   (set_socket (Some sk) newResponse))).
  destruct (readHeaders_lines B st0 sk lines body fills post Hdel eq_refl Hrx)
    as (st' & Hrun & Hfields).
  pose proof (Hrun (length fills) (Nat.le_refl _)) as Hone.
  pose proof (readHeaders_same_call B _ st0 st' Hone) as [(Hcount & _) _].
  unfold readHeaders in Hone. apply fillLoop_keeps in Hone as (_ & _ & evs & Htr & Hevs).
  assert (Htrace : trace st'
                   = EvOpen tls host port
                     :: EvWrite data (Z.of_nat (length data)) :: evs).
  { rewrite Htr. reflexivity. }
  apply parsedFields_eq in Hfields as (_ & _ & _ & _ & _ & _ & _ & Hred).
  assert (Hno : isRedirect st' = false).
  { rewrite Hred. rewrite (parseLines_untouched isRedirect lines); [reflexivity|].
    eapply Forall_impl; [exact Hloc|]. intros l Hl s.
    apply headerLine_location_other, Hl. }
  exists st', evs. split; [|repeat split; assumption].
  intros [|fuel] Hfuel; [lia|].
  unfold execute. cbn [executeImpl]. rewrite Hurl. unfold mbind, result_bind.
  fold sk. fold data. rewrite Hwr, Z.eqb_refl. cbn [negb].
  fold st0. rewrite Hrun by lia. rewrite Hno. reflexivity.
Qed.

Lemma execute_without_location_witness :
  exists st' evs,
    execute 128
      (fun _ _ _ => {| rx := [wire [bytes "HTTP/1.1 302 Found"]];
                       wr := fun n => n |})
      2 {| method := GET; url := bytes "http://h/p"; body := [];
           reqContentType := []; reqHeaders := []; maxRedirects := 5 |}
    = Ok (Some st', trace st')
    /\ trace st'
       = EvOpen false (bytes "h") 80
         :: EvWrite (bytes "GET /p HTTP/1.1" ++ CRLF ++ bytes "Host: h:80" ++ CRLF
                     ++ bytes "Accept: */*" ++ CRLF ++ CRLF) 44 :: evs
    /\ statusCode st' = 302 /\ isRedirect st' = false.
Proof.
  destruct (execute_without_location 128
              (fun _ _ _ => {| rx := [wire [bytes "HTTP/1.1 302 Found"]];
                               wr := fun n => n |})
              {| method := GET; url := bytes "http://h/p"; body := [];
                 reqContentType := []; reqHeaders := []; maxRedirects := 5 |}
              false (bytes "h") 80 (bytes "/p")
              [bytes "HTTP/1.1 302 Found"] [] [wire [bytes "HTTP/1.1 302 Found"]] [])
    as (st' & evs & Hrun & Htr & _ & Hred & _).
  - vm_compute. reflexivity.
  - reflexivity.
  - split; [|split].
    + repeat constructor; compute_done.
    + repeat constructor; compute_done.
    + vm_compute. reflexivity.
  - reflexivity.
  - unnamed.
  - exists st', evs. pose proof (Hrun 2%nat ltac:(cbn; lia)) as Hex.
    split; [exact Hex|]. split; [exact Htr|]. split; [|exact Hred].
    revert Hex. vm_compute. intros [= <- _]. reflexivity.
Defined.

(** ** The length of the string returned *)

Lemma close_released s : socket (close s) = None /\ buf (close s) = None.
Proof.
  unfold close. destruct (socket s) eqn:E; split; cbn; try reflexivity; exact E.
Qed.

(** X25. [readToString] on a response with a content length returns,
    whenever it returns, a string of exactly that many bytes, whatever
    arrived of the body, with the transport and the buffer released; and it
    never writes outside its string. *)
Theorem readToString_length (B : Z) (fuel : nat) (st : Response) :
  0 < contentLength st < SIZE_MOD -> counters_ok st ->
  match readToString B fuel st with
  | Ok (s, st') =>
      Z.of_nat (length s) = contentLength st
      /\ socket st' = None /\ buf st' = None
  | Err e => e <> DstOverflow
  end.
Proof.
  intros [HL0 HL] Hst. unfold readToString.
  destruct (Z.eqb_spec (contentLength st) 0) as [|_]; [lia|]. cbn [negb].
  unfold mbind, result_bind, read.
  set (L := contentLength st) in *.
  set (arr := replicate (S (Z.to_nat L)) NUL).
  assert (Harr : Z.of_nat (length arr) = L + 1)
    by (unfold arr; rewrite length_replicate; lia).
  destruct (isComplete st).
  - unfold mbind, result_bind.
    rewrite store_fits by (cbn [length]; lia).
    split; [|apply close_released].
    rewrite length_take, !length_app, length_take, length_drop. cbn [length]. lia.
  - unfold mbind, result_bind.
    set (lv0 := {| dstArr := arr; dst := 0; nread := 0; toRead := L |}).
    assert (Hlv0 : locals_ok arr L lv0).
    { unfold locals_ok, lv0. cbn. repeat split; try lia. }
    pose proof (readLoop_inv B arr L fuel lv0 st HL Hlv0 Hst) as Hloop.
    destruct (readLoop B fuel lv0 st) as [[lv st1]|e];
      [|intros ->; specialize (Hloop eq_refl); lia].
    destruct Hloop as [(Hd & Hr0 & Ht0 & Hsum & Hlen & _) _].
    rewrite store_fits by (cbn [length]; lia).
    split.
    + rewrite length_take, !length_app, length_take, length_drop. cbn [length]. lia.
    + apply close_released.
Qed.

Lemma readToString_length_witness :
  match readToString 128 6
          (returned (readHeaders 128 1
                       (connect [wire (lengthHead 11) ++ bytes "hello"])))
  with
  | Ok (s, st') => Z.of_nat (length s) = 11 /\ socket st' = None /\ buf st' = None
  | Err e => e <> DstOverflow
  end.
Proof.
  apply (readToString_length 128 6
           (returned (readHeaders 128 1
                        (connect [wire (lengthHead 11) ++ bytes "hello"])))).
  - vm_compute. split; reflexivity.
  - vm_compute. repeat split; discriminate.
Defined.
